(** * tshet-uinh-py: 音韻地位, 屬於/判斷, 反切, 韻鏡 and 壓縮表示

    A shallow embedding of the Python package [tshet_uinh] together with the
    properties its specification states about it.

    Conventions of the embedding.
    - A Python [str] is the list of its Unicode code points ([str]); string
      literals are written as in the source and decoded from UTF-8 when they
      are parsed.  [x in "abc"] on a [str] is substring search
      ([str_contains]); [x in lst] on a list or tuple is membership
      ([str_in]).
    - [None]-able attributes are [option]s, Python [int]s are [Z].
    - A raised exception is the [Raise] branch of [result]; the exception
      class and its message are kept.
    - Calls to [default_logger.log] that only trace a derivation are not
      modelled in 韻鏡; 執行反切 threads its log explicitly. *)

From Stdlib Require Import NArith ZArith List Bool Lia.
From Stdlib.Strings Require Import Byte.
Import ListNotations.

Set Implicit Arguments.
Set Warnings "-register-all".

(* ===================================================================== *)
(** ** Python strings *)
(* ===================================================================== *)

Definition char := N.
Definition str := list char.

(** String literals: the UTF-8 bytes of the literal are decoded to code
    points. *)
Inductive literal := Lit (cs : list N).
Definition chars (l : literal) : list N := let 'Lit cs := l in cs.
Coercion chars : literal >-> list.

Fixpoint utf8_decode (bs : list N) : list N :=
  match bs with
  | [] => []
  | b :: r =>
    if (b <? 128)%N then b :: utf8_decode r
    else if (b <? 224)%N then
      match r with
      | b1 :: r' => ((b - 192) * 64 + (b1 - 128))%N :: utf8_decode r'
      | _ => []
      end
    else if (b <? 240)%N then
      match r with
      | b1 :: b2 :: r' =>
        ((b - 224) * 4096 + (b1 - 128) * 64 + (b2 - 128))%N :: utf8_decode r'
      | _ => []
      end
    else
      match r with
      | b1 :: b2 :: b3 :: r' =>
        ((b - 240) * 262144 + (b1 - 128) * 4096 + (b2 - 128) * 64
         + (b3 - 128))%N :: utf8_decode r'
      | _ => []
      end
  end.

Definition utf8_encode1 (c : N) : list N :=
  if (c <? 128)%N then [c]
  else if (c <? 2048)%N then [192 + c / 64; 128 + c mod 64]%N
  else if (c <? 65536)%N then
    [224 + c / 4096; 128 + (c / 64) mod 64; 128 + c mod 64]%N
  else [240 + c / 262144; 128 + (c / 4096) mod 64; 128 + (c / 64) mod 64;
        128 + c mod 64]%N.

Definition literal_of_bytes (bs : list byte) : literal :=
  Lit (utf8_decode (map (fun b => N.of_nat (Byte.to_nat b)) bs)).

Definition bytes_of_literal (l : literal) : option (list byte) :=
  let fix go (ns : list N) : option (list byte) :=
    match ns with
    | [] => Some []
    | n :: r =>
      match Byte.of_nat (N.to_nat n), go r with
      | Some b, Some bs => Some (b :: bs)
      | _, _ => None
      end
    end in
  go (flat_map utf8_encode1 (chars l)).

Declare Scope py_scope.
Delimit Scope py_scope with py.
String Notation literal literal_of_bytes bytes_of_literal : py_scope.
Open Scope py_scope.

Fixpoint str_eqb (a b : str) : bool :=
  match a, b with
  | [], [] => true
  | x :: a', y :: b' => (x =? y)%N && str_eqb a' b'
  | _, _ => false
  end.

(** [x in lst] for a list or tuple of strings. *)
Definition str_in (x : str) (l : list str) : bool := existsb (str_eqb x) l.

Fixpoint str_prefix (p s : str) : bool :=
  match p, s with
  | [], _ => true
  | x :: p', y :: s' => (x =? y)%N && str_prefix p' s'
  | _ :: _, [] => false
  end.

(** [x in s] for a [str] [s]: substring search. *)
Fixpoint str_contains (s x : str) : bool :=
  str_prefix x s ||
  match s with
  | [] => false
  | _ :: s' => str_contains s' x
  end.

(** [list("abc")] / [tuple("abc")]: the one-character strings of a string. *)
Definition list_ (s : str) : list str := map (fun c => [c]) s.

(** [s.endswith(x)]. *)
Definition endswith (s x : str) : bool := str_prefix (rev x) (rev s).

Definition opt_str_eqb (a : option str) (b : str) : bool :=
  match a with
  | Some s => str_eqb s b
  | None => false
  end.

(** [v or ""] for an optional string (the empty string is falsy too). *)
Definition or_empty (v : option str) : str :=
  match v with
  | Some s => s
  | None => []
  end.

(* ===================================================================== *)
(** ** Exceptions *)
(* ===================================================================== *)

Inductive exn :=
| ValueError (msg : str)
| RuntimeError (msg : str)
| KeyError (key : str)
| IndexError
| TypeError.

Inductive result (A : Type) :=
| Ok (a : A)
| Raise (e : exn).
Arguments Ok {A} a.
Arguments Raise {A} e.

Definition bind {A B} (r : result A) (k : A -> result B) : result B :=
  match r with
  | Ok a => k a
  | Raise e => Raise e
  end.

Notation "x <- c ;; k" := (bind c (fun x => k))
  (at level 61, c at next level, right associativity).
Notation "c ;;; k" := (bind c (fun _ => k))
  (at level 61, right associativity).

Definition raises {A} (r : result A) : bool :=
  match r with
  | Ok _ => false
  | Raise _ => true
  end.

(** [assert_condition] of utils.py. *)
Definition assert_condition (condition : bool) (message : str) : result unit :=
  if condition then Ok tt else Raise (ValueError message).

(** [seq.index(x)]: position of the first equal element, ValueError if
    absent. *)
Fixpoint list_index (l : list str) (x : str) : result Z :=
  match l with
  | [] => Raise (ValueError "x not in list")
  | y :: r => if str_eqb y x then Ok 0%Z
              else i <- list_index r x ;; Ok (i + 1)%Z
  end.

(** [s.index(x)] on a [str]: position of the first occurrence. *)
Fixpoint str_index (s x : str) : result Z :=
  if str_prefix x s then Ok 0%Z
  else match s with
       | [] => Raise (ValueError "substring not found")
       | _ :: s' => i <- str_index s' x ;; Ok (i + 1)%Z
       end.

(** [seq[i]] with Python's negative indices. *)
Definition getitem {A} (l : list A) (i : Z) : result A :=
  let j := if (i <? 0)%Z then (i + Z.of_nat (length l))%Z else i in
  if (j <? 0)%Z then Raise IndexError
  else match nth_error l (Z.to_nat j) with
       | Some a => Ok a
       | None => Raise IndexError
       end.

(** Dictionaries whose iteration order is observable are association
    lists in insertion order. *)
Definition dict (V : Type) := list (str * V).

Fixpoint dict_get {V} (d : dict V) (k : str) : option V :=
  match d with
  | [] => None
  | (k', v) :: r => if str_eqb k' k then Some v else dict_get r k
  end.

Definition dict_getitem {V} (d : dict V) (k : str) : result V :=
  match dict_get d k with
  | Some v => Ok v
  | None => Raise (KeyError k)
  end.

(* ===================================================================== *)
(** ** 音韻屬性常量 *)
(* ===================================================================== *)

(** The tables of the module 音韻屬性常量, which every other module
    imports.  The code below only ever reads them, so the development is
    parametric in them: whatever is proved inside a section under this
    class holds for any contents of the tables. *)
Class 音韻屬性常量 := {
  所有 : dict (list str);
  母到清濁 : dict str;
  母到音 : dict str;
  母到組 : dict (option str);
  韻到攝 : dict str;
  等母搭配 : dict (list str);
  等韻搭配 : dict (list str);
  呼韻搭配 : dict (list str);
  鈍音母 : list str;
  陰聲韻 : list str
}.

(** Inverts a table written group by group: every member of [members]
    is mapped to [value]. *)
Definition group_entries {V} (value : V) (members : str) : dict V :=
  map (fun c => ([c], value)) members.

(** Modelled from the spec: the source file 音韻屬性常量.py itself is
    missing.  The contents below are the tables of the 切韻 attribute
    model the specification describes (38 initials, 58 rimes, the
    division and rounding compatibility buckets, the 鈍音 initials and the
    陰聲 rimes).  They agree with everything the available sources fix:
    the order of 所有["母"] and the two-division rimes with the codes
    asserted in test_壓縮表示.py and with 韻序表, the keys with the
    subscripts used in 音韻地位.py, 反切.py and 韻鏡.py, and the buckets
    with the accepted and rejected descriptions of test_音韻地位.py. *)
#[export] Instance 切韻常量 : 音韻屬性常量 := {|
  所有 := [
    ("母" : str,
     list_ "幫滂並明端透定泥來知徹澄孃精清從心邪莊初崇生俟章昌常書船日見溪羣疑影曉匣云以");
    ("呼" : str, list_ "開合");
    ("等" : str, list_ "一二三四");
    ("類" : str, list_ "ABC");
    ("韻" : str,
     list_ "東冬鍾江支脂之微魚虞模齊祭泰佳皆夬灰咍廢真臻文殷元魂痕寒刪山先仙蕭宵肴豪歌麻陽唐庚耕清青蒸登尤侯幽侵覃談鹽添咸銜嚴凡");
    ("聲" : str, list_ "平上去入")
  ];
  母到清濁 :=
    group_entries ("全清" : str) "幫端知精心莊生章書見影曉"
    ++ group_entries ("次清" : str) "滂透徹清初昌溪"
    ++ group_entries ("全濁" : str) "並定澄從邪崇俟常船羣匣"
    ++ group_entries ("次濁" : str) "明泥來孃日疑云以";
  母到音 :=
    group_entries ("脣" : str) "幫滂並明"
    ++ group_entries ("舌" : str) "端透定泥知徹澄孃來"
    ++ group_entries ("齒" : str) "精清從心邪莊初崇生俟章昌常書船日"
    ++ group_entries ("牙" : str) "見溪羣疑"
    ++ group_entries ("喉" : str) "影曉匣云以";
  母到組 :=
    group_entries (Some ("幫" : str)) "幫滂並明"
    ++ group_entries (Some ("端" : str)) "端透定泥"
    ++ group_entries (Some ("知" : str)) "知徹澄孃"
    ++ group_entries (Some ("精" : str)) "精清從心邪"
    ++ group_entries (Some ("莊" : str)) "莊初崇生俟"
    ++ group_entries (Some ("章" : str)) "章昌常書船"
    ++ group_entries (Some ("見" : str)) "見溪羣疑"
    ++ group_entries (Some ("影" : str)) "影曉匣云"
    ++ group_entries (@None str) "來日以";
  韻到攝 :=
    group_entries ("通" : str) "東冬鍾"
    ++ group_entries ("江" : str) "江"
    ++ group_entries ("止" : str) "支脂之微"
    ++ group_entries ("遇" : str) "魚虞模"
    ++ group_entries ("蟹" : str) "齊祭泰佳皆夬灰咍廢"
    ++ group_entries ("臻" : str) "真臻文殷魂痕"
    ++ group_entries ("山" : str) "元寒刪山先仙"
    ++ group_entries ("效" : str) "蕭宵肴豪"
    ++ group_entries ("果" : str) "歌"
    ++ group_entries ("假" : str) "麻"
    ++ group_entries ("宕" : str) "陽唐"
    ++ group_entries ("梗" : str) "庚耕清青"
    ++ group_entries ("曾" : str) "蒸登"
    ++ group_entries ("流" : str) "尤侯幽"
    ++ group_entries ("深" : str) "侵"
    ++ group_entries ("咸" : str) "覃談鹽添咸銜嚴凡";
  等母搭配 := [
    ("一二四" : str, list_ "端透定泥");
    ("二三" : str, list_ "知徹澄孃莊初崇生");
    ("一三四" : str, list_ "精清從心");
    ("三" : str, list_ "章昌常書船日云以")
  ];
  等韻搭配 := [
    ("一" : str, list_ "冬模泰咍灰痕魂寒豪唐登侯覃談");
    ("二" : str, list_ "江佳皆夬刪山肴耕咸銜");
    ("三" : str, list_ "鍾支脂之微魚虞祭廢真臻殷元文仙宵陽清蒸尤幽侵鹽嚴凡");
    ("四" : str, list_ "齊先蕭青添");
    ("一三" : str, list_ "東歌");
    ("二三" : str, list_ "麻庚")
  ];
  呼韻搭配 := [
    ("開合" : str, list_ "支脂微齊祭泰佳皆夬廢真元寒刪山先仙歌麻陽唐庚耕清青蒸登");
    ("開" : str, list_ "咍痕殷嚴之魚臻蕭宵肴豪幽侵覃談鹽添咸銜");
    ("合" : str, list_ "灰魂文凡虞");
    ("中立" : str, list_ "東冬鍾江模尤侯")
  ];
  鈍音母 := list_ "幫滂並明見溪羣疑影曉匣云";
  陰聲韻 := list_ "支脂之微魚虞模齊祭泰佳皆夬灰咍廢蕭宵肴豪歌麻侯尤幽"
|}.

(* ===================================================================== *)
(** ** 音韻地位.py *)
(* ===================================================================== *)

(** The six attributes of an 音韻地位 object. *)
Record 音韻地位 := Mk音韻地位 {
  母 : str;
  呼 : option str;
  等 : str;
  類 : option str;
  韻 : str;
  聲 : str
}.

(** 邊緣地位種類指定 = Sequence[str].  Lists and tuples are kept apart
    because the comparison with the tuple [_UNCHECKED] is [False] for any
    list. *)
Inductive 邊緣地位種類指定 :=
| as_list (kinds : list str)
| as_tuple (kinds : list str).

Definition kinds_of (k : 邊緣地位種類指定) : list str :=
  match k with
  | as_list l => l
  | as_tuple l => l
  end.

Definition 已知邊緣地位 : list str := [
  "並三A陽上" : str;
  "定開四脂去" : str;
  "端開二庚上" : str;
  "端開二麻上" : str;
  "端開四麻平" : str;
  "端開四麻上" : str;
  "定開二佳上" : str;
  "端四尤平" : str;
  "云開三C之上" : str;
  "云開三B仙平" : str
].

Definition _UNCHECKED : 邊緣地位種類指定 := as_tuple ["@UNCHECKED@" : str].

(** [邊緣地位種類 == _UNCHECKED]. *)
Definition is_UNCHECKED (k : 邊緣地位種類指定) : bool :=
  match k with
  | as_tuple [x] => str_eqb x "@UNCHECKED@"
  | _ => false
  end.

(** [邊緣地位種類 or ()]. *)
Definition or_empty_tuple (k : option 邊緣地位種類指定) : 邊緣地位種類指定 :=
  match k with
  | None => as_tuple []
  | Some s => match kinds_of s with
              | [] => as_tuple []
              | _ :: _ => s
              end
  end.

(** [len(set(l)) == len(tuple(l))]. *)
Fixpoint no_duplicates (l : list str) : bool :=
  match l with
  | [] => true
  | x :: r => negb (str_in x r) && no_duplicates r
  end.

(** [s.replace("A", "")]. *)
Definition remove_A (s : str) : str :=
  filter (fun c => negb (str_eqb [c] "A")) s.

Definition 類搭配_pairs : list (str * list str) := [
  ("C" : str, list_ "東鍾之微魚虞廢殷元文歌尤嚴凡");
  ("AB" : str, list_ "支脂祭真仙宵麻幽侵鹽");
  ("A" : str, ["清" : str]);
  ("B" : str, ["庚" : str]);
  ("BC" : str, ["蒸" : str]);
  ("CA" : str, ["陽" : str])
].

Fixpoint 類搭配_find (pairs : list (str * list str)) (韻 : str)
  : option (str * str) :=
  match pairs with
  | [] => None
  | (類組, 韻組) :: r =>
    if str_in 韻 韻組 then
      let normalized := if str_eqb 類組 "CA" then ("C" : str) else 類組 in
      Some (normalized, 類組)
    else 類搭配_find r 韻
  end.

Definition 類搭配 (母 韻 : str) : result (str * str) :=
  match 類搭配_find 類搭配_pairs 韻 with
  | None => Raise (ValueError ("unknown 韻: " ++ 韻))
  | Some result =>
    if str_eqb 母 "云" then Ok (remove_A (fst result), remove_A (snd result))
    else Ok result
  end.

Definition 描述_of (母 : str) (呼 : option str) (等 : str) (類 : option str)
  (韻 聲 : str) : str :=
  母 ++ or_empty 呼 ++ 等 ++ or_empty 類 ++ 韻 ++ 聲.

(** The property 描述. *)
Definition 描述 (P : 音韻地位) : str :=
  描述_of (母 P) (呼 P) (等 P) (類 P) (韻 P) (聲 P).

(** 音韻地位.等於. *)
Definition 等於 (P Q : 音韻地位) : bool := str_eqb (描述 P) (描述 Q).

Definition replacements : dict (dict str) := [
  ("母" : str, [("娘" : str, "孃" : str); ("群" : str, "羣" : str)]);
  ("韻" : str, [("眞" : str, "真" : str); ("欣" : str, "殷" : str)])
].

(** The rows of [marginal_tests]: kind, strict, condition, errmsg. *)
Definition marginal_test := (str * bool * bool * str)%type.

(** The kinds [marginal_tests] knows, in its order. *)
Definition MarginalKind : list str := [
  "陽韻A類" : str; "端組類隔" : str; "咍韻脣音" : str; "匣母三等" : str;
  "羣邪俟母非三等" : str; "云母開口" : str
].

Section 驗證.
Context {常 : 音韻屬性常量}.
Variables (母 : str) (呼 : option str) (等 : str) (類 : option str)
          (韻 聲 : str).

(** The local function [reject] of 驗證. *)
Definition reject {A} (msg : str) : result A :=
  Raise (ValueError ("invalid 音韻地位 <" ++ 母 ++ "," ++ or_empty 呼 ++ ","
                     ++ 等 ++ "," ++ or_empty 類 ++ "," ++ 韻 ++ "," ++ 聲
                     ++ ">: " ++ msg)).

(** One round of the first loop: the value must belong to 所有[屬性]. *)
Definition 驗證_屬性 (屬性 : str) (值 : option str) (nullable : bool)
  : result unit :=
  match 值 with
  | None => if nullable then Ok tt else reject ("missing " ++ 屬性)
  | Some v =>
    domain <- dict_getitem 所有 屬性 ;;
    if str_in v domain then Ok tt
    else
      let suggestion :=
        match dict_get replacements 屬性 with
        | Some d => dict_get d v
        | None => None
        end in
      let extra : str :=
        match suggestion with
        | Some ((_ :: _) as s) => " (did you mean: " ++ s ++ "?)"
        | _ => ""
        end in
      reject ("unrecognized " ++ 屬性 ++ ": " ++ v ++ extra)
  end.

Definition 驗證_所有屬性 : result unit :=
  驗證_屬性 "母" (Some 母) false ;;;
  驗證_屬性 "呼" 呼 true ;;;
  驗證_屬性 "等" (Some 等) false ;;;
  驗證_屬性 "類" 類 true ;;;
  驗證_屬性 "韻" (Some 韻) false ;;;
  驗證_屬性 "聲" (Some 聲) false.

Definition 驗證_入聲 : result unit :=
  if str_eqb 聲 "入" && str_in 韻 陰聲韻
  then reject ("unexpected " ++ 韻 ++ "韻入聲")
  else Ok tt.

(** [for 搭配等, 搭配母 in 等母搭配.items()]. *)
Fixpoint 驗證_等母 (items : dict (list str)) : result unit :=
  match items with
  | [] => Ok tt
  | (搭配等, 搭配母) :: rest =>
    if str_in 母 搭配母 && negb (str_contains 搭配等 等)
    then reject ("unexpected " ++ 母 ++ "母" ++ 等 ++ "等")
    else 驗證_等母 rest
  end.

(** [for 搭配各等, 搭配各韻 in 等韻搭配.items()], with its [break]s. *)
Fixpoint 驗證_等韻 (items : dict (list str)) : result unit :=
  match items with
  | [] => Ok tt
  | (搭配各等, 搭配各韻) :: rest =>
    if str_in 韻 搭配各韻 then
      if str_contains 搭配各等 等 then Ok tt
      else if str_contains 搭配各等 "三" && str_eqb 等 "四"
              && str_contains "端透定泥" 母 then Ok tt
      else reject ("unexpected " ++ 韻 ++ "韻" ++ 等 ++ "等")
    else 驗證_等韻 rest
  end.

(** [呼 not in {"開", "合"}]. *)
Definition 呼_not_in_開合 : bool :=
  negb (opt_str_eqb 呼 "開" || opt_str_eqb 呼 "合").

Definition 驗證_呼 : result unit :=
  if str_contains "幫滂並明" 母 then
    match 呼 with
    | Some _ => reject "unexpected 呼 for 脣音"
    | None => Ok tt
    end
  else
    中立 <- dict_getitem 呼韻搭配 "中立" ;;
    if str_in 韻 中立 then
      match 呼 with
      | Some _ => reject "unexpected 呼 for 開合中立韻"
      | None => Ok tt
      end
    else
      開 <- dict_getitem 呼韻搭配 "開" ;;
      合 <- dict_getitem 呼韻搭配 "合" ;;
      開合 <- dict_getitem 呼韻搭配 "開合" ;;
      if str_in 韻 (開 ++ 合 ++ 開合) then
        let expected : option str :=
          if str_in 韻 開合 then None
          else if str_in 韻 開 then Some ("開" : str)
          else if str_in 韻 合 then Some ("合" : str)
          else None in
        match expected with
        | None =>
          if 呼_not_in_開合 then reject "missing 呼 (should be 開或合)"
          else Ok tt
        | Some e =>
          if opt_str_eqb 呼 e then Ok tt
          else match 呼 with
               | None => reject ("missing 呼 (should be " ++ e ++ ")")
               | Some h => reject ("unexpected " ++ 韻 ++ "韻" ++ h ++ "口")
               end
        end
      else
        if 呼_not_in_開合 then reject "missing 呼" else Ok tt.

Definition 驗證_類 : result unit :=
  if negb (str_eqb 等 "三") then
    match 類 with
    | Some _ => reject "unexpected 類 for 非三等"
    | None => Ok tt
    end
  else if negb (str_in 母 鈍音母) then
    match 類 with
    | Some _ => reject "unexpected 類 for 銳音聲母"
    | None => Ok tt
    end
  else
    p <- 類搭配 母 韻 ;;
    let '(典型搭配類, 可用類) := p in
    match 類 with
    | None =>
      let suggestion : str :=
        if (length 典型搭配類 =? 1)%nat && negb (str_eqb 典型搭配類 可用類)
        then " (should be " ++ 典型搭配類 ++ " typically)"
        else "" in
      reject ("missing 類" ++ suggestion)
    | Some c =>
      if negb (str_contains 可用類 c) then
        (if str_eqb 母 "云" && str_eqb c "A"
         then reject "unexpected 云母A類" else Ok tt) ;;;
        reject ("unexpected " ++ 韻 ++ "韻" ++ c ++ "類")
      else Ok tt
    end.

Definition 驗證_脣音 : result unit :=
  if str_contains "幫滂並明" 母 then
    if str_contains "之魚殷痕嚴" 韻
    then reject ("unexpected " ++ 韻 ++ "韻脣音") else Ok tt
  else if str_eqb 韻 "凡" then reject "unexpected 凡韻非脣音"
  else Ok tt.

Definition 驗證_莊組 : result unit :=
  if str_contains "莊初崇生俟" 母 then
    (if str_eqb 等 "三" && str_eqb 韻 "清"
     then reject ("unexpected " ++ 韻 ++ "韻莊組") else Ok tt) ;;;
    (if opt_str_eqb 呼 "開" && str_in 韻 ["真" : str; "殷" : str]
     then reject ("unexpected " ++ 韻 ++ "韻開口莊組") else Ok tt)
  else
    (if str_eqb 韻 "臻" then reject "unexpected 臻韻非莊組" else Ok tt) ;;;
    (if str_eqb 韻 "庚" && negb (str_eqb 等 "二") && negb (str_in 母 鈍音母)
     then reject ("unexpected 庚韻" ++ 等 ++ "等" ++ 母 ++ "母") else Ok tt).

(** The list [marginal_tests]; building it evaluates every condition. *)
Definition marginal_tests : result (list marginal_test) :=
  端組類隔 <-
    (if str_contains "端透定泥" 母 then
       if str_eqb 等 "二" then Ok true
       else if str_eqb 等 "四" then
         四 <- dict_getitem 等韻搭配 "四" ;; Ok (negb (str_in 韻 四))
       else Ok false
     else Ok false) ;;
  Ok [
    ("陽韻A類" : str, true, str_eqb 韻 "陽" && opt_str_eqb 類 "A",
     "陽韻A類" : str);
    ("端組類隔" : str, true, 端組類隔, 韻 ++ "韻" ++ 等 ++ "等" ++ 母 ++ "母");
    ("咍韻脣音" : str, true, str_eqb 韻 "咍" && str_contains "幫滂並明" 母,
     "咍韻脣音" : str);
    ("匣母三等" : str, true, str_eqb 母 "匣" && str_eqb 等 "三",
     "匣母三等" : str);
    ("羣邪俟母非三等" : str, true,
     str_contains "羣邪俟" 母 && negb (str_eqb 等 "三"),
     母 ++ "母" ++ 等 ++ "等");
    ("云母開口" : str, false,
     str_eqb 母 "云" && opt_str_eqb 呼 "開"
     && negb (str_contains "宵幽侵鹽嚴" 韻),
     "云母開口" : str)
  ].

(** [for kind in 邊緣地位種類: if kind not in known_kinds: raise]. *)
Fixpoint 驗證_known_kinds (known_kinds kinds : list str) : result unit :=
  match kinds with
  | [] => Ok tt
  | kind :: rest =>
    if negb (str_in kind known_kinds)
    then Raise (ValueError ("unknown type of marginal 音韻地位: " ++ kind))
    else 驗證_known_kinds known_kinds rest
  end.

(** [for kind, strict, condition, errmsg in marginal_tests]. *)
Fixpoint 驗證_marginal_tests (邊緣地位指定集 : list str)
  (tests : list marginal_test) : result unit :=
  match tests with
  | [] => Ok tt
  | (kind, strict, condition, errmsg) :: rest =>
    (if condition && negb (str_in kind 邊緣地位指定集) then
       let suffix : str :=
         if strict then ""
         else " (note: marginal 音韻地位, include '" ++ kind ++ "' to allow)" in
       reject ("unexpected " ++ errmsg ++ suffix)
     else Ok tt) ;;;
    (if strict && negb condition && str_in kind 邊緣地位指定集 then
       reject ("expect marginal 音韻地位: " ++ kind
               ++ " (note: don't specify unless it describes this 音韻地位)")
     else Ok tt) ;;;
    驗證_marginal_tests 邊緣地位指定集 rest
  end.

Definition 驗證_邊緣地位 (邊緣地位種類 : 邊緣地位種類指定) : result unit :=
  if is_UNCHECKED 邊緣地位種類
     || str_in (描述_of 母 呼 等 類 韻 聲) 已知邊緣地位
  then Ok tt
  else
    let 邊緣地位指定集 := kinds_of 邊緣地位種類 in
    assert_condition (no_duplicates 邊緣地位指定集)
                     "duplicates in 邊緣地位種類" ;;;
    tests <- marginal_tests ;;
    let known_kinds := map (fun t => fst (fst (fst t))) tests in
    驗證_known_kinds known_kinds (kinds_of 邊緣地位種類) ;;;
    驗證_marginal_tests 邊緣地位指定集 tests.

(** 音韻地位.驗證. *)
Definition 驗證 (邊緣地位種類 : 邊緣地位種類指定) : result unit :=
  驗證_所有屬性 ;;;
  驗證_入聲 ;;;
  驗證_等母 等母搭配 ;;;
  驗證_等韻 等韻搭配 ;;;
  驗證_呼 ;;;
  驗證_類 ;;;
  驗證_脣音 ;;;
  驗證_莊組 ;;;
  驗證_邊緣地位 邊緣地位種類.

End 驗證.

Section 音韻地位.
Context {常 : 音韻屬性常量}.

(** 音韻地位.__init__: validate, then store the six attributes. *)
Definition 音韻地位__init__ (母 : str) (呼 : option str) (等 : str)
  (類 : option str) (韻 聲 : str) (邊緣地位種類 : option 邊緣地位種類指定)
  : result 音韻地位 :=
  驗證 母 呼 等 類 韻 聲 (or_empty_tuple 邊緣地位種類) ;;;
  Ok (Mk音韻地位 母 呼 等 類 韻 聲).

(** The properties 清濁, 音, 攝, 韻別 and 組. *)
Definition 清濁 (P : 音韻地位) : result str := dict_getitem 母到清濁 (母 P).
Definition 音 (P : 音韻地位) : result str := dict_getitem 母到音 (母 P).
Definition 攝 (P : 音韻地位) : result str := dict_getitem 韻到攝 (韻 P).
Definition 組 (P : 音韻地位) : result (option str) :=
  dict_getitem 母到組 (母 P).
Definition 韻別 (P : 音韻地位) : str :=
  if str_eqb (聲 P) "入" then "入"
  else if str_in (韻 P) 陰聲韻 then "陰" else "陽".

(** The property 韻圖等. *)
Definition 韻圖等 (P : 音韻地位) : str :=
  if str_contains "莊初崇生俟" (母 P) then "二"
  else if opt_str_eqb (類 P) "A"
          || (str_eqb (等 P) "三" && str_contains "精清從心邪以" (母 P))
  then "四"
  else 等 P.

End 音韻地位.

(* ===================================================================== *)
(** ** Python values passed to 屬於 and 判斷 *)
(* ===================================================================== *)

(** The dynamically typed arguments of 屬於 ([*參數: object]) and the
    rows of 判斷.  A zero-argument callable is given by what calling it
    does: return a value or raise. *)
Inductive pyobj :=
| PyNone
| PyBool (b : bool)
| PyInt (z : Z)
| PyStr (s : str)
| PyList (items : list pyobj)
| PyTuple (items : list pyobj)
| PyCallable (call : result pyobj).

(** [bool(x)]. *)
Definition truthy (x : pyobj) : bool :=
  match x with
  | PyNone => false
  | PyBool b => b
  | PyInt z => negb (z =? 0)%Z
  | PyStr s => negb (str_eqb s "")
  | PyList l => match l with [] => false | _ => true end
  | PyTuple l => match l with [] => false | _ => true end
  | PyCallable _ => true
  end.

(* ===================================================================== *)
(** ** The expression language of 屬於 *)
(* ===================================================================== *)

(** [ch.isspace()] for one code point. *)
Definition isspace (c : char) : bool :=
  ((9 <=? c) && (c <=? 13) || (28 <=? c) && (c <=? 32) || (c =? 133)
   || (c =? 160) || (c =? 5760) || (8192 <=? c) && (c <=? 8202)
   || (c =? 8232) || (c =? 8233) || (c =? 8239) || (c =? 8287)
   || (c =? 12288))%N.

(** [segment.replace("（", "(").replace("）", ")")]. *)
Definition normalize_parens (segment : str) : str :=
  map (fun c => if (c =? 65288)%N then 40%N
                else if (c =? 65289)%N then 41%N else c) segment.

(** [while j < len(normalized) and normalized[j] == ch: j += 1]. *)
Fixpoint take_run (ch : char) (s : str) : str * str :=
  match s with
  | c :: r => if (c =? ch)%N then let '(run, rest) := take_run ch r in
                                 (c :: run, rest)
              else ([], s)
  | [] => ([], [])
  end.

Definition is_word_char (c : char) : bool :=
  negb (isspace c) && negb (str_contains "()!~&|" [c]).

(** [while i < len(normalized) and not normalized[i].isspace()
       and normalized[i] not in "()!~&|": i += 1]. *)
Fixpoint take_word (s : str) : str * str :=
  match s with
  | c :: r => if is_word_char c then let '(w, rest) := take_word r in
                                    (c :: w, rest)
              else ([], s)
  | [] => ([], [])
  end.

(** The scanning loop of [_tokenize]; every round consumes a character,
    so [length normalized] rounds are enough. *)
Fixpoint _tokenize_loop (fuel : nat) (s : str) : list str :=
  match fuel with
  | O => []
  | S fuel' =>
    match s with
    | [] => []
    | ch :: rest =>
      if isspace ch then _tokenize_loop fuel' rest
      else if str_contains "()!~" [ch] then [ch] :: _tokenize_loop fuel' rest
      else if str_contains "&|" [ch] then
        let '(run, rest') := take_run ch s in
        run :: _tokenize_loop fuel' rest'
      else
        let '(word, rest') := take_word s in
        word :: _tokenize_loop fuel' rest'
    end
  end.

Definition _tokenize (segment : str) : list str :=
  let normalized := normalize_parens segment in
  _tokenize_loop (length normalized) normalized.

(** The operator markers ["("], [")"], ["and"], ["or"], ["not"]. *)
Inductive marker := LPAREN | RPAREN | AND | OR | NOT.

(** [raw.lower()], as far as the comparisons with "not", "and" and "or"
    can tell: only the ASCII capitals lowercase to ASCII letters n, o, t,
    a, d, r. *)
Definition lower (s : str) : str :=
  map (fun c => if ((65 <=? c) && (c <=? 90))%N then (c + 32)%N else c) s.

(** [set(raw) == {ch}]. *)
Definition set_is (raw : str) (ch : char) : bool :=
  match raw with
  | [] => false
  | _ => forallb (fun c => (c =? ch)%N) raw
  end.

(** [_classify_token]: a marker, or the raw text itself. *)
Definition _classify_token (raw : str) : marker + str :=
  let lowered := lower raw in
  if str_eqb raw "(" then inl LPAREN
  else if str_eqb raw ")" then inl RPAREN
  else if str_in raw ["!" : str; "~" : str; "非" : str]
          || str_eqb lowered "not" then inl NOT
  else if str_in raw ["且" : str] || str_eqb lowered "and" || set_is raw 38%N
  then inl AND
  else if str_in raw ["或" : str] || str_eqb lowered "or" || set_is raw 124%N
  then inl OR
  else if str_eqb raw "&&" then inl AND
  else if str_eqb raw "||" then inl OR
  else inr raw.

Fixpoint lstrip (s : str) : str :=
  match s with
  | c :: r => if isspace c then lstrip r else s
  | [] => []
  end.

(** [token.strip()]. *)
Definition strip (s : str) : str := rev (lstrip (rev (lstrip s))).

(** Splits [values ++ [key]] for the pattern [^(.+?)([母等類韻音攝組聲])$]:
    at least one character other than a newline, then one key
    character. *)
Definition match_values_key (token : str) : option (str * str) :=
  match rev token with
  | key :: ((_ :: _) as rvalues) =>
    if str_contains "母等類韻音攝組聲" [key]
       && forallb (fun c => negb (c =? 10)%N) rvalues
    then Some (rev rvalues, [key])
    else None
  | _ => None
  end.

(** [", ".join(invalid)]. *)
Fixpoint join_comma (l : list str) : str :=
  match l with
  | [] => ""
  | [x] => x
  | x :: r => x ++ ", " ++ join_comma r
  end.

(** The object of a token: a marker, an already evaluated predicate, a
    LazyParameter (given by its deferred callable), or the sentinel
    ["end"]. *)
Inductive token_object :=
| MARK (m : marker)
| BOOL (b : bool)
| LAZY (_inner : result pyobj)
| END.

Definition token := (token_object * str)%type.

Definition end_token : token := (END, "end of expression" : str).

(** The tree built by [parse_or]; [ENone] is a [None] operand. *)
Inductive expr :=
| EBool (b : bool)
| ELazy (_inner : result pyobj)
| ENot (operand : expr)
| EAnd (operands : list expr)
| EOr (operands : list expr)
| ENone.

Definition is_mark (m : marker) (t : token_object) : bool :=
  match t, m with
  | MARK LPAREN, LPAREN | MARK RPAREN, RPAREN | MARK AND, AND
  | MARK OR, OR | MARK NOT, NOT => true
  | _, _ => false
  end.

(** [peek] and [read] over the tokens from the cursor on. *)
Definition peek (ts : list token) : token :=
  match ts with
  | t :: _ => t
  | [] => end_token
  end.

Definition read (ts : list token) : token * list token :=
  match ts with
  | t :: rest => (t, rest)
  | [] => (end_token, [])
  end.

(** The leading loop of [parse_not]: consumes the [not] tokens and
    returns [(negate, seen_not)] with the remaining tokens. *)
Fixpoint skip_nots (negate seen_not : bool) (ts : list token)
  : bool * bool * list token :=
  match ts with
  | (MARK NOT, _) :: rest => skip_nots (negb negate) true rest
  | _ => (negate, seen_not, ts)
  end.

Definition or_ENone (e : option expr) : expr :=
  match e with
  | Some x => x
  | None => ENone
  end.

Definition out_of_fuel {A} : result A := Raise (RuntimeError "out of fuel").

(** The recursive-descent parser of 屬於.  Each call spends one unit of
    [fuel]; [3 * len(tokens) + 3] units are never used up (lemma
    [parse_or_fuel]). *)
Fixpoint parse_or (fuel : nat) (required : bool) (ts : list token)
  {struct fuel} : result (option expr * list token) :=
  match fuel with
  | O => out_of_fuel
  | S fuel' =>
    r <- parse_and fuel' required ts ;;
    match r with
    | (None, ts1) => Ok (None, ts1)
    | (Some first, ts1) =>
      r' <- parse_or_loop fuel' [first] ts1 ;;
      let '(operands, ts2) := r' in
      match operands with
      | [single] => Ok (Some single, ts2)
      | _ => Ok (Some (EOr operands), ts2)
      end
    end
  end
with parse_or_loop (fuel : nat) (operands : list expr) (ts : list token)
  {struct fuel} : result (list expr * list token) :=
  match fuel with
  | O => out_of_fuel
  | S fuel' =>
    if is_mark OR (fst (peek ts)) then
      r <- parse_and fuel' true (snd (read ts)) ;;
      let '(operand, ts1) := r in
      parse_or_loop fuel' (operands ++ [or_ENone operand]) ts1
    else Ok (operands, ts)
  end
with parse_and (fuel : nat) (required : bool) (ts : list token)
  {struct fuel} : result (option expr * list token) :=
  match fuel with
  | O => out_of_fuel
  | S fuel' =>
    r <- parse_not fuel' required ts ;;
    match r with
    | (None, ts1) => Ok (None, ts1)
    | (Some first, ts1) =>
      r' <- parse_and_loop fuel' [first] ts1 ;;
      let '(operands, ts2) := r' in
      match operands with
      | [single] => Ok (Some single, ts2)
      | _ => Ok (Some (EAnd operands), ts2)
      end
    end
  end
with parse_and_loop (fuel : nat) (operands : list expr) (ts : list token)
  {struct fuel} : result (list expr * list token) :=
  match fuel with
  | O => out_of_fuel
  | S fuel' =>
    if is_mark AND (fst (peek ts)) then
      r <- parse_not fuel' true (snd (read ts)) ;;
      let '(operand, ts1) := r in
      parse_and_loop fuel' (operands ++ [or_ENone operand]) ts1
    else
      r <- parse_not fuel' false ts ;;
      match r with
      | (None, ts1) => Ok (operands, ts1)
      | (Some next_operand, ts1) =>
        parse_and_loop fuel' (operands ++ [next_operand]) ts1
      end
  end
with parse_not (fuel : nat) (required : bool) (ts : list token)
  {struct fuel} : result (option expr * list token) :=
  match fuel with
  | O => out_of_fuel
  | S fuel' =>
    let '(negate, seen_not, ts0) := skip_nots false false ts in
    let '(tok, raw) := peek ts0 in
    r <- match tok with
         | BOOL b => Ok (Some (EBool b), snd (read ts0))
         | LAZY f => Ok (Some (ELazy f), snd (read ts0))
         | MARK LPAREN =>
           r1 <- parse_or fuel' true (snd (read ts0)) ;;
           let '(operand, ts1) := r1 in
           let '((closing, closing_raw), ts2) := read ts1 in
           if is_mark RPAREN closing then Ok (operand, ts2)
           else Raise (ValueError ("expect ')', got: " ++ closing_raw))
         | _ =>
           if seen_not || required then
             let expected : str :=
               if seen_not then "operand or '('" else "expression" in
             Raise (ValueError ("expect " ++ expected ++ ", got: " ++ raw))
           else Ok (None, ts0)
         end ;;
    let '(operand, ts1) := r in
    if negate then Ok (Some (ENot (or_ENone operand)), ts1)
    else Ok (operand, ts1)
  end.

Section 屬於.
Context {常 : 音韻屬性常量}.
Variable self : 音韻地位.

(** 表達式屬性可取值 = {**所有, "音": ..., "攝": ..., "組": ...}; it is
    only looked up, and the later keys win. *)
Definition 表達式屬性可取值 : dict (list str) :=
  [("音" : str, list_ "脣舌齒牙喉");
   ("攝" : str, list_ "通江止遇蟹臻山效果假宕梗曾流深咸");
   ("組" : str, list_ "幫端知精莊章見影")]
  ++ 所有.

(** [_eval_token(obj, token)] with [obj = self]. *)
Definition _eval_token (token : str) : result bool :=
  let token := strip token in
  if str_eqb token "" then Ok true
  else if str_in token ["陰聲韻" : str; "陽聲韻" : str; "入聲韻" : str] then
    Ok (str_eqb (韻別 self) (firstn 1 token))
  else if str_eqb token "仄聲" then Ok (negb (str_eqb (聲 self) "平"))
  else if str_eqb token "舒聲" then Ok (negb (str_eqb (聲 self) "入"))
  else if str_in token ["開口" : str; "合口" : str] then
    Ok (match 呼 self with
        | Some h => str_eqb h (firstn 1 token)
        | None => false
        end)
  else if str_eqb token "開合中立" then
    Ok (match 呼 self with None => true | Some _ => false end)
  else if str_eqb token "不分類" then
    Ok (match 類 self with None => true | Some _ => false end)
  else if str_in token ["清音" : str; "濁音" : str] then
    v <- 清濁 self ;;
    Ok (endswith v (firstn 1 token))
  else if str_in token ["全清" : str; "全濁" : str; "次清" : str;
                        "次濁" : str] then
    v <- 清濁 self ;;
    Ok (str_eqb v token)
  else if str_eqb token "鈍音" then Ok (str_in (母 self) 鈍音母)
  else if str_eqb token "銳音" then Ok (negb (str_in (母 self) 鈍音母))
  else
    match match_values_key token with
    | Some (group1, key) =>
      let values := list_ group1 in
      match dict_get 表達式屬性可取值 key with
      | None => Raise (ValueError ("unknown key: " ++ key))
      | Some possible =>
        let invalid := filter (fun value => negb (str_in value possible))
                              values in
        match invalid with
        | _ :: _ =>
          Raise (ValueError ("unknown " ++ key ++ ": " ++ join_comma invalid))
        | [] =>
          v音 <- 音 self ;;
          v攝 <- 攝 self ;;
          v組 <- 組 self ;;
          let attr_map : dict (option str) :=
            [("母" : str, Some (母 self)); ("等" : str, Some (等 self));
             ("類" : str, 類 self); ("韻" : str, Some (韻 self));
             ("音" : str, Some v音); ("攝" : str, Some v攝);
             ("組" : str, v組); ("聲" : str, Some (聲 self))] in
          match dict_get attr_map key with
          | Some (Some value) => Ok (str_in value values)
          | _ => Ok false
          end
        end
      end
    | None => Raise (ValueError ("unrecognized test condition: " ++ token))
    end.

(** [eval_operand]; [all] and [any] stop at the first deciding operand.
    [LazyParameter.eval] is unfolded at [ELazy]: a string returned by the
    callable is evaluated by [屬於_str], any other value by [bool]. *)
Fixpoint eval_operand (屬於_str : str -> result bool) (operand : expr)
  : result bool :=
  match operand with
  | EBool b => Ok b
  | ELazy _inner =>
    value <- _inner ;;
    match value with
    | PyStr s => 屬於_str s
    | _ => Ok (truthy value)
    end
  | ENot x => b <- eval_operand 屬於_str x ;; Ok (negb b)
  | EAnd operands =>
    (fix all (items : list expr) : result bool :=
       match items with
       | [] => Ok true
       | item :: rest =>
         b <- eval_operand 屬於_str item ;;
         if b then all rest else Ok false
       end) operands
  | EOr operands =>
    (fix any (items : list expr) : result bool :=
       match items with
       | [] => Ok false
       | item :: rest =>
         b <- eval_operand 屬於_str item ;;
         if b then Ok true else any rest
       end) operands
  | ENone => Raise (ValueError "invalid expression tree")
  end.

(** [str(lazy)] for the value [LazyParameter.from_value] returned. *)
Definition str_of_token_object (t : token_object) : str :=
  match t with
  | BOOL true => "True"
  | BOOL false => "False"
  | _ => "<function>"
  end.

(** [LazyParameter.from_value(param, self)]. *)
Definition from_value (屬於_str : str -> result bool) (param : pyobj)
  : result token_object :=
  match param with
  | PyStr s => b <- 屬於_str s ;; Ok (BOOL b)
  | PyCallable f => Ok (LAZY f)
  | _ => Ok (BOOL (truthy param))
  end.

(** The tokens of one segment, left to right. *)
Fixpoint segment_tokens (raws : list str) : result (list token) :=
  match raws with
  | [] => Ok []
  | raw :: rest =>
    t <- match _classify_token raw with
         | inl m => Ok (MARK m, raw)
         | inr _ => b <- _eval_token raw ;; Ok (BOOL b, raw)
         end ;;
    ts <- segment_tokens rest ;;
    Ok (t :: ts)
  end.

(** The token-building loop of 屬於: segment [index] is followed by
    [參數[index]] when there is one. *)
Fixpoint build_tokens (屬於_str : str -> result bool) (segments : list str)
  (參數 : list pyobj) : result (list token) :=
  match segments with
  | [] => Ok []
  | segment :: rest =>
    ts <- segment_tokens (_tokenize segment) ;;
    match 參數 with
    | param :: 參數' =>
      lazy <- from_value 屬於_str param ;;
      ts' <- build_tokens 屬於_str rest 參數' ;;
      Ok (ts ++ (lazy, str_of_token_object lazy) :: ts')
    | [] =>
      ts' <- build_tokens 屬於_str rest [] ;;
      Ok (ts ++ ts')
    end
  end.

(** The body of 屬於, with the nested calls [self.屬於(string)] made by
    [from_value] and [LazyParameter.eval] abstracted as [屬於_str]. *)
Definition 屬於_body (屬於_str : str -> result bool) (segments : list str)
  (參數 : list pyobj) : result bool :=
  tokens <- build_tokens 屬於_str segments 參數 ;;
  match tokens with
  | [] => Raise (ValueError "empty expression")
  | _ :: _ =>
    r <- parse_or (3 * length tokens + 3) true tokens ;;
    let '(e, rest) := r in
    match fst (fst (read rest)) with
    | END =>  eval_operand 屬於_str (or_ENone e)
    | _ => Raise (ValueError "unexpected trailing tokens")
    end
  end.

(** [self.屬於(表達式)] for one string and no 參數.  Without 參數 no
    nested call is ever made. *)
Definition 屬於_str (表達式 : str) : result bool :=
  屬於_body (fun _ => Raise TypeError) [表達式] [].

(** [self.屬於(表達式, *參數)] for a sequence of segments; a nested call
    always passes one string and no 參數. *)
Definition 屬於 (表達式 : list str) (參數 : list pyobj) : result bool :=
  屬於_body 屬於_str 表達式 參數.

End 屬於.

Section 判斷.
Context {常 : 音韻屬性常量}.
Variable self : 音韻地位.

(** [isinstance(item, Sequence) and not isinstance(item, (str, bytes))
     and len(item) == 2]. *)
Definition is_pair_row (item : pyobj) : bool :=
  match item with
  | PyList [_; _] | PyTuple [_; _] => true
  | _ => false
  end.

(** The local function [is_rule_list] of 判斷. *)
Definition is_rule_list (obj : pyobj) : bool :=
  match obj with
  | PyList items | PyTuple items => forallb is_pair_row items
  | _ => false
  end.

(** The condition of a row: a callable is called first; a string is
    evaluated by 屬於 unless it is empty; anything else by [bool]. *)
Definition row_condition (表達式 : pyobj) : result bool :=
  表達式 <- match 表達式 with
            | PyCallable call => call
            | _ => Ok 表達式
            end ;;
  match 表達式 with
  | PyStr s => if truthy 表達式 then 屬於 self [s] [] else Ok false
  | _ => Ok (truthy 表達式)
  end.

Definition 規則需符合格式 {A} : result A := Raise (ValueError "規則需符合格式").

(** The local function [loop] of 判斷 on a rule list object; [None] is
    the sentinel [Exhaustion]. *)
Fixpoint loop (fall_through : bool) (rule_list : pyobj) {struct rule_list}
  : result (option pyobj) :=
  let on_row (表達式 結果 : pyobj) (nested : result (option pyobj))
             (continue : result (option pyobj)) : result (option pyobj) :=
    condition <- row_condition 表達式 ;;
    if condition then
      if is_rule_list 結果 then
        res <- nested ;;
        match res with
        | None => if fall_through then continue else Ok None
        | Some _ => Ok res
        end
      else Ok (Some 結果)
    else continue in
  match rule_list with
  | PyList rows | PyTuple rows =>
    (fix scan (rows : list pyobj) : result (option pyobj) :=
       match rows with
       | [] => Ok None
       | 規則項 :: rest =>
         match 規則項 with
         | PyList [表達式; 結果] | PyTuple [表達式; 結果] =>
           on_row 表達式 結果 (loop fall_through 結果) (scan rest)
         | PyStr [a; b] =>
           on_row (PyStr [a]) (PyStr [b]) (Ok None) (scan rest)
         | PyList _ | PyTuple _ | PyStr _ => 規則需符合格式
         | _ => Raise TypeError
         end
       end) rows
  | _ => Raise TypeError
  end.

(** The [throws] argument: a bool or a custom message. *)
Inductive throws_arg :=
| throws_bool (b : bool)
| throws_str (message : str).

(** 音韻地位.判斷. *)
Definition 判斷 (規則 : list pyobj) (throws : throws_arg)
  (fall_through : bool) : result pyobj :=
  result <- loop fall_through (PyList 規則) ;;
  match result with
  | None =>
    match throws with
    | throws_bool false => Ok PyNone
    | throws_bool true => Raise (ValueError "未涵蓋所有條件")
    | throws_str message => Raise (ValueError message)
    end
  | Some v => Ok v
  end.

End 判斷.

(* ===================================================================== *)
(** ** 壓縮表示.py *)
(* ===================================================================== *)

Definition 編碼表 : list str :=
  list_ "ABCDEFGHIJKLMNOPQRSTUVWXYZabcdefghijklmnopqrstuvwxyz0123456789$_".

Definition 韻序表 : list str :=
  list_ ("東＊冬鍾江支脂之微魚虞模齊祭泰佳皆夬灰咍廢真臻文殷元魂痕寒刪山先仙"
         ++ "蕭宵肴豪歌＊麻＊陽唐庚＊耕清青蒸登尤侯幽侵覃談鹽添咸銜嚴凡").

(** Decimal digits of a non-negative integer, for [f"{n}"]. *)
Fixpoint digits (fuel : nat) (n : N) (acc : str) : str :=
  match fuel with
  | O => acc
  | S fuel' =>
    let acc' := (48 + n mod 10)%N :: acc in
    if (n <? 10)%N then acc' else digits fuel' (n / 10)%N acc'
  end.

Definition str_of_Z (z : Z) : str :=
  if (z <? 0)%Z then "-" ++ digits 64 (Z.to_N (- z)) []
  else digits 64 (Z.to_N z) [].

Definition len {A} (l : list A) : Z := Z.of_nat (length l).

Section 壓縮表示.
Context {常 : 音韻屬性常量}.

(** The local function [_lookup_index] of decode音韻編碼. *)
Definition _lookup_index (char : str) : result Z :=
  idx <- (if str_in char 編碼表 then list_index 編碼表 char else Ok (-1)%Z) ;;
  assert_condition (negb (idx =? -1)%Z)
                   ("Invalid character in 編碼: '" ++ char ++ "'") ;;;
  Ok idx.

(** The loop over 等韻搭配.items() of decode音韻編碼; [None] when no
    bucket holds the rime. *)
Fixpoint decode_等 (items : dict (list str)) (母 韻 : str) (star : bool)
  : result (option str) :=
  match items with
  | [] => Ok None
  | (韻等, 各韻) :: rest =>
    if str_in 韻 各韻 then
      c <- getitem 韻等 (if star then 1 else 0)%Z ;;
      let 等 : str := [c] in
      if str_eqb 等 "三" && str_contains "端透定泥" 母
      then Ok (Some ("四" : str)) else Ok (Some 等)
    else decode_等 rest 母 韻 star
  end.

(** [所有[key][序 - 1] if 序 else None]. *)
Definition decode_optional (key : str) (序 : Z) : result (option str) :=
  if (序 =? 0)%Z then Ok None
  else l <- dict_getitem 所有 key ;; v <- getitem l (序 - 1)%Z ;; Ok (Some v).

(** decode音韻編碼. *)
Definition decode音韻編碼 (編碼 : str) : result 音韻地位 :=
  assert_condition (len 編碼 =? 3)%Z ("Invalid 編碼: '" ++ 編碼 ++ "'") ;;;
  match 編碼 with
  | [c0; c1; c2] =>
    母序 <- _lookup_index [c0] ;;
    韻序 <- _lookup_index [c1] ;;
    呼類聲序 <- _lookup_index [c2] ;;
    所有母 <- dict_getitem 所有 "母" ;;
    assert_condition (母序 <? len 所有母)%Z
                     ("Invalid 母序號: " ++ str_of_Z 母序) ;;;
    母 <- getitem 所有母 母序 ;;
    assert_condition (韻序 <? len 韻序表)%Z
                     ("Invalid 韻序號: " ++ str_of_Z 韻序) ;;;
    韻0 <- getitem 韻序表 韻序 ;;
    let star := str_eqb 韻0 "＊" in
    韻 <- (if star then getitem 韻序表 (韻序 - 1)%Z else Ok 韻0) ;;
    等 <- decode_等 等韻搭配 母 韻 star ;;
    match 等 with
    | None => Raise (ValueError ("Cannot resolve 等 for 韻: " ++ 韻))
    | Some 等 =>
      let 呼序 := Z.shiftr 呼類聲序 4 in
      所有呼 <- dict_getitem 所有 "呼" ;;
      assert_condition (呼序 <=? len 所有呼)%Z
                       ("Invalid 呼序號: " ++ str_of_Z 呼序) ;;;
      呼 <- decode_optional "呼" 呼序 ;;
      let 類序 := Z.land (Z.shiftr 呼類聲序 2) 3 in
      所有類 <- dict_getitem 所有 "類" ;;
      assert_condition (類序 <=? len 所有類)%Z
                       ("Invalid 類序號: " ++ str_of_Z 類序) ;;;
      類 <- decode_optional "類" 類序 ;;
      let 聲序 := Z.land 呼類聲序 3 in
      所有聲 <- dict_getitem 所有 "聲" ;;
      聲 <- getitem 所有聲 聲序 ;;
      音韻地位__init__ 母 呼 等 類 韻 聲 (Some _UNCHECKED)
    end
  | _ => Raise (ValueError ("Invalid 編碼: '" ++ 編碼 ++ "'"))
  end.

End 壓縮表示.

(* ===================================================================== *)
(** ** StringLogger.py and 反切.py *)
(* ===================================================================== *)

Record StringLogger := {
  enable : bool;
  _messages : list str
}.

(** StringLogger.log. *)
Definition log (message : str) (logger : StringLogger) : StringLogger :=
  if enable logger
  then {| enable := true; _messages := _messages logger ++ [message] |}
  else logger.

Definition 重紐韻 : list str := list_ "支脂祭真仙宵清侵鹽".

(** The dataclass 類data. *)
Record 類data := {
  data類 : option str;
  解釋 : option str
}.

(** [f"{x}"] for an optional string. *)
Definition fmt_opt (x : option str) : str :=
  match x with
  | Some s => s
  | None => "None"
  end.

(** Code that logs and may raise: the logger is threaded, and survives
    an exception. *)
Definition logged (A : Type) := StringLogger -> result A * StringLogger.

Definition ret {A} (a : A) : logged A := fun logger => (Ok a, logger).

Definition lift {A} (r : result A) : logged A := fun logger => (r, logger).

Definition bind_logged {A B} (c : logged A) (k : A -> logged B) : logged B :=
  fun logger =>
    match c logger with
    | (Ok a, logger') => k a logger'
    | (Raise e, logger') => (Raise e, logger')
    end.

(** [default_logger.log(message)]. *)
Definition logging (message : str) : logged unit :=
  fun logger => (Ok tt, log message logger).

Notation "x <~ c ;; k" := (bind_logged c (fun x => k))
  (at level 61, c at next level, right associativity).
Notation "c ;;~ k" := (bind_logged c (fun _ => k))
  (at level 61, right associativity).

Section 反切.
Context {常 : 音韻屬性常量}.

(** [x in d[key]] for one of the 搭配 tables. *)
Definition in_bucket (d : dict (list str)) (key x : str) : logged bool :=
  lift (l <- dict_getitem d key ;; Ok (str_in x l)).

(** generate呼. *)
Definition generate呼 (母 : str) (組 : option str) (韻 : str)
  (上字呼 下字呼 : option str) (下字組 : option str)
  : logged (list (option str)) :=
  中立 <~ (if opt_str_eqb 組 "幫" then ret true
           else in_bucket 呼韻搭配 "中立" 韻) ;;
  if 中立 then ret [None]
  else
    開 <~ in_bucket 呼韻搭配 "開" 韻 ;;
    if 開 then
      logging ("被切字為" ++ 韻 ++ "韻，" ++ 韻 ++ "韻為開口，故被切字為開口") ;;~
      ret [Some ("開" : str)]
    else
      合 <~ in_bucket 呼韻搭配 "合" 韻 ;;
      if 合 then
        logging ("被切字為" ++ 韻 ++ "韻，" ++ 韻 ++ "韻為合口，故被切字為合口") ;;~
        ret [Some ("合" : str)]
      else if str_eqb 母 "云" then
        logging "被切字為云母，云母為合口，故被切字為合口" ;;~
        ret [Some ("合" : str)]
      else if opt_str_eqb 上字呼 "開" && opt_str_eqb 下字呼 "開" then
        logging "反切上下字均為開口，故被切字為開口" ;;~
        ret [Some ("開" : str)]
      else if opt_str_eqb 下字呼 "合" then
        logging "反切下字為合口，故被切字為合口" ;;~
        ret [Some ("合" : str)]
      else if opt_str_eqb 上字呼 "合" && opt_str_eqb 下字組 "幫" then
        logging "反切上字為合口，下字為幫組，故被切字為合口" ;;~
        ret [Some ("合" : str)]
      else
        logging "無法確定被切字的呼，可能為開口或合口" ;;~
        ret (map Some (list_ "開合")).

Definition unreachable_等 {A} : logged A :=
  lift (Raise (RuntimeError "Unreachable state for 等推導")).

(** [a or b] on two bucket tests: the second is only looked up when the
    first is false. *)
Definition or_bucket (a b : logged bool) : logged bool :=
  x <~ a ;; if x then ret true else b.

(** generate等. *)
Definition generate等 (母 韻 上字等 下字等 : str) : logged (list str) :=
  一 <~ in_bucket 等韻搭配 "一" 韻 ;;
  if 一 then
    logging ("被切字為" ++ 韻 ++ "韻，" ++ 韻 ++ "韻為一等，故被切字為一等") ;;~
    ret ["一" : str]
  else
  二 <~ in_bucket 等韻搭配 "二" 韻 ;;
  if 二 then
    logging ("被切字為" ++ 韻 ++ "韻，" ++ 韻 ++ "韻為二等，故被切字為二等") ;;~
    ret ["二" : str]
  else
  三 <~ in_bucket 等韻搭配 "三" 韻 ;;
  if 三 then
    logging ("被切字為" ++ 韻 ++ "韻，" ++ 韻 ++ "韻為三等，故被切字為三等") ;;~
    ret ["三" : str]
  else
  四 <~ in_bucket 等韻搭配 "四" 韻 ;;
  if 四 then
    logging ("被切字為" ++ 韻 ++ "韻，" ++ 韻 ++ "韻為四等，故被切字為四等") ;;~
    ret ["四" : str]
  else if str_eqb 下字等 "三" then
    logging "反切下字為三等，故被切字為三等" ;;~
    ret ["三" : str]
  else if negb (str_eqb 上字等 "三") && negb (str_eqb 下字等 "三") then
    logging "反切上下字均非三等，故被切字非三等" ;;~
    一三 <~ in_bucket 等韻搭配 "一三" 韻 ;;
    if 一三 then
      logging ("被切字為" ++ 韻 ++ "韻，" ++ 韻
               ++ "韻為一等或三等，而被切字非三等，故被切字為一等") ;;~
      ret ["一" : str]
    else
      二三 <~ in_bucket 等韻搭配 "二三" 韻 ;;
      if 二三 then
        logging ("被切字為" ++ 韻 ++ "韻，" ++ 韻
                 ++ "韻為二等或三等，而被切字非三等，故被切字為二等") ;;~
        ret ["二" : str]
      else unreachable_等
  else
    一三 <~ in_bucket 等韻搭配 "一三" 韻 ;;
    if 一三 then
      logging ("被切字為" ++ 韻 ++ "韻，" ++ 韻
               ++ "韻為一等或三等，故被切字為一等或三等") ;;~
      only三 <~ or_bucket (in_bucket 等母搭配 "二三" 母)
                          (in_bucket 等母搭配 "三" 母) ;;
      if only三 then
        logging ("被切字為" ++ 母 ++ "母，" ++ 母
                 ++ "母不可能為一等，故被切字為三等") ;;~
        ret ["三" : str]
      else
        never三 <~ in_bucket 等母搭配 "一二四" 母 ;;
        if never三 then
          logging ("被切字為" ++ 母 ++ "母，" ++ 母
                   ++ "母不可能為三等，故被切字為一等") ;;~
          ret ["一" : str]
        else
          logging "無法確定被切字的等，可能為一等或三等" ;;~
          ret (list_ "一三")
    else
      二三 <~ in_bucket 等韻搭配 "二三" 韻 ;;
      if 二三 then
        logging ("被切字為" ++ 韻 ++ "韻，" ++ 韻
                 ++ "韻為二等或三等，故被切字為二等或三等") ;;~
        only三 <~ or_bucket (in_bucket 等母搭配 "一三四" 母)
                            (in_bucket 等母搭配 "三" 母) ;;
        if only三 then
          logging ("被切字為" ++ 母 ++ "母，" ++ 母
                   ++ "母不可能為二等，故被切字為三等") ;;~
          ret ["三" : str]
        else
          never三 <~ in_bucket 等母搭配 "一二四" 母 ;;
          if never三 then
            logging ("被切字為" ++ 母 ++ "母，" ++ 母
                     ++ "母不可能為三等，故被切字為二等") ;;~
            ret ["二" : str]
          else
            logging "無法確定被切字的等，可能為二等或三等" ;;~
            ret (list_ "二三")
      else unreachable_等.

(** rawGenerate類. *)
Definition rawGenerate類 (下字音韻地位 : 音韻地位) (母 : str)
  (組 : option str) (韻 : str) (上字類 呼 : option str) (等 : str)
  : result 類data :=
  let 類data_ (類 : literal) (解釋 : literal) : result 類data :=
    Ok {| data類 := Some (類 : str); 解釋 := Some (解釋 : str) |} in
  if negb (str_eqb 等 "三") || negb (str_in 母 鈍音母) then
    Ok {| data類 := None; 解釋 := None |}
  else if str_eqb 韻 "幽" then
    if opt_str_eqb 組 "幫"
    then 類data_ "B" "被切字為幽韻，且為幫組，故被切字為 B 類"
    else 類data_ "A" "被切字為幽韻，且非幫組，故被切字為 A 類"
  else if str_eqb 韻 "蒸" then
    if opt_str_eqb 組 "幫" || opt_str_eqb 呼 "合"
    then 類data_ "B" "被切字為蒸韻，且為幫組或合口，故被切字為 B 類"
    else 類data_ "C" "被切字為蒸韻，且非幫組或合口，故被切字為 C 類"
  else if str_eqb 韻 "庚" then 類data_ "B" "被切字為庚韻，故被切字為 B 類"
  else if negb (str_in 韻 重紐韻)
  then 類data_ "C" "被切字非重紐韻，故被切字為 C 類"
  else if str_eqb 母 "云" then 類data_ "B" "被切字為云母，故被切字為 B 類"
  else if opt_str_eqb 上字類 "A"
  then 類data_ "A" "反切上字為 A 類，故被切字為 A 類"
  else if opt_str_eqb 上字類 "B"
  then 類data_ "B" "反切上字為 B 類，故被切字為 B 類"
  else
    a <- 屬於 下字音韻地位 ["A類 或 以母 或 精組" : str] [] ;;
    if a then 類data_ "A" "反切下字為 A 類、以母或精組，故被切字為 A 類"
    else
      b <- 屬於 下字音韻地位 ["B類 或 云母" : str] [] ;;
      if b then 類data_ "B" "反切下字為 B 類或云母，故被切字為 B 類"
      else 類data_ "AB" "無法確定被切字的類，可能為 A 類或 B 類".

(** What the loops of 執行反切 accumulate. *)
Record 反切狀態 := {
  results : list 音韻地位;
  條件_解釋 : list (str * option str);
  忽略 : list str
}.

(** [for 類 in 類列表]: a ValueError of the constructor is caught and
    recorded in 忽略; any other exception propagates. *)
Fixpoint 反切_類 (母 : str) (呼 : option str) (等 韻 聲 : str)
  (類列表 : list (option str)) (st : 反切狀態) : result 反切狀態 :=
  match 類列表 with
  | [] => Ok st
  | 類 :: rest =>
    match 音韻地位__init__ 母 呼 等 類 韻 聲 None with
    | Ok P =>
      反切_類 母 呼 等 韻 聲 rest
        {| results := results st ++ [P]; 條件_解釋 := 條件_解釋 st;
           忽略 := 忽略 st |}
    | Raise (ValueError exc) =>
      反切_類 母 呼 等 韻 聲 rest
        {| results := results st; 條件_解釋 := 條件_解釋 st;
           忽略 := 忽略 st ++
             ["忽略無效的音韻地位「" ++ 母 ++ or_empty 呼 ++ 等 ++ or_empty 類
              ++ 韻 ++ 聲 ++ "」，原因：" ++ exc] |}
    | Raise e => Raise e
    end
  end.

Section 執行反切.
Variables 上字音韻地位 下字音韻地位 : 音韻地位.
Variables (組_ : option str) (所有呼 : list (option str)) (所有等 : list str).

Let 母_ := 母 上字音韻地位.
Let 韻_ := 韻 下字音韻地位.
Let 聲_ := 聲 下字音韻地位.

(** [for 等 in 所有等], for one 呼. *)
Fixpoint 反切_等 (呼 : option str) (等s : list str) (st : 反切狀態)
  : result 反切狀態 :=
  match 等s with
  | [] => Ok st
  | 等 :: rest =>
    let 條件 : str :=
      if (1 <? length 所有呼)%nat && (1 <? length 所有等)%nat then
        "當呼為" ++ fmt_opt 呼 ++ "口、等為" ++ 等 ++ "等時，"
      else if (1 <? length 所有呼)%nat then "當呼為" ++ fmt_opt 呼 ++ "口時，"
      else if (1 <? length 所有等)%nat then "當等為" ++ 等 ++ "等時，"
      else "" in
    決策 <- rawGenerate類 下字音韻地位 母_ 組_ 韻_ (類 上字音韻地位) 呼 等 ;;
    let st1 := {| results := results st;
                  條件_解釋 := 條件_解釋 st ++ [(條件, 解釋 決策)];
                  忽略 := 忽略 st |} in
    let 類列表 := if opt_str_eqb (data類 決策) "AB"
                  then [Some ("A" : str); Some ("B" : str)]
                  else [data類 決策] in
    st2 <- 反切_類 母_ 呼 等 韻_ 聲_ 類列表 st1 ;;
    反切_等 呼 rest st2
  end.

(** [for 呼 in 所有呼]. *)
Fixpoint 反切_呼 (呼s : list (option str)) (st : 反切狀態)
  : result 反切狀態 :=
  match 呼s with
  | [] => Ok st
  | 呼 :: rest => st1 <- 反切_等 呼 所有等 st ;; 反切_呼 rest st1
  end.

End 執行反切.

Definition opt_str_eq (a b : option str) : bool :=
  match a, b with
  | None, None => true
  | Some x, Some y => str_eqb x y
  | _, _ => false
  end.

(** [len({解釋 for _, 解釋 in 條件_解釋}) == 1] for a non-empty list. *)
Definition 解釋_all_same (l : list (str * option str)) : bool :=
  match l with
  | [] => false
  | (_, first) :: rest => forallb (fun p => opt_str_eq (snd p) first) rest
  end.

Fixpoint log_all (messages : list str) : logged unit :=
  match messages with
  | [] => ret tt
  | m :: rest => logging m ;;~ log_all rest
  end.

(** 執行反切. *)
Definition 執行反切 (上字音韻地位 下字音韻地位 : 音韻地位)
  : logged (list 音韻地位) :=
  let 母_ := 母 上字音韻地位 in
  組_ <~ lift (組 上字音韻地位) ;;
  logging ("反切上字為" ++ 母_ ++ "母，故被切字為" ++ 母_ ++ "母") ;;~
  let 韻_ := 韻 下字音韻地位 in
  let 聲_ := 聲 下字音韻地位 in
  下字組 <~ lift (組 下字音韻地位) ;;
  logging ("反切下字為" ++ 韻_ ++ "韻" ++ 聲_ ++ "聲，故被切字為" ++ 韻_ ++ "韻"
           ++ 聲_ ++ "聲") ;;~
  所有呼 <~ generate呼 母_ 組_ 韻_ (呼 上字音韻地位) (呼 下字音韻地位) 下字組 ;;
  所有等 <~ generate等 母_ 韻_ (等 上字音韻地位) (等 下字音韻地位) ;;
  st <~ lift (反切_呼 上字音韻地位 下字音韻地位 組_ 所有呼 所有等 所有呼
                 {| results := []; 條件_解釋 := []; 忽略 := [] |}) ;;
  (match 條件_解釋 st with
   | [] => ret tt
   | (_, 唯一) :: _ =>
     if 解釋_all_same (條件_解釋 st) then
       match 唯一 with
       | Some ((_ :: _) as m) => logging m
       | _ => ret tt
       end
     else
       log_all (flat_map (fun p => match snd p with
                                   | Some ((_ :: _) as m) => [fst p ++ m]
                                   | _ => []
                                   end) (條件_解釋 st))
   end) ;;~
  log_all (忽略 st) ;;~
  ret (results st).

End 反切.

(* ===================================================================== *)
(** ** 韻鏡.py *)
(* ===================================================================== *)

Open Scope Z_scope.

Definition 轉呼 : list (option str) :=
  [None; None; None]
  ++ map Some (list_ "開合開合開開合開合開合開合開合開合開合開合開開開合開合開合開合開合開開開開合開合").

Definition 母2idx : list str :=
  list_ "幫滂並明端透定泥知徹澄孃見溪羣疑精清從心邪章昌船書常莊初崇生俟影曉匣云以來日".

Definition 母idx2右位 : list Z :=
  [1; 2; 3; 4; 5; 6; 7; 8; 5; 6; 7; 8; 9; 10; 11; 12; 13; 14; 15; 16; 17;
   13; 14; 15; 16; 17; 13; 14; 15; 16; 17; 18; 19; 20; 21; 21; 22; 23].

Definition 轉名稱列表 : list str := [
  "內轉第一" : str; "內轉第二" : str; "外轉第三" : str; "內轉第四" : str;
  "內轉第五" : str; "內轉第六" : str; "內轉第七" : str; "內轉第八" : str;
  "內轉第九" : str; "內轉第十" : str; "內轉第十一" : str; "內轉第十二" : str;
  "內轉第十三" : str; "外轉第十四" : str; "外轉第十五" : str;
  "外轉第十六" : str; "外轉第十七" : str; "外轉第十八" : str;
  "外轉第十九" : str; "外轉第二十" : str; "外轉第二十一" : str;
  "外轉第二十二" : str; "外轉第二十三" : str; "外轉第二十四" : str;
  "外轉第二十五" : str; "外轉第二十六" : str; "內轉第二十七" : str;
  "內轉第二十八" : str; "內轉第二十九" : str; "外轉第三十" : str;
  "內轉第三十一" : str; "內轉第三十二" : str; "外轉第三十三" : str;
  "外轉第三十四" : str; "外轉第三十五" : str; "外轉第三十六" : str;
  "內轉第三十七" : str; "內轉第三十八" : str; "外轉第三十九" : str;
  "外轉第四十" : str; "外轉第四十一" : str; "外轉第四十二" : str;
  "外轉第四十三" : str
].

Definition 聲lst : str := "平上去入".
Definition 等lst : str := "一二三四".
Definition 幫組母 : list str := list_ "幫滂並明".
Definition 喉音母 : list str := list_ "影曉匣".

(** The dataclass 韻鏡位置. *)
Record 韻鏡位置 := Mk韻鏡位置 {
  轉號 : Z;
  上位 : Z;
  右位 : Z
}.

(** [韻鏡位置(轉號, 上位, 右位)]: the generated constructor followed by
    [__post_init__]. *)
Definition 韻鏡位置__init__ (轉號 上位 右位 : Z) : result 韻鏡位置 :=
  if negb ((1 <=? 轉號) && (轉號 <=? 43))
  then Raise (ValueError "轉號必須在 1 到 43 之間")
  else if negb ((1 <=? 上位) && (上位 <=? 16))
  then Raise (ValueError "上位必須在 1 到 16 之間")
  else if negb ((1 <=? 右位) && (右位 <=? 23))
  then Raise (ValueError "右位必須在 1 到 23 之間")
  else Ok (Mk韻鏡位置 轉號 上位 右位).

(** [s[i]] on a [str], as a one-character string. *)
Definition str_getitem (s : str) (i : Z) : result str :=
  c <- getitem s i ;; Ok [c].

Definition invalid_韻鏡等 {A} : result A := Raise (ValueError "invalid 韻鏡等").

(** 轉號上位右位2韻. *)
Definition 轉號上位右位2韻 (轉號 上位 右位 : Z) : result str :=
  raw聲 <- str_getitem 聲lst ((上位 - 1) / 4) ;;
  let 韻鏡等 := ((上位 - 1) mod 4) + 1 in
  let is齒音 := (12 <? 右位) && (右位 <=? 17) in
  轉名稱 <- getitem 轉名稱列表 (轉號 - 1) ;;
  let 入 := str_eqb raw聲 "入" in
  let 去 := str_eqb raw聲 "去" in
  let r (x : literal) : result str := Ok (x : str) in
  match 轉號 with
  | 1 => r "東"
  | 2 => if 韻鏡等 =? 1 then r "冬" else r "鍾"
  | 3 => r "江"
  | 4 | 5 => r "支"
  | 6 | 7 => r "脂"
  | 8 => r "之"
  | 9 | 10 => if 入 then r "廢" else r "微"
  | 11 => r "魚"
  | 12 => if 韻鏡等 =? 1 then r "模" else r "虞"
  | 13 =>
    if 入 then r "夬"
    else if 韻鏡等 =? 1 then r "咍"
    else if 韻鏡等 =? 2 then r "皆"
    else if 韻鏡等 =? 4 then r "齊"
    else if 韻鏡等 =? 3 then (if 去 then r "祭" else r "咍")
    else Raise (ValueError ("invalid 韻鏡等 " ++ str_of_Z 韻鏡等))
  | 14 =>
    if 入 then r "夬"
    else if 韻鏡等 =? 1 then r "灰"
    else if 韻鏡等 =? 2 then r "皆"
    else if 韻鏡等 =? 4 then r "齊"
    else if (韻鏡等 =? 3) && 去 then r "祭"
    else Raise (ValueError ("invalid combination 轉 14 韻鏡三等" ++ raw聲
                            ++ "聲"))
  | 15 | 16 =>
    if 韻鏡等 =? 2 then r "佳"
    else if 去 && (韻鏡等 =? 1) then r "泰"
    else if 去 && (韻鏡等 =? 4) then r "祭"
    else Raise (ValueError "invalid 轉 15/16 combination")
  | 17 =>
    if 韻鏡等 =? 1 then r "痕"
    else if (韻鏡等 =? 3) || (韻鏡等 =? 4) then r "真"
    else if 韻鏡等 =? 2 then r "臻"
    else invalid_韻鏡等
  | 18 => if 韻鏡等 =? 1 then r "魂" else r "真"
  | 19 => r "殷"
  | 20 => r "文"
  | 21 | 22 =>
    if 韻鏡等 =? 3 then r "元"
    else if 韻鏡等 =? 4 then r "仙"
    else if 韻鏡等 =? 2 then (if 入 then r "刪" else r "山")
    else invalid_韻鏡等
  | 23 | 24 =>
    if 韻鏡等 =? 1 then r "寒"
    else if 韻鏡等 =? 3 then r "仙"
    else if 韻鏡等 =? 4 then r "先"
    else if 韻鏡等 =? 2 then (if 入 then r "山" else r "刪")
    else invalid_韻鏡等
  | 25 =>
    if 韻鏡等 =? 1 then r "豪"
    else if 韻鏡等 =? 2 then r "肴"
    else if 韻鏡等 =? 3 then r "宵"
    else if 韻鏡等 =? 4 then r "蕭"
    else invalid_韻鏡等
  | 26 => r "宵"
  | 27 | 28 => r "歌"
  | 29 | 30 => r "麻"
  | 31 | 32 => if 韻鏡等 =? 1 then r "唐" else r "陽"
  | 33 | 34 =>
    if (韻鏡等 =? 2) || (韻鏡等 =? 3) then r "庚"
    else if 韻鏡等 =? 4 then r "清"
    else invalid_韻鏡等
  | 35 =>
    if 韻鏡等 =? 2 then r "耕"
    else if 韻鏡等 =? 3 then r "清"
    else if 韻鏡等 =? 4 then r "青"
    else invalid_韻鏡等
  | 36 =>
    if 韻鏡等 =? 2 then r "耕"
    else if 韻鏡等 =? 4 then r "青"
    else invalid_韻鏡等
  | 37 =>
    if 韻鏡等 =? 1 then r "侯"
    else if (韻鏡等 =? 2) || (韻鏡等 =? 3) then r "尤"
    else if 韻鏡等 =? 4 then
      (if is齒音 || (右位 =? 21) then r "尤" else r "幽")
    else invalid_韻鏡等
  | 38 => r "侵"
  | 39 =>
    if 韻鏡等 =? 1 then r "覃"
    else if 韻鏡等 =? 2 then r "咸"
    else if 韻鏡等 =? 3 then r "鹽"
    else if 韻鏡等 =? 4 then r "添"
    else invalid_韻鏡等
  | 40 =>
    if 韻鏡等 =? 1 then r "談"
    else if 韻鏡等 =? 2 then r "銜"
    else if 韻鏡等 =? 3 then r "嚴"
    else if 韻鏡等 =? 4 then r "鹽"
    else invalid_韻鏡等
  | 41 => r "凡"
  | 42 | 43 => if 韻鏡等 =? 1 then r "登" else r "蒸"
  | _ => Raise (ValueError "未知轉號")
  end.

Section 韻鏡.
Context {常 : 音韻屬性常量}.

Section 韻鏡位置.
Variable self : 韻鏡位置.

(** The properties of a 韻鏡位置.  They are cached in the source, which
    cannot be observed: each is a function of the coordinate. *)
Definition 韻鏡等 : Z := ((上位 self - 1) mod 4) + 1.

Definition 韻鏡位置_韻 : result str :=
  轉號上位右位2韻 (轉號 self) (上位 self) (右位 self).

Definition 切韻等 : result str :=
  if (轉號 self =? 6) && (上位 self =? 12) && (右位 self =? 7)
  then Ok ("四" : str)
  else if (轉號 self =? 29) && (上位 self =? 4) && (右位 self =? 5)
  then Ok ("四" : str)
  else
    假四等 <- (if 韻鏡等 =? 4 then
                 韻 <- 韻鏡位置_韻 ;;
                 四 <- dict_getitem 等韻搭配 "四" ;;
                 Ok (negb (str_in 韻 四))
               else Ok false) ;;
    if 假四等 then Ok ("三" : str)
    else
      假二等 <- (if 韻鏡等 =? 2 then
                   韻 <- 韻鏡位置_韻 ;;
                   二 <- dict_getitem 等韻搭配 "二" ;;
                   二三 <- dict_getitem 等韻搭配 "二三" ;;
                   Ok (negb (str_in 韻 (二 ++ 二三)))
                 else Ok false) ;;
      if 假二等 then
        if (12 <? 右位 self) && (右位 self <=? 17) then Ok ("三" : str)
        else Raise (ValueError "假二等真三等必須為齒音")
      else if (轉號 self =? 33)
              && ((右位 self =? 16) && (韻鏡等 =? 2)
                  || (右位 self =? 14)
                     && ((上位 self =? 10) || (上位 self =? 14)))
      then Ok ("三" : str)
      else str_getitem 等lst (韻鏡等 - 1).

Definition 韻鏡位置_母 : result str :=
  if 右位 self <=? 4 then getitem 幫組母 (右位 self - 1)
  else if 右位 self <=? 8 then
    等 <- 切韻等 ;;
    let group : str :=
      if str_in 等 ["一" : str; "四" : str] then "端透定泥" else "知徹澄孃" in
    str_getitem group (右位 self - 5)
  else if 右位 self <=? 12 then str_getitem "見溪羣疑" (右位 self - 9)
  else if 右位 self <=? 17 then
    if (韻鏡等 =? 1) || (韻鏡等 =? 4)
    then str_getitem "精清從心邪" (右位 self - 13)
    else if 韻鏡等 =? 3 then str_getitem "章昌船書常" (右位 self - 13)
    else if 韻鏡等 =? 2 then str_getitem "莊初崇生俟" (右位 self - 13)
    else invalid_韻鏡等
  else if 右位 self <=? 20 then getitem 喉音母 (右位 self - 18)
  else if 右位 self =? 21 then
    if 韻鏡等 =? 3 then Ok ("云" : str) else Ok ("以" : str)
  else if 右位 self <=? 23 then str_getitem "來日" (右位 self - 22)
  else Raise (ValueError "invalid 右位").

Definition 韻鏡位置_呼 : result (option str) :=
  母 <- 韻鏡位置_母 ;;
  neutral <- (if str_in 母 幫組母 then Ok true
              else 韻 <- 韻鏡位置_韻 ;; Ok (str_contains "模侯尤" 韻)) ;;
  if neutral then Ok None
  else getitem 轉呼 (轉號 self - 1).

Definition 韻鏡位置_聲 : result str :=
  raw聲 <- str_getitem 聲lst ((上位 self - 1) / 4) ;;
  if existsb (Z.eqb (轉號 self)) [9; 10; 13; 14] && str_eqb raw聲 "入"
  then Ok ("去" : str)
  else Ok raw聲.

Definition 韻鏡位置_類 : result (option str) :=
  等 <- 切韻等 ;;
  not鈍音三等 <- (if negb (str_eqb 等 "三") then Ok true
                  else 母 <- 韻鏡位置_母 ;; Ok (negb (str_in 母 鈍音母))) ;;
  if not鈍音三等 then Ok None
  else
    韻 <- 韻鏡位置_韻 ;;
    母 <- 韻鏡位置_母 ;;
    if str_eqb 韻 "幽" then
      if str_in 母 幫組母
         || (轉號 self =? 37) && (上位 self =? 4) && (右位 self =? 10)
      then Ok (Some ("B" : str)) else Ok (Some ("A" : str))
    else if str_eqb 韻 "蒸" then
      合口 <- (if str_in 母 幫組母 then Ok true
               else 呼 <- 韻鏡位置_呼 ;; Ok (opt_str_eqb 呼 "合")) ;;
      if 合口 then Ok (Some ("B" : str)) else Ok (Some ("C" : str))
    else if negb (str_contains "支脂祭真仙宵清侵鹽庚幽" 韻)
    then Ok (Some ("C" : str))
    else if 韻鏡等 =? 4 then Ok (Some ("A" : str))
    else if 韻鏡等 =? 3 then Ok (Some ("B" : str))
    else Raise (ValueError "不可預期的類判定").

(** 韻鏡位置.to音韻地位; the arguments are evaluated left to right. *)
Definition to音韻地位 : result 音韻地位 :=
  母 <- 韻鏡位置_母 ;;
  呼 <- 韻鏡位置_呼 ;;
  等 <- 切韻等 ;;
  類 <- 韻鏡位置_類 ;;
  韻 <- 韻鏡位置_韻 ;;
  聲 <- 韻鏡位置_聲 ;;
  音韻地位__init__ 母 呼 等 類 韻 聲 None.

End 韻鏡位置.

(** _母類呼韻聲2轉號. *)
Definition _母類呼韻聲2轉號 (母 : str) (呼 類 : option str) (韻 聲 : str)
  (韻鏡等 : Z) : result Z :=
  let 呼 : option str :=
    match 呼 with
    | None =>
      let should_use合口 :=
        str_contains "微廢夬元寒歌" 韻
        || str_contains "佳皆" 韻 && str_eqb 聲 "去"
        || str_eqb 韻 "刪" && negb (str_eqb 聲 "入")
        || str_eqb 韻 "山" && str_eqb 聲 "入"
        || str_eqb 韻 "仙" && str_eqb 聲 "去" && opt_str_eqb 類 "B" in
      Some (if should_use合口 then "合" : str else "開" : str)
    | Some _ => 呼
    end in
  let 開 := opt_str_eqb 呼 "開" in
  let is_ (x : literal) := str_eqb 韻 x in
  let by呼 (a b : Z) : result Z := Ok (if 開 then a else b) in
  if is_ "東" then Ok 1
  else if is_ "冬" || is_ "鍾" then Ok 2
  else if is_ "江" then Ok 3
  else if is_ "支" then by呼 4 5
  else if is_ "脂" then by呼 6 7
  else if is_ "之" then Ok 8
  else if is_ "微" || is_ "廢" then by呼 9 10
  else if is_ "魚" then Ok 11
  else if is_ "虞" || is_ "模" then Ok 12
  else if is_ "齊" || is_ "夬" || is_ "皆" then by呼 13 14
  else if is_ "咍" then Ok 13
  else if is_ "灰" then Ok 14
  else if is_ "祭" then
    if 韻鏡等 =? 3 then by呼 13 14
    else if 韻鏡等 =? 4 then by呼 15 16
    else Raise (ValueError ("韻鏡等 " ++ str_of_Z 韻鏡等 ++ " invalid for 祭韻"))
  else if is_ "佳" || is_ "泰" then by呼 15 16
  else if is_ "痕" || is_ "臻" then Ok 17
  else if is_ "魂" then Ok 18
  else if is_ "真" then by呼 17 18
  else if is_ "殷" then Ok 19
  else if is_ "文" then Ok 20
  else if is_ "元" then by呼 21 22
  else if is_ "山" then
    if str_eqb 聲 "入" then by呼 23 24 else by呼 21 22
  else if is_ "刪" then
    if str_eqb 聲 "入" then by呼 21 22 else by呼 23 24
  else if is_ "仙" then
    if 韻鏡等 =? 3 then by呼 23 24
    else if (韻鏡等 =? 2) || (韻鏡等 =? 4) then by呼 21 22
    else Raise (ValueError "error")
  else if is_ "寒" || is_ "先" then by呼 23 24
  else if is_ "蕭" || is_ "肴" || is_ "豪" then Ok 25
  else if is_ "宵" then
    if opt_str_eqb 類 "A" || str_contains "精清從心邪以" 母
    then Ok 26 else Ok 25
  else if is_ "歌" then by呼 27 28
  else if is_ "麻" then by呼 29 30
  else if is_ "陽" || is_ "唐" then by呼 31 32
  else if is_ "庚" then by呼 33 34
  else if is_ "清" then
    if (韻鏡等 =? 3) && 開 then Ok 35
    else if 韻鏡等 =? 3 then Raise (ValueError "error: no 合口")
    else if 韻鏡等 =? 4 then by呼 33 34
    else Raise (ValueError "error")
  else if is_ "耕" || is_ "青" then by呼 35 36
  else if is_ "尤" || is_ "侯" || is_ "幽" then Ok 37
  else if is_ "侵" then Ok 38
  else if is_ "鹽" then
    if 韻鏡等 =? 3 then Ok 39
    else if 韻鏡等 =? 4 then Ok 40
    else Raise (ValueError ("韻鏡等 " ++ str_of_Z 韻鏡等 ++ " invalid for 鹽韻"))
  else if is_ "覃" || is_ "咸" || is_ "添" then Ok 39
  else if is_ "談" || is_ "銜" then Ok 40
  else if is_ "嚴" then
    if 韻鏡等 =? 3 then Ok 40
    else Raise (ValueError ("韻鏡等 " ++ str_of_Z 韻鏡等 ++ " invalid for 嚴韻"))
  else if is_ "凡" then Ok 41
  else if is_ "登" || is_ "蒸" then by呼 42 43
  else Raise (ValueError "未知韻種").

(** The local variable [韻鏡等] of 音韻地位2韻鏡位置 (the part under
    "calculate 韻鏡等"). *)
Definition 音韻地位_韻鏡等 (當前音韻地位 : 音韻地位) : result Z :=
  let 母 := 母 當前音韻地位 in
  let 等 := 等 當前音韻地位 in
  let 類 := 類 當前音韻地位 in
  let 韻 := 韻 當前音韻地位 in
  let need_add_one :=
    opt_str_eqb 類 "A"
    || str_contains "精清從心邪以" 母 && str_eqb 等 "三"
    || str_eqb 韻 "幽" in
  let need_minus_one := str_contains "莊初崇生俟" 母 && str_eqb 等 "三" in
  等idx <- str_index 等lst 等 ;;
  Ok (等idx + 1
      + (if need_add_one then 1 else if need_minus_one then -1 else 0)).

(** 音韻地位2韻鏡位置. *)
Definition 音韻地位2韻鏡位置 (當前音韻地位 : 音韻地位) : result 韻鏡位置 :=
  let 母 := 母 當前音韻地位 in
  let 呼 := 呼 當前音韻地位 in
  let 類 := 類 當前音韻地位 in
  let 韻 := 韻 當前音韻地位 in
  let 聲 := 聲 當前音韻地位 in
  韻鏡等 <- 音韻地位_韻鏡等 當前音韻地位 ;;
  轉號 <- _母類呼韻聲2轉號 母 呼 類 韻 聲 韻鏡等 ;;
  let need寄入 := str_contains "廢夬" 韻 in
  聲idx <- (if need寄入 then Ok 3 else str_index 聲lst 聲) ;;
  let 上位 := 聲idx * 4 + 韻鏡等 in
  母idx <- list_index 母2idx 母 ;;
  右位 <- getitem 母idx2右位 母idx ;;
  韻鏡位置__init__ 轉號 上位 右位.

End 韻鏡.
Close Scope Z_scope.

(* ===================================================================== *)
(** ** Notions used by the properties *)
(* ===================================================================== *)

Definition is_ValueError (e : exn) : bool :=
  match e with
  | ValueError _ => true
  | _ => false
  end.

(** A computation whose only possible exception is ValueError. *)
Definition only_ValueError {A} (r : result A) : Prop :=
  forall e, r = Raise e -> is_ValueError e = true.

Definition has_key {V} (d : dict V) (k : str) : bool :=
  match dict_get d k with
  | Some _ => true
  | None => false
  end.

(** The tables have every key the validator subscripts them with. *)
Definition 驗證_keys {常 : 音韻屬性常量} : bool :=
  forallb (has_key 所有)
          ["母" : str; "呼" : str; "等" : str; "類" : str; "韻" : str;
           "聲" : str]
  && forallb (has_key 呼韻搭配)
             ["中立" : str; "開" : str; "合" : str; "開合" : str]
  && has_key 等韻搭配 "四".

Ltac destruct_bind :=
  match goal with
  | |- context [bind ?c _] =>
    let E := fresh "E" in destruct c eqn:E; simpl
  end.

(** A row of a rule list that is a sequence, but not of exactly two
    items. *)
Definition malformed_row (row : pyobj) : Prop :=
  match row with
  | PyList items | PyTuple items => length items <> 2%nat
  | PyStr s => length s <> 2%nat
  | _ => False
  end.

(** A well-formed row that does not end the scan of [loop]: its condition
    is false, or it holds, the result is a nested rule list that is
    exhausted, and [fall_through] is set. *)
Definition passed_over {常 : 音韻屬性常量} (self : 音韻地位)
  (fall_through : bool) (row : pyobj) : Prop :=
  exists 表達式 結果,
    (row = PyList [表達式; 結果] \/ row = PyTuple [表達式; 結果])
    /\ (row_condition self 表達式 = Ok false
        \/ (row_condition self 表達式 = Ok true
            /\ is_rule_list 結果 = true
            /\ fall_through = true
            /\ loop self fall_through 結果 = Ok None)).

(** The candidates of 執行反切 for one 呼 and one 等 that the constructor
    accepts, in the order of 類列表, and the number of those it
    rejects. *)
Definition accepted_candidates {常 : 音韻屬性常量} (母 : str)
  (呼 : option str) (等 韻 聲 : str) (類列表 : list (option str))
  : list 音韻地位 :=
  flat_map (fun 類 => match 音韻地位__init__ 母 呼 等 類 韻 聲 None with
                      | Ok P => [P]
                      | Raise _ => []
                      end) 類列表.

Definition rejected_candidates {常 : 音韻屬性常量} (母 : str)
  (呼 : option str) (等 韻 聲 : str) (類列表 : list (option str)) : nat :=
  length (filter (fun 類 => raises (音韻地位__init__ 母 呼 等 類 韻 聲 None))
                 類列表).

(** An exception of 執行反切 that is raised outside the construction of a
    candidate: by a lookup of 組, by generate呼 or generate等, or by
    rawGenerate類. *)
Definition raised_outside_candidates {常 : 音韻屬性常量}
  (上字音韻地位 下字音韻地位 : 音韻地位) (e : exn) : Prop :=
  組 上字音韻地位 = Raise e
  \/ 組 下字音韻地位 = Raise e
  \/ (exists 組_ 下字組 logger,
         fst (generate呼 (母 上字音韻地位) 組_ (韻 下字音韻地位)
                         (呼 上字音韻地位) (呼 下字音韻地位) 下字組 logger)
         = Raise e)
  \/ (exists logger,
         fst (generate等 (母 上字音韻地位) (韻 下字音韻地位)
                         (等 上字音韻地位) (等 下字音韻地位) logger)
         = Raise e)
  \/ (exists 組_ 呼 等,
         rawGenerate類 下字音韻地位 (母 上字音韻地位) 組_ (韻 下字音韻地位)
                       (類 上字音韻地位) 呼 等
         = Raise e).

(* --------------------------------------------------------------------- *)
(** *** The round trip through 韻鏡 *)

(** [position.屬於("莊組 仙韻")] as test_韻鏡.py writes the documented
    exception set. *)
Definition 莊組仙韻 (P : 音韻地位) : bool :=
  str_contains "莊初崇生俟" (母 P) && str_eqb (韻 P) "仙".

(** What the round trip is expected to give: the position itself, or for
    the documented exception set the position with 等 二 and the rime 刪
    (入聲) or 山 (test_韻鏡.py: [position.調整(f"{rhyme}韻 二等")]). *)
Definition 還原目標 (P : 音韻地位) : 音韻地位 :=
  if 莊組仙韻 P then
    Mk音韻地位 (母 P) (呼 P) "二" (類 P)
               (if str_eqb (聲 P) "入" then "刪" else "山") (聲 P)
  else P.

(** [音韻地位2韻鏡位置(P).to音韻地位()]. *)
Definition round_trip {常 : 音韻屬性常量} (P : 音韻地位) : result 音韻地位 :=
  c <- 音韻地位2韻鏡位置 P ;; to音韻地位 c.

Definition round_trip_ok {常 : 音韻屬性常量} (P : 音韻地位) : bool :=
  match round_trip P with
  | Ok Q => 等於 Q (還原目標 P)
  | Raise _ => false
  end.

(** The positions accepted without marginal kinds that the chart cannot
    give back. *)
Definition 韻鏡例外 (P : 音韻地位) : bool :=
  let 母_is (x : literal) := str_eqb (母 P) x in
  let 韻_is (x : literal) := str_eqb (韻 P) x in
  let 聲_is (x : literal) := str_eqb (聲 P) x in
  let 三等 := str_eqb (等 P) "三" in
  let 莊組 := str_contains "莊初崇生俟" (母 P) in
  let 幫組 := str_contains "幫滂並明" (母 P) in
  let 精組以母 := str_contains "精清從心邪以" (母 P) in
  let 類_is_not (x : str) :=
    match 類 P with
    | Some c => negb (str_eqb c x)
    | None => false
    end in
  (* 1: a rime that only has 去聲, in another tone *)
  str_contains "祭泰夬廢" (韻 P) && negb (聲_is "去")
  (* 2: 莊組三等 where row 2 of the diagram is another rime or none *)
  || 莊組 && 三等 && str_contains "祭麻元嚴鹽宵幽" (韻 P)
  || 母_is "俟" && 韻_is "仙"
  (* 3: 庚韻莊組 is read as 三等 exactly at the 莊三化二 cells *)
  || 莊組 && 韻_is "庚"
     && xorb 三等 (opt_str_eqb (呼 P) "開"
                   && (母_is "生" || 母_is "初" && (聲_is "去" || 聲_is "入")))
  (* 4: 精組 and 以母 on row 4 of a diagram whose row 4 is 仙 or 鹽 *)
  || 精組以母 && 三等 && str_contains "元嚴" (韻 P)
  (* 5: 幽韻 in a 齒音 column or under 喻 is read as 尤韻 *)
  || 韻_is "幽" && str_contains "精清從心邪章昌常書船莊初崇生俟以云" (母 P)
  (* 6: a 類 other than the one the chart implies *)
  || 韻_is "幽"
     && 類_is_not (if 幫組 || 母_is "溪" && 聲_is "平" then "B" else "A")
  || 韻_is "蒸"
     && 類_is_not (if 幫組 || opt_str_eqb (呼 P) "合" then "B" else "C")
  || 韻_is "麻" && 類_is_not ""
  || 韻_is "陽" && opt_str_eqb (類 P) "A"
  (* 7: 清韻合口 on row 3 *)
  || 韻_is "清" && opt_str_eqb (呼 P) "合"
     && negb (opt_str_eqb (類 P) "A") && negb 精組以母
  (* 8: 已知邊緣地位 of 端組 that the chart reads as 知組 *)
  || str_in (描述 P)
       ["端開二庚上" : str; "端開二麻上" : str; "端開四麻上" : str;
        "定開二佳上" : str; "端四尤平" : str].

(** [None] and the members of a domain. *)
Definition optional (l : list str) : list (option str) := None :: map Some l.

(** 所有[屬性], empty when the key is missing. *)
Definition domain {常 : 音韻屬性常量} (屬性 : str) : list str :=
  match dict_get 所有 屬性 with
  | Some l => l
  | None => []
  end.

(** [f] holds of every attribute tuple over the domains that passes the
    checks of 驗證 on 等 and 母, 等 and 韻, 呼 and 類; the tuples that fail
    one of them are skipped as early as the attributes it reads are
    chosen. *)
Definition for_all_valid {常 : 音韻屬性常量} (f : 音韻地位 -> bool) : bool :=
  forallb (fun m => forallb (fun d =>
    if raises (驗證_等母 m None d None "" "" 等母搭配) then true else
    forallb (fun y =>
      if raises (驗證_等韻 m None d None y "" 等韻搭配) then true else
      forallb (fun h =>
        if raises (驗證_呼 m h d None y "") then true else
        forallb (fun l =>
          if raises (驗證_類 m h d l y "") then true else
          forallb (fun s => f (Mk音韻地位 m h d l y s)) (domain "聲"))
          (optional (domain "類")))
        (optional (domain "呼")))
      (domain "韻"))
    (domain "等"))
  (domain "母").

(** The exact extent of the round trip, as a check on one position:
    among the positions 驗證 passes when the marginal kinds are not
    checked, the round trip gives 還原目標 exactly for those that are
    accepted without marginal kinds and are no 韻鏡例外. *)
Definition round_trip_check {常 : 音韻屬性常量} (P : 音韻地位) : bool :=
  if raises (驗證 (母 P) (呼 P) (等 P) (類 P) (韻 P) (聲 P) _UNCHECKED)
  then true
  else
    Bool.eqb (round_trip_ok P)
             (negb (raises (驗證 (母 P) (呼 P) (等 P) (類 P) (韻 P) (聲 P)
                                 (as_tuple [])))
              && negb (韻鏡例外 P)).

(** What the parser returns when it has fuel enough: a ValueError, or an
    operand with the tokens left, which are fewer when there is an
    operand. *)
Definition parsed (ts : list token) (r : result (option expr * list token))
  : Prop :=
  match r with
  | Raise e => is_ValueError e = true
  | Ok (operand, rest) =>
    (length rest <= length ts)%nat
    /\ (operand <> None -> (length rest < length ts)%nat)
  end.

Definition parsed_loop (ts : list token) (r : result (list expr * list token))
  : Prop :=
  match r with
  | Raise e => is_ValueError e = true
  | Ok (_, rest) => (length rest <= length ts)%nat
  end.

(* ===================================================================== *)
(** ** 音韻地位.py: 簡略描述, 表達式, 字母, from描述 and 調整 *)
(* ===================================================================== *)

(** [not s] for a [str]. *)
Definition is_empty (s : str) : bool :=
  match s with
  | [] => true
  | _ :: _ => false
  end.

(** [v or None] for an optional string: the empty string is falsy. *)
Definition or_None (v : option str) : option str :=
  match v with
  | Some (_ :: _) => v
  | _ => None
  end.

(** A pattern that is a sequence of groups, each one character of a class,
    possibly optional ([([...]?)]), between [^] and [$].  The matcher
    backtracks as [re] does: an optional group first tries to take a
    character, and gives it up when the rest cannot match; [$] matches at
    the end and before a final newline.  The result lists the groups. *)
Fixpoint match_groups (groups : list (str * bool)) (s : str)
  : option (list str) :=
  match groups with
  | [] =>
    match s with
    | [] => Some []
    | [c] => if (c =? 10)%N then Some [] else None
    | _ => None
    end
  | (class, optional) :: rest =>
    let skip := if optional then option_map (cons []) (match_groups rest s)
                else None in
    match s with
    | c :: s' =>
      if existsb (N.eqb c) class then
        match match_groups rest s' with
        | Some gs => Some ([c] :: gs)
        | None => skip
        end
      else skip
    | [] => skip
    end
  end.

(** [s.split()]: the maximal runs of characters that are not white
    space; [word] holds the current run, reversed. *)
Fixpoint split_run (word : str) (s : str) : list str :=
  match s with
  | [] => match word with [] => [] | _ => [rev word] end
  | c :: r =>
    if isspace c then
      match word with
      | [] => split_run [] r
      | _ => rev word :: split_run [] r
      end
    else split_run (c :: word) r
  end.

Definition str_split (s : str) : list str := split_run [] s.

(** [re.match(r"^(.)([母口等類韻聲])$", token)]: [.] is any character but
    a newline. *)
Definition match_value_key (token : str) : option (str * str) :=
  let groups (v k : char) : option (str * str) :=
    if negb (v =? 10)%N && str_contains "母口等類韻聲" [k]
    then Some ([v], [k]) else None in
  match token with
  | [v; k] => groups v k
  | [v; k; nl] => if (nl =? 10)%N then groups v k else None
  | _ => None
  end.

(** The argument 調整屬性 of 調整: a string or a mapping. *)
Inductive 調整屬性指定 :=
| 調整_str (s : str)
| 調整_mapping (attrs : dict (option str)).

Section 音韻地位_更多.
Context {常 : 音韻屬性常量}.

(** The property 簡略描述. *)
Definition 簡略描述 (P : 音韻地位) : result str :=
  類_ <- match 類 P with
         | Some ((_ :: _) as c) =>
           p <- 類搭配 (母 P) (韻 P) ;;
           if str_eqb (fst p) c then Ok None else Ok (類 P)
         | _ => Ok (類 P)
         end ;;
  呼_ <- (if opt_str_eqb (呼 P) "合" && str_eqb (母 P) "云" then Ok None
          else match 呼 P with
               | Some ((_ :: _) as h) =>
                 各韻 <- dict_getitem 呼韻搭配 h ;;
                 if str_in (韻 P) 各韻 then Ok None else Ok (呼 P)
               | _ => Ok (呼 P)
               end) ;;
  等_ <- (if str_eqb (等 P) "三" && str_contains "羣邪俟" (母 P)
          then Ok ("" : str)
          else
            三 <- dict_getitem 等母搭配 "三" ;;
            if str_in (母 P) 三 then Ok ("" : str)
            else
              一三 <- dict_getitem 等韻搭配 "一三" ;;
              二三 <- dict_getitem 等韻搭配 "二三" ;;
              if negb (str_in (韻 P) (一三 ++ 二三)) then Ok ("" : str)
              else Ok (等 P)) ;;
  Ok (母 P ++ or_empty 呼_ ++ 等_ ++ or_empty 類_ ++ 韻 P ++ 聲 P).

(** The property 表達式. *)
Definition 表達式 (P : 音韻地位) : str :=
  let 呼字段 : str :=
    match 呼 P with
    | Some ((_ :: _) as h) => h ++ "口 "
    | _ => "開合中立 "
    end in
  let 類字段 : str :=
    match 類 P with
    | Some ((_ :: _) as c) => c ++ "類 "
    | _ => "不分類 "
    end in
  母 P ++ "母 " ++ 呼字段 ++ 等 P ++ "等 " ++ 類字段 ++ 韻 P ++ "韻 "
  ++ 聲 P ++ "聲".

(** The property 字母. *)
Definition 字母 (P : 音韻地位) : result str :=
  if str_eqb (等 P) "三" && opt_str_eqb (類 P) "C"
     && str_contains "幫滂並明" (母 P) then
    idx <- str_index "幫滂並明" (母 P) ;;
    str_getitem "非敷奉微" idx
  else if str_contains "莊初崇生俟章昌船書常" (母 P) then
    idx <- str_index "莊初崇生俟章昌船書常" (母 P) ;;
    str_getitem "照穿牀審禪" (idx mod 5)%Z
  else if str_in (母 P) ["云" : str; "以" : str] then Ok ("喻" : str)
  else Ok (母 P).

(** pattern描述: one character of 所有["母"], optionally one of each of
    所有["呼"], 所有["等"] and 所有["類"], then one of 所有["韻"] and one
    of 所有["聲"].  A class is the concatenation of the table's entries,
    which are taken not to contain a character that is special inside a
    character class. *)
Definition pattern描述 : result (list (str * bool)) :=
  母 <- dict_getitem 所有 "母" ;;
  呼 <- dict_getitem 所有 "呼" ;;
  等 <- dict_getitem 所有 "等" ;;
  類 <- dict_getitem 所有 "類" ;;
  韻 <- dict_getitem 所有 "韻" ;;
  聲 <- dict_getitem 所有 "聲" ;;
  Ok [(concat 母, false); (concat 呼, true); (concat 等, true);
      (concat 類, true); (concat 韻, false); (concat 聲, false)].

(** [for 等候選 in ("一", "二", "三", "四")] of from描述; the empty string
    when no bucket holds the rime. *)
Fixpoint from描述_等 (候選 : list str) (母 韻 : str) : str :=
  match 候選 with
  | [] => ""
  | 等候選 :: rest =>
    let 各韻 := match dict_get 等韻搭配 等候選 with
                | Some l => l
                | None => []
                end in
    if str_in 韻 各韻 then
      if str_eqb 等候選 "三" && str_contains "端透定泥" 母
      then "四" else 等候選
    else from描述_等 rest 母 韻
  end.

(** 音韻地位.from描述. *)
Definition from描述 (音韻描述 : str) (簡略描述 : bool)
  (邊緣地位種類 : option 邊緣地位種類指定) : result 音韻地位 :=
  pattern <- pattern描述 ;;
  match match_groups pattern 音韻描述 with
  | Some [母; 呼; 等; 類; 韻; 聲] =>
    let 呼 := or_None (Some 呼) in
    let 類 := or_None (Some 類) in
    if is_empty 等 && negb 簡略描述
    then Raise (ValueError "等 is required in 描述")
    else
      r <- (if 簡略描述 then
              呼 <- match 呼 with
                    | None =>
                      if negb (str_contains "幫滂並明" 母) then
                        云合 <- (if str_eqb 母 "云" then
                                   開合 <- dict_getitem 呼韻搭配 "開合" ;;
                                   Ok (str_in 韻 開合)
                                 else Ok false) ;;
                        if 云合 then Ok (Some ("合" : str))
                        else
                          開 <- dict_getitem 呼韻搭配 "開" ;;
                          if str_in 韻 開 then Ok (Some ("開" : str))
                          else
                            合 <- dict_getitem 呼韻搭配 "合" ;;
                            if str_in 韻 合 then Ok (Some ("合" : str))
                            else Ok None
                      else Ok None
                    | Some _ => Ok 呼
                    end ;;
              等 <- (if is_empty 等 then
                       三 <- dict_getitem 等母搭配 "三" ;;
                       if str_in 母 (三 ++ list_ "羣邪俟") then Ok ("三" : str)
                       else Ok (from描述_等 (list_ "一二三四") 母 韻)
                     else Ok 等) ;;
              類 <- match 類 with
                    | None =>
                      if str_eqb 等 "三" && str_in 母 鈍音母 then
                        p <- 類搭配 母 韻 ;;
                        if (length (fst p) =? 1)%nat then Ok (Some (fst p))
                        else Ok None
                      else Ok None
                    | Some _ => Ok 類
                    end ;;
              if is_empty 等 then Raise (ValueError "等 is required in 描述")
              else Ok (呼, 等, 類)
            else Ok (呼, 等, 類)) ;;
      let '(呼, 等, 類) := r in
      音韻地位__init__ 母 呼 等 類 韻 聲 (Some (or_empty_tuple 邊緣地位種類))
  | _ => Raise (ValueError ("invalid 描述: " ++ 音韻描述))
  end.

(** The local function [set_attr] of 調整, on the dictionary 屬性object. *)
Definition set_attr (屬性object : dict (option str)) (屬性 : str)
  (value : option str) : result (dict (option str)) :=
  assert_condition (negb (has_key 屬性object 屬性))
                   ("duplicated assignment of " ++ 屬性) ;;;
  Ok (屬性object ++ [(屬性, value)]).

(** [for token in 調整屬性.strip().split()]. *)
Fixpoint 調整_tokens (tokens : list str) (屬性object : dict (option str))
  : result (dict (option str)) :=
  match tokens with
  | [] => Ok 屬性object
  | token :: rest =>
    if str_eqb token "開合中立" then
      o <- set_attr 屬性object "呼" None ;; 調整_tokens rest o
    else if str_eqb token "不分類" then
      o <- set_attr 屬性object "類" None ;; 調整_tokens rest o
    else
      match match_value_key token with
      | None => Raise (ValueError ("unrecognized expression: " ++ token))
      | Some (value, key) =>
        o <- set_attr 屬性object (if str_eqb key "口" then "呼" else key)
                      (Some value) ;;
        調整_tokens rest o
      end
  end.

(** The first loop of 驗證 when an attribute that must be a string may be
    [None]; in the message such an attribute is printed as [None]. *)
Definition 驗證_所有屬性_None (母 呼 等 類 韻 聲 : option str) : result unit :=
  let check := 驗證_屬性 (fmt_opt 母) 呼 (fmt_opt 等) 類 (fmt_opt 韻)
                         (fmt_opt 聲) in
  check "母" 母 false ;;;
  check "呼" 呼 true ;;;
  check "等" 等 false ;;;
  check "類" 類 true ;;;
  check "韻" 韻 false ;;;
  check "聲" 聲 false.

(** 音韻地位.調整.  A mapping may give [None] for any attribute; the
    constructor then rejects a missing 母, 等, 韻 or 聲 in the first loop of
    驗證. *)
Definition 調整 (self : 音韻地位) (調整屬性 : 調整屬性指定)
  (邊緣地位種類 : option 邊緣地位種類指定) : result 音韻地位 :=
  attrs <- match 調整屬性 with
           | 調整_str s => 調整_tokens (str_split (strip s)) []
           | 調整_mapping attrs => Ok attrs
           end ;;
  let get (key : str) (default : option str) : option str :=
    match dict_get attrs key with
    | Some value => value
    | None => default
    end in
  let 母_ := get "母" (Some (母 self)) in
  let 呼_ := get "呼" (呼 self) in
  let 等_ := get "等" (Some (等 self)) in
  let 類_ := get "類" (類 self) in
  let 韻_ := get "韻" (Some (韻 self)) in
  let 聲_ := get "聲" (Some (聲 self)) in
  match 母_, 等_, 韻_, 聲_ with
  | Some 母, Some 等, Some 韻, Some 聲 =>
    音韻地位__init__ 母 呼_ 等 類_ 韻 聲 (Some (or_empty_tuple 邊緣地位種類))
  | _, _, _, _ =>
    驗證_所有屬性_None 母_ 呼_ 等_ 類_ 韻_ 聲_ ;;;
    Raise TypeError
  end.

End 音韻地位_更多.

(* ===================================================================== *)
(** ** 壓縮表示.py: encode音韻編碼 *)
(* ===================================================================== *)

Section encode.
Context {常 : 音韻屬性常量}.

(** [所有[key].index(v) + 1 if v is not None else 0]. *)
Definition encode_optional (key : str) (v : option str) : result Z :=
  match v with
  | Some x =>
    l <- dict_getitem 所有 key ;;
    i <- list_index l x ;;
    Ok (i + 1)%Z
  | None => Ok 0%Z
  end.

(** encode音韻編碼. *)
Definition encode音韻編碼 (地位 : 音韻地位) : result str :=
  所有母 <- dict_getitem 所有 "母" ;;
  母序 <- list_index 所有母 (母 地位) ;;
  韻序0 <- list_index 韻序表 (韻 地位) ;;
  let 韻序 :=
    (韻序0 + (if str_contains "東歌麻庚" (韻 地位)
                  && negb (str_in (等 地位) ["一" : str; "二" : str])
              then 1 else 0))%Z in
  呼序 <- encode_optional "呼" (呼 地位) ;;
  類序 <- encode_optional "類" (類 地位) ;;
  所有聲 <- dict_getitem 所有 "聲" ;;
  聲序 <- list_index 所有聲 (聲 地位) ;;
  let 呼類聲序 := Z.lor (Z.lor (Z.shiftl 呼序 4) (Z.shiftl 類序 2)) 聲序 in
  c0 <- getitem 編碼表 母序 ;;
  c1 <- getitem 編碼表 韻序 ;;
  c2 <- getitem 編碼表 呼類聲序 ;;
  Ok (c0 ++ c1 ++ c2).

End encode.


(* --------------------------------------------------------------------- *)
(** *** Notions for the further properties *)

(** Every entry of the list is a single character. *)
Definition single_chars (l : list str) : bool :=
  forallb (fun v => (length v =? 1)%nat) l.

(** No character of an entry of [a] occurs in an entry of [b]. *)
Definition disjoint_chars (a b : list str) : bool :=
  forallb (fun c => negb (existsb (N.eqb c) (concat b))) (concat a).

(** What pattern描述 needs of the tables to read a 描述 back. *)
Definition 描述_可解析 {常 : 音韻屬性常量} : bool :=
  forallb (fun 屬性 => has_key 所有 屬性 && single_chars (domain 屬性))
          ["母" : str; "呼" : str; "等" : str; "類" : str; "韻" : str;
           "聲" : str]
  && disjoint_chars (domain "等") (domain "呼")
  && disjoint_chars (domain "韻") (domain "類").


(** Equality of the six attributes. *)
Definition 音韻地位_eqb (P Q : 音韻地位) : bool :=
  str_eqb (母 P) (母 Q) && opt_str_eq (呼 P) (呼 Q) && str_eqb (等 P) (等 Q)
  && opt_str_eq (類 P) (類 Q) && str_eqb (韻 P) (韻 Q)
  && str_eqb (聲 P) (聲 Q).

(** [r] is [Ok P]. *)
Definition returns (r : result 音韻地位) (P : 音韻地位) : bool :=
  match r with
  | Ok Q => 音韻地位_eqb P Q
  | Raise _ => false
  end.

(** Checks on one position, for the tuples 驗證 passes when the marginal
    kinds are not checked: the code of the position decodes to it; its
    表達式 holds of it. *)
Definition encode_decode_check {常 : 音韻屬性常量} (P : 音韻地位) : bool :=
  if raises (驗證 (母 P) (呼 P) (等 P) (類 P) (韻 P) (聲 P) _UNCHECKED)
  then true
  else match encode音韻編碼 P with
       | Ok 編碼 => returns (decode音韻編碼 編碼) P
       | Raise _ => false
       end.

Definition 表達式_check {常 : 音韻屬性常量} (P : 音韻地位) : bool :=
  if raises (驗證 (母 P) (呼 P) (等 P) (類 P) (韻 P) (聲 P) _UNCHECKED)
  then true
  else match 屬於 P [表達式 P] [] with
       | Ok b => b
       | Raise _ => false
       end.

(** The same for the tuples accepted without marginal kinds: the
    簡略描述 is read back as the position. *)
Definition 簡略描述_check {常 : 音韻屬性常量} (P : 音韻地位) : bool :=
  if raises (驗證 (母 P) (呼 P) (等 P) (類 P) (韻 P) (聲 P) (as_tuple []))
  then true
  else match 簡略描述 P with
       | Ok s => returns (from描述 s true None) P
       | Raise _ => false
       end.


(** The indices 0, ..., n - 1. *)
Definition Zrange (n : nat) : list Z := map Z.of_nat (seq 0 n).

(** [r] is [Ok z]. *)
Definition returns_Z (r : result Z) (z : Z) : bool :=
  match r with
  | Ok x => (x =? z)%Z
  | Raise _ => false
  end.

(** The three digits of a code, one check each: what decode音韻編碼 reads
    from the digit is encoded by encode音韻編碼 as the same digit, and
    reading it raises nothing but ValueError. *)
Definition 母序_check {常 : 音韻屬性常量} (母序 : Z) : bool :=
  match dict_getitem 所有 "母" with
  | Ok 所有母 =>
    match getitem 所有母 母序 with
    | Ok 母 => returns_Z (list_index 所有母 母) 母序
    | Raise _ => true
    end
  | Raise _ => false
  end.

Definition 韻序_check {常 : 音韻屬性常量} (母 : str) (韻序 : Z) : bool :=
  if (韻序 <? len 韻序表)%Z then
    match getitem 韻序表 韻序 with
    | Ok 韻0 =>
      let star := str_eqb 韻0 "＊" in
      match (if star then getitem 韻序表 (韻序 - 1)%Z else Ok 韻0) with
      | Ok 韻 =>
        match decode_等 等韻搭配 母 韻 star with
        | Ok (Some 等) =>
          returns_Z
            (韻序0 <- list_index 韻序表 韻 ;;
             Ok (韻序0 + (if str_contains "東歌麻庚" 韻
                              && negb (str_in 等 ["一" : str; "二" : str])
                          then 1 else 0))%Z)
            韻序
        | Ok None => true
        | Raise _ => false
        end
      | Raise _ => false
      end
    | Raise _ => false
    end
  else true.

Definition 呼類聲序_check {常 : 音韻屬性常量} (呼類聲序 : Z) : bool :=
  let 呼序 := Z.shiftr 呼類聲序 4 in
  let 類序 := Z.land (Z.shiftr 呼類聲序 2) 3 in
  let 聲序 := Z.land 呼類聲序 3 in
  match dict_getitem 所有 "呼", dict_getitem 所有 "類", dict_getitem 所有 "聲"
  with
  | Ok 所有呼, Ok 所有類, Ok 所有聲 =>
    if (呼序 <=? len 所有呼)%Z then
      match decode_optional "呼" 呼序 with
      | Ok 呼 =>
        if (類序 <=? len 所有類)%Z then
          match decode_optional "類" 類序, getitem 所有聲 聲序 with
          | Ok 類, Ok 聲 =>
            returns_Z
              (呼序 <- encode_optional "呼" 呼 ;;
               類序 <- encode_optional "類" 類 ;;
               聲序 <- list_index 所有聲 聲 ;;
               Ok (Z.lor (Z.lor (Z.shiftl 呼序 4) (Z.shiftl 類序 2)) 聲序))
              呼類聲序
          | _, _ => false
          end
        else true
      | Raise _ => false
      end
    else true
  | _, _, _ => false
  end.

Definition 編碼_check {常 : 音韻屬性常量} : bool :=
  forallb 母序_check (Zrange 64)
  && forallb (fun 母 => forallb (韻序_check 母) (Zrange 64)) (domain "母")
  && forallb 呼類聲序_check (Zrange 64).


(** The kinds of [marginal_tests] whose condition holds of the tuple. *)
Definition 適用邊緣地位種類 {常 : 音韻屬性常量} (母 : str) (呼 : option str)
  (等 : str) (類 : option str) (韻 聲 : str) : list str :=
  match marginal_tests 母 呼 等 類 韻 with
  | Ok tests =>
    map (fun t : marginal_test => fst (fst (fst t)))
        (filter (fun t : marginal_test => snd (fst t)) tests)
  | Raise _ => []
  end.


(** An attribute value that is one character, not white space. *)
Definition attr_char (v : str) : bool :=
  match v with
  | [c] => negb (isspace c)
  | _ => false
  end.

Definition opt_attr_char (v : option str) : bool :=
  match v with
  | Some x => attr_char x
  | None => true
  end.

Definition 屬性_chars (P : 音韻地位) : bool :=
  attr_char (母 P) && opt_attr_char (呼 P) && attr_char (等 P)
  && opt_attr_char (類 P) && attr_char (韻 P) && attr_char (聲 P).

(** [" ".join(words)]. *)
Fixpoint join_space (words : list str) : str :=
  match words with
  | [] => ""
  | [w] => w
  | w :: rest => w ++ " " ++ join_space rest
  end.

(** A word: not empty, without white space. *)
Definition is_word (w : str) : bool :=
  negb (is_empty w) && forallb (fun c => negb (isspace c)) w.


(** What 判斷 does when the scan finds no result: [None], or the
    ValueError [throws] asks for. *)
Definition 未涵蓋 (throws : throws_arg) : result pyobj :=
  match throws with
  | throws_bool false => Ok PyNone
  | throws_bool true => Raise (ValueError "未涵蓋所有條件")
  | throws_str message => Raise (ValueError message)
  end.


(** A logging computation that only appends to the buffer of the logger,
    and appends nothing when the logger is disabled. *)
Definition only_appends {A} (c : logged A) : Prop :=
  forall logger, exists new,
    snd (c logger)
    = {| enable := enable logger; _messages := _messages logger ++ new |}
    /\ (enable logger = false -> new = []).

(** A candidate of a 反切: the initial of the upper character, the rime
    and the tone of the lower one, accepted by the constructor without
    marginal kinds. *)
Definition 被切字 {常 : 音韻屬性常量} (上字音韻地位 下字音韻地位 P : 音韻地位)
  : Prop :=
  母 P = 母 上字音韻地位 /\ 韻 P = 韻 下字音韻地位 /\ 聲 P = 聲 下字音韻地位
  /\ 音韻地位__init__ (母 P) (呼 P) (等 P) (類 P) (韻 P) (聲 P) None = Ok P.


(** The rime is in one of the six buckets of 等韻搭配. *)
Definition 等韻_covered {常 : 音韻屬性常量} (韻 : str) : bool :=
  existsb (fun 等 => match dict_get 等韻搭配 等 with
                     | Some 各韻 => str_in 韻 各韻
                     | None => false
                     end)
          ["一" : str; "二" : str; "三" : str; "四" : str; "一三" : str;
           "二三" : str].

(** The tables cover the inventory: every initial has a 組 and a 音,
    every rime a 攝 and a 等 bucket. *)
Definition 反切_tables {常 : 音韻屬性常量} : bool :=
  forallb (fun 母 => has_key 母到組 母 && has_key 母到音 母) (domain "母")
  && forallb (fun 韻 => has_key 韻到攝 韻 && 等韻_covered 韻) (domain "韻").


(** The characters of a string that are not white space. *)
Definition without_spaces (s : str) : str :=
  filter (fun c => negb (isspace c)) s.


(* ===================================================================== *)
(** ** utils.py: insert_into and prepend_values_into *)
(* ===================================================================== *)

(** [d[k] = v]: the value of a key that is present is replaced where it
    stands; a new key goes last. *)
Fixpoint dict_setitem {V} (d : dict V) (k : str) (v : V) : dict V :=
  match d with
  | [] => [(k, v)]
  | (k', v') :: r =>
    if str_eqb k' k then (k', v) :: r else (k', v') :: dict_setitem r k v
  end.

(** [d.setdefault(k, default)]: the value found, or [default] after it
    has been stored. *)
Definition dict_setdefault {V} (d : dict V) (k : str) (default : V)
  : V * dict V :=
  match dict_get d k with
  | Some v => (v, d)
  | None => (default, dict_setitem d k default)
  end.

(** [d.get(k, default)]. *)
Definition dict_get_default {V} (d : dict V) (k : str) (default : V) : V :=
  match dict_get d k with
  | Some v => v
  | None => default
  end.

Definition dict_keys {V} (d : dict V) : list str := map fst d.

(** insert_into.  The list that setdefault returns is the one the mapping
    holds, so appending to it changes the mapping's entry. *)
Definition insert_into {V} (map_obj : dict (list V)) (key : str) (value : V)
  : dict (list V) :=
  let '(l, map_obj) := dict_setdefault map_obj key [] in
  dict_setitem map_obj key (l ++ [value]).

(** prepend_values_into. *)
Definition prepend_values_into {V} (map_obj : dict (list V)) (key : str)
  (values : list V) : dict (list V) :=
  match dict_get map_obj key with
  | Some l => dict_setitem map_obj key (values ++ l)
  | None => dict_setitem map_obj key values
  end.

(** StringLogger.pop_all: the messages, and the logger with an empty
    buffer. *)
Definition pop_all (logger : StringLogger) : list str * StringLogger :=
  let result := _messages logger in
  (result, {| enable := enable logger; _messages := [] |}).

(* ===================================================================== *)
(** ** 資料.py *)
(* ===================================================================== *)

(** The dataclass 內部廣韻條目 of data/廣韻impl.py. *)
Module 內部廣韻條目.
Record t := Mk {
  字頭 : str;
  音韻編碼 : option str;
  反切 : option str;
  釋義 : str;
  小韻號 : str;
  韻目原貌 : str
}.
End 內部廣韻條目.

(** 來源類型 = 廣韻來源 | 王三來源; the field 文獻 is fixed by the class. *)
Inductive 來源類型 :=
| 廣韻來源 (小韻號 韻目 : str)
| 王三來源 (小韻號 韻目 : str).

Definition 文獻 (來源 : 來源類型) : str :=
  match 來源 with
  | 廣韻來源 _ _ => "廣韻"
  | 王三來源 _ _ => "王三"
  end.

Module 內部檢索結果.
Record t := Mk {
  字頭 : str;
  編碼 : str;
  反切 : option str;
  釋義 : str;
  來源 : option 來源類型
}.
End 內部檢索結果.

Module 檢索結果.
Record t := Mk {
  字頭 : str;
  音韻地位 : 音韻地位;
  反切 : option str;
  釋義 : str;
  來源 : option 來源類型
}.
End 檢索結果.

(** A list comprehension whose element expression may raise. *)
Fixpoint list_comprehension {A B} (f : A -> result B) (l : list A)
  : result (list B) :=
  match l with
  | [] => Ok []
  | a :: r => b <- f a ;; bs <- list_comprehension f r ;; Ok (b :: bs)
  end.

(** A generator [for a in l: yield f(a)], run to its end: the values
    yielded, and the exception that ended it, if one did. *)
Fixpoint generator {A B} (f : A -> result B) (l : list A)
  : list B * option exn :=
  match l with
  | [] => ([], None)
  | a :: r =>
    match f a with
    | Ok b => let '(bs, e) := generator f r in (b :: bs, e)
    | Raise e => ([], Some e)
    end
  end.

(** The two module-level indices. *)
Record 檢索 := {
  m字頭檢索 : dict (list 內部檢索結果.t);
  m音韻編碼檢索 : dict (list 內部檢索結果.t)
}.

Definition _clone來源 (來源 : option 來源類型) : option 來源類型 :=
  match 來源 with
  | None => None
  | Some (王三來源 小韻號 韻目) => Some (王三來源 小韻號 韻目)
  | Some (廣韻來源 小韻號 韻目) => Some (廣韻來源 小韻號 韻目)
  end.

(** The entries that _augment_早期廣韻外字 adds. *)
Definition 早期廣韻外字 : list (str * str * str * str * str * str) := [
  ("忘" : str, "明三C陽平" : str, "武方" : str, "遺又武放不記曰忘" : str,
   "797" : str, "陽" : str);
  ("韻" : str, "云合三B真去" : str, "爲捃" : str, "為捃反音和一" : str,
   "2420" : str, "震" : str)
].

Section 資料.
Context {常 : 音韻屬性常量}.

(** The table by原書小韻 of data/廣韻impl.py, read from the raw text of
    the book: original 小韻 number to entries, in the order of the book
    (its [values()] are the second components). *)
Variable by原書小韻 : list (Z * list 內部廣韻條目.t).

(** The body of the inner loop of _build_indices. *)
Definition _build_indices_條目 (st : 檢索) (條目 : 內部廣韻條目.t) : 檢索 :=
  match 內部廣韻條目.音韻編碼 條目 with
  | None => st
  | Some 音韻編碼 =>
    let 來源 := 廣韻來源 (內部廣韻條目.小韻號 條目)
                        (內部廣韻條目.韻目原貌 條目) in
    let 記錄 := 內部檢索結果.Mk (內部廣韻條目.字頭 條目) 音韻編碼
                  (內部廣韻條目.反切 條目) (內部廣韻條目.釋義 條目)
                  (Some 來源) in
    {| m字頭檢索 := insert_into (m字頭檢索 st) (內部廣韻條目.字頭 條目) 記錄;
       m音韻編碼檢索 := insert_into (m音韻編碼檢索 st) 音韻編碼 記錄 |}
  end.

(** The first loop of _augment_早期廣韻外字, over the entries left. *)
Fixpoint _augment_loop (entries : list (str * str * str * str * str * str))
  (by字頭 : dict (list 內部檢索結果.t))
  (m音韻編碼檢索 : dict (list 內部檢索結果.t))
  : result (dict (list 內部檢索結果.t) * dict (list 內部檢索結果.t)) :=
  match entries with
  | [] => Ok (by字頭, m音韻編碼檢索)
  | (字頭, 描述, 反切, 釋義, 小韻號, 韻目) :: rest =>
    地位 <- from描述 描述 false None ;;
    編碼 <- encode音韻編碼 地位 ;;
    let 記錄 := 內部檢索結果.Mk 字頭 編碼 (Some 反切) 釋義
                  (Some (王三來源 小韻號 韻目)) in
    _augment_loop rest (insert_into by字頭 字頭 記錄)
                  (insert_into m音韻編碼檢索 編碼 記錄)
  end.

Definition _augment_早期廣韻外字 (st : 檢索) : result 檢索 :=
  r <- _augment_loop 早期廣韻外字 [] (m音韻編碼檢索 st) ;;
  let '(by字頭, m音韻編碼檢索) := r in
  Ok {| m字頭檢索 :=
          fold_left (fun m item => prepend_values_into m (fst item) (snd item))
                    by字頭 (m字頭檢索 st);
        m音韻編碼檢索 := m音韻編碼檢索 |}.

Definition _build_indices (st : 檢索) : result 檢索 :=
  _augment_早期廣韻外字
    (fold_left (fun st 原書小韻 => fold_left _build_indices_條目 原書小韻 st)
               (map snd by原書小韻) st).

(** The indices once the module is loaded: both start empty and
    _build_indices runs once. *)
Definition 資料_loaded : result 檢索 :=
  _build_indices {| m字頭檢索 := []; m音韻編碼檢索 := [] |}.

Definition 結果from內部結果 (內部結果 : 內部檢索結果.t) : result 檢索結果.t :=
  地位 <- decode音韻編碼 (內部檢索結果.編碼 內部結果) ;;
  Ok (檢索結果.Mk (內部檢索結果.字頭 內部結果) 地位
        (內部檢索結果.反切 內部結果) (內部檢索結果.釋義 內部結果)
        (_clone來源 (內部檢索結果.來源 內部結果))).

Definition iter音韻地位 (st : 檢索) : list 音韻地位 * option exn :=
  generator decode音韻編碼 (dict_keys (m音韻編碼檢索 st)).

Definition query字頭 (st : 檢索) (字頭 : str) : result (list 檢索結果.t) :=
  list_comprehension 結果from內部結果
    (dict_get_default (m字頭檢索 st) 字頭 []).

Definition query音韻地位 (st : 檢索) (地位 : 音韻地位)
  : result (list 檢索結果.t) :=
  編碼 <- encode音韻編碼 地位 ;;
  list_comprehension 結果from內部結果
    (dict_get_default (m音韻編碼檢索 st) 編碼 []).

End 資料.


(** The keys of [ks] that are not in [seen], each once, in the order of
    their first occurrence. *)
Fixpoint new_keys (seen ks : list str) : list str :=
  match ks with
  | [] => []
  | k :: r => if str_in k seen then new_keys seen r
              else k :: new_keys (seen ++ [k]) r
  end.

(** The values paired with the key [k], in order. *)
Definition values_of {V} (k : str) (pairs : list (str * V)) : list V :=
  map snd (filter (fun p => str_eqb (fst p) k) pairs).


(** What the indices of 資料.py are stated with: the records of the
    book, in its order, those of the supplement, the result that a
    record gives for a position. *)
Definition 記錄_of_條目 (條目 : 內部廣韻條目.t) : list 內部檢索結果.t :=
  match 內部廣韻條目.音韻編碼 條目 with
  | None => []
  | Some 音韻編碼 =>
    [內部檢索結果.Mk (內部廣韻條目.字頭 條目) 音韻編碼
       (內部廣韻條目.反切 條目) (內部廣韻條目.釋義 條目)
       (Some (廣韻來源 (內部廣韻條目.小韻號 條目)
                       (內部廣韻條目.韻目原貌 條目)))]
  end.

Definition 廣韻記錄 (by原書小韻 : list (Z * list 內部廣韻條目.t))
  : list 內部檢索結果.t :=
  flat_map (flat_map 記錄_of_條目) (map snd by原書小韻).

Fixpoint 王三記錄 {常 : 音韻屬性常量}
  (entries : list (str * str * str * str * str * str))
  : result (list 內部檢索結果.t) :=
  match entries with
  | [] => Ok []
  | (字頭, 描述, 反切, 釋義, 小韻號, 韻目) :: rest =>
    地位 <- from描述 描述 false None ;;
    編碼 <- encode音韻編碼 地位 ;;
    記錄 <- 王三記錄 rest ;;
    Ok (內部檢索結果.Mk 字頭 編碼 (Some 反切) 釋義
          (Some (王三來源 小韻號 韻目)) :: 記錄)
  end.

Definition 結果_of (地位 : 音韻地位) (記錄 : 內部檢索結果.t) : 檢索結果.t :=
  檢索結果.Mk (內部檢索結果.字頭 記錄) 地位 (內部檢索結果.反切 記錄)
    (內部檢索結果.釋義 記錄) (內部檢索結果.來源 記錄).

Definition 字頭_is (字頭 : str) (記錄 : 內部檢索結果.t) : bool :=
  str_eqb (內部檢索結果.字頭 記錄) 字頭.

Definition 編碼_is (編碼 : str) (記錄 : 內部檢索結果.t) : bool :=
  str_eqb (內部檢索結果.編碼 記錄) 編碼.


(** The cells of the chart: the coordinates inside the bounds of
    韻鏡位置.__post_init__. *)
Definition 所有韻鏡位置 : list 韻鏡位置 :=
  flat_map (fun 轉號 =>
    flat_map (fun 上位 =>
      map (fun 右位 => Mk韻鏡位置 (1 + 轉號) (1 + 上位) (1 + 右位))
          (Zrange 23))
      (Zrange 16))
    (Zrange 43).

Definition Ok_or_ValueError {A} (r : result A) : bool :=
  match r with
  | Ok _ => true
  | Raise e => is_ValueError e
  end.

(** Checks on one cell: what its properties can raise; the column that
    母idx2右位 gives to its 母. *)
Definition 韻鏡位置_exceptions_check {常 : 音韻屬性常量} (self : 韻鏡位置)
  : bool :=
  Ok_or_ValueError (韻鏡位置_母 self) && Ok_or_ValueError (韻鏡位置_呼 self)
  && Ok_or_ValueError (切韻等 self) && Ok_or_ValueError (韻鏡位置_類 self)
  && Ok_or_ValueError (韻鏡位置_韻 self)
  && negb (raises (韻鏡位置_聲 self))
  && Ok_or_ValueError (to音韻地位 self).

Definition 韻鏡位置_右位_check {常 : 音韻屬性常量} (self : 韻鏡位置) : bool :=
  match 韻鏡位置_母 self with
  | Ok 母 =>
    match list_index 母2idx 母 with
    | Ok 母idx => returns_Z (getitem 母idx2右位 母idx) (右位 self)
    | Raise _ => false
    end
  | Raise _ => true
  end.


(** The tables of the derived attributes have an entry for every 母 and
    every 韻 of 所有. *)
Definition 屬性表_complete {常 : 音韻屬性常量} : bool :=
  forallb (fun 母 => has_key 母到清濁 母 && has_key 母到音 母
                     && has_key 母到組 母)
          (domain "母")
  && forallb (has_key 韻到攝) (domain "韻").

(* ===================================================================== *)
(** * Properties *)
(* ===================================================================== *)

Lemma str_eqb_refl (s : str) : str_eqb s s = true.
Proof.
  induction s as [|c s IH]; simpl; [reflexivity|].
  now rewrite N.eqb_refl.
Qed.

Lemma str_eqb_eq (a b : str) : str_eqb a b = true <-> a = b.
Proof.
  split.
  - revert b; induction a as [|x a IH]; intros [|y b]; simpl; try discriminate.
    + reflexivity.
    + intros H. apply andb_true_iff in H as [H1 H2].
      apply N.eqb_eq in H1. apply IH in H2. now subst.
  - intros ->. apply str_eqb_refl.
Qed.

Lemma str_in_In (x : str) (l : list str) : str_in x l = true <-> In x l.
Proof.
  unfold str_in. rewrite existsb_exists. split.
  - intros (y & Hy & E). apply str_eqb_eq in E. now subst.
  - intros H. exists x. split; [assumption|apply str_eqb_refl].
Qed.

Lemma bind_Ok {A B} (c : result A) (k : A -> result B) (b : B) :
  bind c k = Ok b -> exists a, c = Ok a /\ k a = Ok b.
Proof. destruct c; simpl; [eauto|discriminate]. Qed.

Lemma bind_Raise {A B} (c : result A) (k : A -> result B) (e : exn) :
  c = Raise e -> bind c k = Raise e.
Proof. now intros ->. Qed.

Lemma only_ValueError_bind {A B} (c : result A) (k : A -> result B) :
  only_ValueError c -> (forall a, only_ValueError (k a)) ->
  only_ValueError (bind c k).
Proof.
  intros Hc Hk e. destruct c as [a|e']; simpl.
  - apply Hk.
  - intros [= <-]. now apply Hc.
Qed.

Lemma only_ValueError_Ok {A} (a : A) : only_ValueError (Ok a).
Proof. intros e; discriminate. Qed.

Lemma only_ValueError_ValueError {A} (msg : str) :
  only_ValueError (@Raise A (ValueError msg)).
Proof. now intros e [= <-]. Qed.

Lemma only_ValueError_getitem {V} (d : dict V) (k : str) :
  has_key d k = true -> only_ValueError (dict_getitem d k).
Proof.
  unfold has_key, dict_getitem. destruct (dict_get d k); [|discriminate].
  intros _. apply only_ValueError_Ok.
Qed.

Ltac only_VE_step :=
  first
    [ apply only_ValueError_Ok
    | apply only_ValueError_ValueError
    | apply only_ValueError_getitem; assumption
    | apply only_ValueError_bind; [|intros ?]
    | match goal with
      | |- only_ValueError (if ?b then _ else _) => destruct b
      | |- only_ValueError (match ?x with _ => _ end) => destruct x
      | |- only_ValueError (let '(_, _) := ?x in _) => destruct x
      end ].

Ltac only_VE := unfold reject, assert_condition; repeat only_VE_step.

Section 驗證_exceptions.
Context {常 : 音韻屬性常量}.
Hypothesis keys : 驗證_keys = true.
Variables (母 : str) (呼 : option str) (等 : str) (類 : option str)
          (韻 聲 : str).

Lemma 驗證_keys_所有 (k : str) :
  In k ["母" : str; "呼" : str; "等" : str; "類" : str; "韻" : str;
        "聲" : str] -> has_key 所有 k = true.
Proof.
  intros H. unfold 驗證_keys in keys.
  apply andb_true_iff in keys as [K _]. apply andb_true_iff in K as [K _].
  rewrite forallb_forall in K. now apply K.
Qed.

Lemma 驗證_keys_呼韻搭配 (k : str) :
  In k ["中立" : str; "開" : str; "合" : str; "開合" : str] ->
  has_key 呼韻搭配 k = true.
Proof.
  intros H. unfold 驗證_keys in keys.
  apply andb_true_iff in keys as [K _]. apply andb_true_iff in K as [_ K].
  rewrite forallb_forall in K. now apply K.
Qed.

Lemma 驗證_keys_四 : has_key 等韻搭配 "四" = true.
Proof. unfold 驗證_keys in keys. now apply andb_true_iff in keys as [_ K]. Qed.

Lemma 驗證_屬性_only_ValueError (屬性 : str) (值 : option str) (nullable : bool) :
  has_key 所有 屬性 = true ->
  only_ValueError (驗證_屬性 母 呼 等 類 韻 聲 屬性 值 nullable).
Proof. intros H. unfold 驗證_屬性. only_VE. Qed.

Lemma 驗證_所有屬性_only_ValueError :
  only_ValueError (驗證_所有屬性 母 呼 等 類 韻 聲).
Proof.
  unfold 驗證_所有屬性.
  repeat (apply only_ValueError_bind; [|intros _]);
    apply 驗證_屬性_only_ValueError; apply 驗證_keys_所有; simpl; tauto.
Qed.

Lemma 驗證_等母_only_ValueError (items : dict (list str)) :
  only_ValueError (驗證_等母 母 呼 等 類 韻 聲 items).
Proof.
  induction items as [|[k v] items IH]; simpl; [apply only_ValueError_Ok|].
  destruct (_ && _); [apply only_ValueError_ValueError|exact IH].
Qed.

Lemma 驗證_等韻_only_ValueError (items : dict (list str)) :
  only_ValueError (驗證_等韻 母 呼 等 類 韻 聲 items).
Proof.
  induction items as [|[k v] items IH]; simpl; [apply only_ValueError_Ok|].
  destruct (str_in 韻 v); [|exact IH]. only_VE.
Qed.

Lemma 驗證_呼_only_ValueError : only_ValueError (驗證_呼 母 呼 等 類 韻 聲).
Proof.
  assert (K1 : has_key 呼韻搭配 "中立" = true)
    by (apply 驗證_keys_呼韻搭配; simpl; tauto).
  assert (K2 : has_key 呼韻搭配 "開" = true)
    by (apply 驗證_keys_呼韻搭配; simpl; tauto).
  assert (K3 : has_key 呼韻搭配 "合" = true)
    by (apply 驗證_keys_呼韻搭配; simpl; tauto).
  assert (K4 : has_key 呼韻搭配 "開合" = true)
    by (apply 驗證_keys_呼韻搭配; simpl; tauto).
  unfold 驗證_呼. only_VE.
Qed.

Lemma 類搭配_only_ValueError (m y : str) : only_ValueError (類搭配 m y).
Proof. unfold 類搭配. only_VE. Qed.

Lemma 驗證_類_only_ValueError : only_ValueError (驗證_類 母 呼 等 類 韻 聲).
Proof.
  unfold 驗證_類.
  destruct (negb (str_eqb 等 "三")); [only_VE|].
  destruct (negb (str_in 母 鈍音母)); [only_VE|].
  apply only_ValueError_bind; [apply 類搭配_only_ValueError|].
  intros [a b]. only_VE.
Qed.

Lemma 驗證_known_kinds_only_ValueError (known kinds : list str) :
  only_ValueError (驗證_known_kinds known kinds).
Proof.
  induction kinds as [|k kinds IH]; simpl; [apply only_ValueError_Ok|].
  destruct (negb _); [apply only_ValueError_ValueError|exact IH].
Qed.

Lemma 驗證_marginal_tests_only_ValueError (指定集 : list str)
  (tests : list marginal_test) :
  only_ValueError (驗證_marginal_tests 母 呼 等 類 韻 聲 指定集 tests).
Proof.
  induction tests as [|[[[kind strict] condition] errmsg] tests IH]; simpl;
    [apply only_ValueError_Ok|].
  apply only_ValueError_bind; [only_VE|intros _].
  apply only_ValueError_bind; [only_VE|intros _]. exact IH.
Qed.

Lemma 驗證_邊緣地位_only_ValueError (kinds : 邊緣地位種類指定) :
  only_ValueError (驗證_邊緣地位 母 呼 等 類 韻 聲 kinds).
Proof.
  pose proof 驗證_keys_四 as K.
  unfold 驗證_邊緣地位.
  destruct (_ || _); [apply only_ValueError_Ok|].
  apply only_ValueError_bind; [only_VE|intros _].
  apply only_ValueError_bind; [unfold marginal_tests; only_VE|intros tests].
  apply only_ValueError_bind;
    [apply 驗證_known_kinds_only_ValueError|intros _].
  apply 驗證_marginal_tests_only_ValueError.
Qed.

(** With the keys in place, every exception of 驗證 is a ValueError. *)
Lemma 驗證_only_ValueError (kinds : 邊緣地位種類指定) :
  only_ValueError (驗證 母 呼 等 類 韻 聲 kinds).
Proof.
  unfold 驗證.
  apply only_ValueError_bind; [apply 驗證_所有屬性_only_ValueError|intros _].
  apply only_ValueError_bind; [unfold 驗證_入聲; only_VE|intros _].
  apply only_ValueError_bind; [apply 驗證_等母_only_ValueError|intros _].
  apply only_ValueError_bind; [apply 驗證_等韻_only_ValueError|intros _].
  apply only_ValueError_bind; [apply 驗證_呼_only_ValueError|intros _].
  apply only_ValueError_bind; [apply 驗證_類_only_ValueError|intros _].
  apply only_ValueError_bind; [unfold 驗證_脣音; only_VE|intros _].
  apply only_ValueError_bind; [unfold 驗證_莊組; only_VE|intros _].
  apply 驗證_邊緣地位_only_ValueError.
Qed.

Lemma 音韻地位__init___only_ValueError (kinds : option 邊緣地位種類指定) :
  only_ValueError (音韻地位__init__ 母 呼 等 類 韻 聲 kinds).
Proof.
  unfold 音韻地位__init__.
  apply only_ValueError_bind; [apply 驗證_only_ValueError|intros _].
  apply only_ValueError_Ok.
Qed.

End 驗證_exceptions.

(* ===================================================================== *)
(** ** 韻鏡位置: the bounds of a coordinate *)
(* ===================================================================== *)

(** C9.  Constructing a 韻鏡位置 raises the out-of-range ValueError if
    and only if 轉號 is outside 1..43, 上位 outside 1..16 or 右位 outside
    1..23; inside the three inclusive bounds the construction succeeds and
    stores the triple. *)
Theorem coordinate_bounds (轉號 上位 右位 : Z) :
  let in_bounds := (1 <= 轉號 <= 43 /\ 1 <= 上位 <= 16 /\ 1 <= 右位 <= 23)%Z in
  ((exists msg, 韻鏡位置__init__ 轉號 上位 右位 = Raise (ValueError msg))
   <-> ~ in_bounds)
  /\ (in_bounds ->
      韻鏡位置__init__ 轉號 上位 右位 = Ok (Mk韻鏡位置 轉號 上位 右位)).
Proof.
  simpl. unfold 韻鏡位置__init__.
  destruct (1 <=? 轉號)%Z eqn:A1; destruct (轉號 <=? 43)%Z eqn:A2;
    destruct (1 <=? 上位)%Z eqn:B1; destruct (上位 <=? 16)%Z eqn:B2;
    destruct (1 <=? 右位)%Z eqn:C1; destruct (右位 <=? 23)%Z eqn:C2; simpl;
    repeat match goal with
           | H : (_ <=? _)%Z = true |- _ => apply Z.leb_le in H
           | H : (_ <=? _)%Z = false |- _ => apply Z.leb_gt in H
           end;
    (split; [split|]);
    try (intros [msg H]; discriminate);
    try (intros _; eexists; reflexivity);
    try (intros H; exfalso; lia);
    try lia; try reflexivity.
Qed.

Lemma coordinate_bounds_witness :
  韻鏡位置__init__ 43 16 23 = Ok (Mk韻鏡位置 43 16 23).
Proof. apply (proj2 (coordinate_bounds 43 16 23)). lia. Defined.

(* ===================================================================== *)
(** ** 驗證: labial initials and 呼 *)
(* ===================================================================== *)

Section 驗證_properties.
Context {常 : 音韻屬性常量}.
Hypothesis keys : 驗證_keys = true.

Lemma Raise_ValueError {A} (r : result A) (e : exn) :
  only_ValueError r -> r = Raise e -> exists msg, e = ValueError msg.
Proof.
  intros H E. specialize (H e E). destruct e; try discriminate. eauto.
Qed.

(** C8.  Whatever the other attributes and the declared kinds, the
    constructor raises a ValueError when 母 is one of 幫, 滂, 並, 明 and 呼
    is not None. *)
Theorem labial_rounding_rejected (母 h 等 : str) (類 : option str) (韻 聲 : str)
  (邊緣地位種類 : option 邊緣地位種類指定) :
  In 母 (list_ "幫滂並明") ->
  exists msg,
    音韻地位__init__ 母 (Some h) 等 類 韻 聲 邊緣地位種類
    = Raise (ValueError msg).
Proof.
  intros H母.
  assert (L : str_contains "幫滂並明" 母 = true).
  { simpl in H母. destruct H母 as [<-|[<-|[<-|[<-|[]]]]]; reflexivity. }
  destruct (音韻地位__init__ 母 (Some h) 等 類 韻 聲 邊緣地位種類) as [P|e] eqn:E.
  - exfalso. unfold 音韻地位__init__ in E.
    apply bind_Ok in E as (u & Hv & _). unfold 驗證 in Hv.
    repeat match type of Hv with
           | bind ?c _ = Ok _ => apply bind_Ok in Hv as (? & ? & Hv)
           end.
    match goal with
    | H : 驗證_呼 _ _ _ _ _ _ = Ok _ |- _ =>
      unfold 驗證_呼 in H; rewrite L in H; discriminate
    end.
  - destruct (Raise_ValueError (音韻地位__init___only_ValueError keys _ _ _ _ _ _ _) E)
      as [msg ->].
    now exists msg.
Qed.

End 驗證_properties.

Lemma labial_rounding_rejected_witness :
  exists msg,
    音韻地位__init__ "明" (Some ("合" : str)) "一" None "魂" "平" None
    = Raise (ValueError msg).
Proof.
  apply (@labial_rounding_rejected 切韻常量).
  - reflexivity.
  - simpl. tauto.
Defined.

(* ===================================================================== *)
(** ** 驗證: unknown kinds in 邊緣地位種類 *)
(* ===================================================================== *)

(** C2, as stated, fails: 並三A陽上 is one of the 已知邊緣地位, for which
    驗證 returns before it looks at the declared kinds, so that the unknown
    kind 壞耶 is accepted. *)
Lemma unknown_kind_accepted_for_whitelisted :
  str_in "壞耶" MarginalKind = false
  /\ 音韻地位__init__ "並" None "三" (Some ("A" : str)) "陽" "上"
       (Some (as_list ["壞耶" : str]))
     = Ok (Mk音韻地位 "並" None "三" (Some ("A" : str)) "陽" "上").
Proof. split; reflexivity. Qed.

Section 邊緣地位_properties.
Context {常 : 音韻屬性常量}.
Hypothesis keys : 驗證_keys = true.

Lemma marginal_tests_kinds (母 : str) (呼 : option str) (等 : str)
  (類 : option str) (韻 : str) (tests : list marginal_test) :
  marginal_tests 母 呼 等 類 韻 = Ok tests ->
  map (fun t => fst (fst (fst t))) tests = MarginalKind.
Proof.
  unfold marginal_tests. intros H.
  apply bind_Ok in H as (b & _ & H). injection H as <-. reflexivity.
Qed.

Lemma 驗證_known_kinds_unknown (known kinds : list str) (k : str) :
  In k kinds -> str_in k known = false ->
  exists msg, 驗證_known_kinds known kinds = Raise (ValueError msg).
Proof.
  intros Hin Hk. induction kinds as [|x kinds IH]; [destruct Hin|].
  simpl. destruct (str_in x known) eqn:E; simpl; [|eauto].
  destruct Hin as [->|Hin]; [congruence|]. now apply IH.
Qed.

(** C2, amended.  For every candidate tuple whose 描述 is not one of the
    已知邊緣地位, and every declared 邊緣地位種類 other than the tuple
    _UNCHECKED that contains a label outside the MarginalKind inventory,
    the constructor raises a ValueError. *)
Theorem unknown_kind_rejected (母 : str) (呼 : option str) (等 : str)
  (類 : option str) (韻 聲 : str) (邊緣地位種類 : 邊緣地位種類指定) (kind : str) :
  In kind (kinds_of 邊緣地位種類) ->
  str_in kind MarginalKind = false ->
  is_UNCHECKED 邊緣地位種類 = false ->
  str_in (描述_of 母 呼 等 類 韻 聲) 已知邊緣地位 = false ->
  exists msg,
    音韻地位__init__ 母 呼 等 類 韻 聲 (Some 邊緣地位種類)
    = Raise (ValueError msg).
Proof.
  intros Hin Hunknown Hsentinel Hknown.
  destruct (音韻地位__init__ 母 呼 等 類 韻 聲 (Some 邊緣地位種類)) as [P|e] eqn:E.
  - exfalso. unfold 音韻地位__init__ in E.
    apply bind_Ok in E as (u & Hv & _).
    assert (Hk : or_empty_tuple (Some 邊緣地位種類) = 邊緣地位種類).
    { unfold or_empty_tuple. destruct (kinds_of 邊緣地位種類); [destruct Hin|].
      reflexivity. }
    rewrite Hk in Hv. unfold 驗證 in Hv.
    repeat match type of Hv with
           | bind ?c _ = Ok _ => apply bind_Ok in Hv as (? & ? & Hv)
           end.
    unfold 驗證_邊緣地位 in Hv. rewrite Hsentinel, Hknown in Hv. simpl in Hv.
    apply bind_Ok in Hv as (? & _ & Hv).
    apply bind_Ok in Hv as (tests & Ht & Hv).
    apply bind_Ok in Hv as (? & Hkk & _).
    rewrite (marginal_tests_kinds _ _ _ _ _ Ht) in Hkk.
    destruct (驗證_known_kinds_unknown MarginalKind _ _ Hin Hunknown)
      as [msg Hmsg].
    congruence.
  - destruct (Raise_ValueError
                (音韻地位__init___only_ValueError keys _ _ _ _ _ _ _) E)
      as [msg ->].
    now exists msg.
Qed.

End 邊緣地位_properties.

Lemma unknown_kind_rejected_witness :
  exists msg,
    音韻地位__init__ "見" None "一" None "東" "平"
      (Some (as_list ["壞耶" : str]))
    = Raise (ValueError msg).
Proof.
  apply (@unknown_kind_rejected 切韻常量) with (kind := "壞耶" : str).
  - reflexivity.
  - simpl. tauto.
  - reflexivity.
  - reflexivity.
  - reflexivity.
Defined.

(* ===================================================================== *)
(** ** 音韻地位2韻鏡位置: the row *)
(* ===================================================================== *)

(** C3, as stated, fails: 幫三C廢去 is a valid position of rime 廢, and
    its row is 15, in the 入-tone block (rows 13-16), not in the 去-tone
    block (rows 9-12). *)
Lemma fei_row_not_in_departing_block :
  let P := Mk音韻地位 "幫" None "三" (Some ("C" : str)) "廢" "去" in
  音韻地位__init__ "幫" None "三" (Some ("C" : str)) "廢" "去" None = Ok P
  /\ 音韻地位2韻鏡位置 P = Ok (Mk韻鏡位置 10 15 1)
  /\ ~ (9 <= 15 <= 12)%Z.
Proof. simpl. repeat split; try reflexivity. lia. Qed.

Section 上位_properties.
Context {常 : 音韻屬性常量}.

Lemma 韻鏡位置__init__Ok (a b c : Z) (p : 韻鏡位置) :
  韻鏡位置__init__ a b c = Ok p ->
  p = Mk韻鏡位置 a b c /\ (1 <= b <= 16)%Z.
Proof.
  unfold 韻鏡位置__init__.
  destruct (negb ((1 <=? a)%Z && (a <=? 43)%Z)); [discriminate|].
  destruct (negb ((1 <=? b)%Z && (b <=? 16)%Z)) eqn:B; [discriminate|].
  destruct (negb ((1 <=? c)%Z && (c <=? 23)%Z)); [discriminate|].
  intros H. injection H as <-. split; [reflexivity|].
  apply negb_false_iff, andb_true_iff in B as [B1 B2].
  apply Z.leb_le in B1, B2. lia.
Qed.

(** C3, amended.  When 音韻地位2韻鏡位置 returns a coordinate, its row is
    block * 4 + 韻鏡等, where 韻鏡等 is the raw chart division the function
    computed and block is 3, the 入-tone block lodging the 去 tone (rows
    13-16), when the rime is 廢 or 夬, and the index of the position's own
    tone otherwise.  With the raw division within 1..4 the row lies in that
    block and the coordinate's 韻鏡等 is the raw division. *)
Theorem row_is_block_times_4_plus_division (P : 音韻地位) (c : 韻鏡位置) :
  音韻地位2韻鏡位置 P = Ok c ->
  exists raw block : Z,
    音韻地位_韻鏡等 P = Ok raw
    /\ 上位 c = (block * 4 + raw)%Z
    /\ (if str_contains "廢夬" (韻 P) then block = 3%Z
        else str_index 聲lst (聲 P) = Ok block)
    /\ ((1 <= raw <= 4)%Z ->
        韻鏡等 c = raw /\ ((上位 c - 1) / 4)%Z = block
        /\ (str_contains "廢夬" (韻 P) = true -> (13 <= 上位 c <= 16)%Z)).
Proof.
  unfold 音韻地位2韻鏡位置. intros H.
  apply bind_Ok in H as (raw & Hraw & H).
  apply bind_Ok in H as (轉 & _ & H).
  apply bind_Ok in H as (block & Hblock & H).
  apply bind_Ok in H as (母idx & _ & H).
  apply bind_Ok in H as (右 & _ & H).
  apply 韻鏡位置__init__Ok in H as [-> Hrange].
  exists raw, block. cbn [上位].
  assert (Hb : if str_contains "廢夬" (韻 P) then block = 3%Z
               else str_index 聲lst (聲 P) = Ok block).
  { destruct (str_contains "廢夬" (韻 P)); [|exact Hblock].
    injection Hblock as <-. reflexivity. }
  split; [exact Hraw|]. split; [reflexivity|]. split; [exact Hb|].
  intros Hraw14. unfold 韻鏡等. cbn [上位].
  replace (block * 4 + raw - 1)%Z with ((raw - 1) + block * 4)%Z by lia.
  rewrite Z.mod_add by lia. rewrite Z.div_add by lia.
  rewrite Z.mod_small by lia. rewrite Z.div_small by lia.
  split; [lia|]. split; [lia|].
  intros H廢. rewrite H廢 in Hb. lia.
Qed.

End 上位_properties.

Lemma row_is_block_times_4_plus_division_witness :
  exists raw block : Z,
    音韻地位_韻鏡等 (Mk音韻地位 "幫" None "三" (Some ("C" : str)) "廢" "去")
    = Ok raw
    /\ 15%Z = (block * 4 + raw)%Z
    /\ block = 3%Z
    /\ ((1 <= raw <= 4)%Z ->
        3%Z = raw /\ 3%Z = block /\ (true = true -> (13 <= 15 <= 16)%Z)).
Proof.
  apply (@row_is_block_times_4_plus_division
           (Mk音韻地位 "幫" None "三" (Some ("C" : str)) "廢" "去")
           (Mk韻鏡位置 10 15 1)).
  reflexivity.
Defined.

(* ===================================================================== *)
(** ** 判斷: malformed rows *)
(* ===================================================================== *)

(** C5, as stated, fails: the first row matches 幫三C凡入 and its result
    is returned; the malformed second row, a 1-tuple, is never looked
    at. *)
Lemma malformed_row_after_match_ignored :
  let P := Mk音韻地位 "幫" None "三" (Some ("C" : str)) "凡" "入" in
  音韻地位__init__ "幫" None "三" (Some ("C" : str)) "凡" "入" None = Ok P
  /\ malformed_row (PyTuple [PyStr "x"])
  /\ 判斷 P [PyTuple [PyStr "幫組"; PyInt 1]; PyTuple [PyStr "x"]]
          (throws_bool false) false
     = Ok (PyInt 1).
Proof. simpl. repeat split; try reflexivity. discriminate. Qed.

Section 判斷_properties.
Context {常 : 音韻屬性常量}.
Variable self : 音韻地位.
Variable fall_through : bool.

Lemma loop_malformed (row : pyobj) (rest : list pyobj) :
  malformed_row row ->
  loop self fall_through (PyList (row :: rest))
  = Raise (ValueError "規則需符合格式").
Proof.
  destruct row as [| | |s|items|items|]; simpl; try contradiction.
  - destruct s as [|a [|b [|c s]]]; simpl; intros H;
      try reflexivity; now elim H.
  - destruct items as [|a [|b [|c items]]]; simpl; intros H;
      try reflexivity; now elim H.
  - destruct items as [|a [|b [|c items]]]; simpl; intros H;
      try reflexivity; now elim H.
Qed.

Lemma loop_passed_over (row : pyobj) (rest : list pyobj) :
  passed_over self fall_through row ->
  loop self fall_through (PyList (row :: rest))
  = loop self fall_through (PyList rest).
Proof.
  intros (表達式 & 結果 & Hrow & Hcond).
  destruct Hrow as [-> | ->]; cbn [loop];
    destruct Hcond as [-> | (-> & Hlist & -> & Hnested)];
    try reflexivity; cbn [bind]; rewrite Hlist;
    change (bind (loop self true 結果)
                 (fun res => match res with
                             | Some _ => Ok res
                             | None => loop self true (PyList rest)
                             end)
            = loop self true (PyList rest));
    rewrite Hnested; reflexivity.
Qed.

(** C5, amended.  A row that is not exactly of two items raises the
    ValueError 規則需符合格式 when the scan reaches it, that is when every
    row before it is passed over; this holds whatever follows the row and
    whatever [throws] is.  Rows behind a row that ends the scan are not
    inspected. *)
Theorem malformed_row_raises_when_reached (before after : list pyobj)
  (row : pyobj) (throws : throws_arg) :
  Forall (passed_over self fall_through) before ->
  malformed_row row ->
  判斷 self (before ++ row :: after) throws fall_through
  = Raise (ValueError "規則需符合格式").
Proof.
  intros Hbefore Hrow. unfold 判斷.
  assert (E : loop self fall_through (PyList (before ++ row :: after))
              = Raise (ValueError "規則需符合格式")).
  { induction Hbefore as [|r before Hr _ IH]; simpl app.
    - now apply loop_malformed.
    - rewrite loop_passed_over by assumption. exact IH. }
  now rewrite E.
Qed.

End 判斷_properties.

Lemma malformed_row_raises_when_reached_witness :
  判斷 (Mk音韻地位 "幫" None "三" (Some ("C" : str)) "凡" "入")
       ([PyTuple [PyStr "見母"; PyInt 42]] ++ PyTuple [PyStr "x"] :: [])
       (throws_bool false) false
  = Raise (ValueError "規則需符合格式").
Proof.
  apply (@malformed_row_raises_when_reached 切韻常量).
  - constructor; [|constructor].
    exists (PyStr "見母"), (PyInt 42). split; [now right|now left].
  - simpl. discriminate.
Defined.

(* ===================================================================== *)
(** ** 屬於: deferred callables *)
(* ===================================================================== *)

(** C4, as stated, fails: a deferred callable that returns the integer 1
    is reached, and 屬於 returns True instead of raising. *)
Lemma lazy_returning_int_is_coerced :
  let P := Mk音韻地位 "幫" None "三" (Some ("C" : str)) "凡" "入" in
  音韻地位__init__ "幫" None "三" (Some ("C" : str)) "凡" "入" None = Ok P
  /\ 屬於 P ["" : str; "" : str] [PyCallable (Ok (PyInt 1))] = Ok true.
Proof. simpl. split; reflexivity. Qed.

Section LazyParameter_properties.
Context {常 : 音韻屬性常量}.

(** C4, amended.  When evaluation reaches a deferred callable whose
    return value is not a string, the value is coerced with [bool] and no
    error is raised: the operand evaluates to the truth value of what the
    callable returned, and so does 屬於 on an expression that consists of
    that operand. *)
Theorem lazy_non_string_is_coerced (P : 音韻地位) (value : pyobj) :
  (forall s, value <> PyStr s) ->
  eval_operand (屬於_str P) (ELazy (Ok value)) = Ok (truthy value)
  /\ 屬於 P ["" : str; "" : str] [PyCallable (Ok value)]
     = Ok (truthy value).
Proof.
  intros Hvalue.
  assert (E : eval_operand (屬於_str P) (ELazy (Ok value))
              = Ok (truthy value)).
  { destruct value; try reflexivity. now elim (Hvalue s). }
  split; [exact E|].
  unfold 屬於, 屬於_body. cbn [build_tokens _tokenize normalize_parens map
    length _tokenize_loop segment_tokens bind from_value app].
  exact E.
Qed.

End LazyParameter_properties.

Lemma lazy_non_string_is_coerced_witness :
  eval_operand (屬於_str (Mk音韻地位 "幫" None "三" (Some ("C" : str)) "凡" "入"))
               (ELazy (Ok PyNone))
  = Ok false
  /\ 屬於 (Mk音韻地位 "幫" None "三" (Some ("C" : str)) "凡" "入")
          ["" : str; "" : str] [PyCallable (Ok PyNone)]
     = Ok false.
Proof.
  apply (@lazy_non_string_is_coerced 切韻常量
           (Mk音韻地位 "幫" None "三" (Some ("C" : str)) "凡" "入") PyNone).
  intros s. discriminate.
Defined.

(* ===================================================================== *)
(** ** decode音韻編碼 and the marginal kinds *)
(* ===================================================================== *)

(** C10.  decode音韻編碼 constructs its result with _UNCHECKED, for which
    the reconciliation of the marginal kinds is skipped whatever the
    attributes are; so the code jBM decodes to 匣三C東平, a position with
    母 = 匣 and 等 = 三 whose attributes the constructor rejects when it is
    called with an empty 邊緣地位種類 or with none. *)
Theorem decode_skips_marginal_check :
  (forall (常 : 音韻屬性常量) 母 呼 等 類 韻 聲,
      驗證_邊緣地位 母 呼 等 類 韻 聲 _UNCHECKED = Ok tt)
  /\ decode音韻編碼 "jBM"
     = Ok (Mk音韻地位 "匣" None "三" (Some ("C" : str)) "東" "平")
  /\ 音韻地位__init__ "匣" None "三" (Some ("C" : str)) "東" "平"
       (Some (as_list []))
     = Raise (ValueError "invalid 音韻地位 <匣,,三,C,東,平>: unexpected 匣母三等")
  /\ 音韻地位__init__ "匣" None "三" (Some ("C" : str)) "東" "平" None
     = Raise (ValueError "invalid 音韻地位 <匣,,三,C,東,平>: unexpected 匣母三等").
Proof. repeat split; reflexivity. Qed.

(* ===================================================================== *)
(** ** 執行反切: candidates that fail validation *)
(* ===================================================================== *)

Section 反切_properties.
Context {常 : 音韻屬性常量}.
Hypothesis keys : 驗證_keys = true.

(** The loop over 類列表 never raises: a candidate the constructor
    accepts is appended to the results, one it rejects adds a message to
    忽略. *)
Lemma 反切_類_total (母 : str) (呼 : option str) (等 韻 聲 : str)
  (類列表 : list (option str)) (st : 反切狀態) :
  exists st',
    反切_類 母 呼 等 韻 聲 類列表 st = Ok st'
    /\ results st' = results st ++ accepted_candidates 母 呼 等 韻 聲 類列表
    /\ length (忽略 st')
       = (length (忽略 st) + rejected_candidates 母 呼 等 韻 聲 類列表)%nat
    /\ 條件_解釋 st' = 條件_解釋 st.
Proof.
  revert st. unfold accepted_candidates, rejected_candidates.
  induction 類列表 as [|類 rest IH]; intros st; simpl.
  - exists st. rewrite app_nil_r, Nat.add_0_r. auto.
  - destruct (音韻地位__init__ 母 呼 等 類 韻 聲 None) as [P|e] eqn:E; simpl.
    + destruct (IH {| results := results st ++ [P];
                      條件_解釋 := 條件_解釋 st; 忽略 := 忽略 st |})
        as (st' & -> & Hr & Hi & Hc).
      exists st'. simpl in Hr, Hi, Hc. rewrite Hr, Hi, Hc, <- app_assoc.
      auto.
    + destruct (Raise_ValueError
                  (音韻地位__init___only_ValueError keys _ _ _ _ _ _ _) E)
        as [msg ->].
      match goal with
      | |- exists st', 反切_類 _ _ _ _ _ _ ?s = _ /\ _ =>
        destruct (IH s) as (st' & -> & Hr & Hi & Hc)
      end.
      exists st'. simpl in Hr, Hi, Hc. rewrite Hr, Hi, Hc, length_app.
      simpl. repeat split; auto. lia.
Qed.

Lemma 反切_等_Raise (上字 下字 : 音韻地位) (組_ : option str)
  (所有呼 : list (option str)) (所有等 : list str) (呼 : option str)
  (等s : list str) (st : 反切狀態) (e : exn) :
  反切_等 上字 下字 組_ 所有呼 所有等 呼 等s st = Raise e ->
  exists 等, rawGenerate類 下字 (母 上字) 組_ (韻 下字) (類 上字) 呼 等
             = Raise e.
Proof.
  revert st. induction 等s as [|等 rest IH]; intros st; simpl; [discriminate|].
  destruct (rawGenerate類 下字 (母 上字) 組_ (韻 下字) (類 上字) 呼 等)
    as [決策|e'] eqn:E; simpl.
  - match goal with
    | |- bind (反切_類 ?a ?b ?c ?d ?f ?l ?s) _ = _ -> _ =>
      destruct (反切_類_total a b c d f l s) as (st' & -> & _)
    end.
    simpl. apply IH.
  - intros [= <-]. now exists 等.
Qed.

Lemma 反切_呼_Raise (上字 下字 : 音韻地位) (組_ : option str)
  (所有呼 : list (option str)) (所有等 : list str)
  (呼s : list (option str)) (st : 反切狀態) (e : exn) :
  反切_呼 上字 下字 組_ 所有呼 所有等 呼s st = Raise e ->
  exists 呼 等, rawGenerate類 下字 (母 上字) 組_ (韻 下字) (類 上字) 呼 等
                = Raise e.
Proof.
  revert st. induction 呼s as [|呼 rest IH]; intros st; simpl; [discriminate|].
  destruct (反切_等 上字 下字 組_ 所有呼 所有等 呼 所有等 st) as [st1|e'] eqn:E;
    simpl.
  - apply IH.
  - intros [= <-]. apply 反切_等_Raise in E as [等 E]. now exists 呼, 等.
Qed.

Lemma log_all_Ok (messages : list str) (logger : StringLogger) :
  fst (log_all messages logger) = Ok tt.
Proof.
  revert logger. induction messages as [|m rest IH]; intros logger;
    [reflexivity|].
  simpl. unfold bind_logged, logging. simpl. apply IH.
Qed.

Lemma bind_logged_Raise {A B} (c : logged A) (k : A -> logged B)
  (logger : StringLogger) (e : exn) :
  fst (bind_logged c k logger) = Raise e ->
  fst (c logger) = Raise e
  \/ exists a logger', c logger = (Ok a, logger')
                       /\ fst (k a logger') = Raise e.
Proof.
  unfold bind_logged. destruct (c logger) as [[a|e'] logger']; simpl.
  - intros H. right. exists a, logger'. split; [reflexivity|exact H].
  - intros H. left. injection H as ->. reflexivity.
Qed.

Lemma 執行反切_Raise (上字 下字 : 音韻地位) (logger : StringLogger) (e : exn) :
  fst (執行反切 上字 下字 logger) = Raise e ->
  raised_outside_candidates 上字 下字 e.
Proof.
  unfold 執行反切, raised_outside_candidates. intros H.
  apply bind_logged_Raise in H as [H|(組_ & lg1 & _ & H)];
    [left; exact H|].
  apply bind_logged_Raise in H as [H|(? & lg2 & _ & H)]; [discriminate|].
  apply bind_logged_Raise in H as [H|(下字組 & lg3 & _ & H)];
    [right; left; exact H|].
  apply bind_logged_Raise in H as [H|(? & lg4 & _ & H)]; [discriminate|].
  apply bind_logged_Raise in H as [H|(所有呼 & lg5 & _ & H)];
    [right; right; left; now exists 組_, 下字組, lg4|].
  apply bind_logged_Raise in H as [H|(所有等 & lg6 & _ & H)];
    [right; right; right; left; now exists lg5|].
  apply bind_logged_Raise in H as [H|(st & lg7 & _ & H)].
  - right; right; right; right. simpl in H.
    apply 反切_呼_Raise in H as (呼 & 等 & H). now exists 組_, 呼, 等.
  - exfalso.
    apply bind_logged_Raise in H as [H|(? & lg8 & _ & H)].
    + destruct (條件_解釋 st) as [|[c 唯一] rest]; [discriminate|].
      destruct (解釋_all_same _).
      * destruct 唯一 as [[|ch0 m0]|]; discriminate.
      * rewrite log_all_Ok in H. discriminate.
    + apply bind_logged_Raise in H as [H|(? & lg9 & _ & H)].
      * rewrite log_all_Ok in H. discriminate.
      * discriminate.
Qed.

End 反切_properties.

(** C7.  For the upper character 端開一登入 and the lower character
    匣一東平, 執行反切 returns the list whose only candidate has the 描述
    端一東平.  In general the loop over the candidates of one 呼 and one 等
    never raises: the candidates the constructor accepts are appended to
    the results and each one it rejects only adds a message to 忽略, which
    is logged at the end (as for 幫三C凡入 and 見開三C之平, where the only
    candidate 幫三C之平 is rejected); so an exception of 執行反切 is never
    one raised by the construction of a candidate. *)
Theorem fanqie_discards_invalid_candidates :
  (forall logger : StringLogger,
      fst (執行反切 (Mk音韻地位 "端" (Some ("開" : str)) "一" None "登" "入")
                    (Mk音韻地位 "匣" None "一" None "東" "平") logger)
      = Ok [Mk音韻地位 "端" None "一" None "東" "平"])
  /\ 描述 (Mk音韻地位 "端" None "一" None "東" "平") = ("端一東平" : str)
  /\ 執行反切 (Mk音韻地位 "幫" None "三" (Some ("C" : str)) "凡" "入")
              (Mk音韻地位 "見" (Some ("開" : str)) "三" (Some ("C" : str))
                          "之" "平")
              {| enable := true; _messages := [] |}
     = (Ok [],
        {| enable := true;
           _messages := [
             "反切上字為幫母，故被切字為幫母" : str;
             "反切下字為之韻平聲，故被切字為之韻平聲" : str;
             "被切字為之韻，之韻為三等，故被切字為三等" : str;
             "被切字非重紐韻，故被切字為 C 類" : str;
             "忽略無效的音韻地位「幫三C之平」，原因：invalid 音韻地位 <幫,,三,C,之,平>: unexpected 之韻脣音" : str
           ] |})
  /\ (forall 常 : 音韻屬性常量,
         驗證_keys = true ->
         (forall 母 呼 等 韻 聲 類列表 st,
             exists st',
               反切_類 母 呼 等 韻 聲 類列表 st = Ok st'
               /\ results st'
                  = results st ++ accepted_candidates 母 呼 等 韻 聲 類列表
               /\ length (忽略 st')
                  = (length (忽略 st)
                     + rejected_candidates 母 呼 等 韻 聲 類列表)%nat)
         /\ (forall 上字音韻地位 下字音韻地位 logger e,
                fst (執行反切 上字音韻地位 下字音韻地位 logger) = Raise e ->
                raised_outside_candidates 上字音韻地位 下字音韻地位 e)).
Proof.
  split; [|split; [|split]].
  - intros [[] messages]; reflexivity.
  - reflexivity.
  - reflexivity.
  - intros 常 keys. split.
    + intros 母 呼 等 韻 聲 類列表 st.
      destruct (反切_類_total keys 母 呼 等 韻 聲 類列表 st)
        as (st' & H1 & H2 & H3 & _).
      now exists st'.
    + intros 上字 下字 logger e. apply 執行反切_Raise. exact keys.
Qed.

Lemma fanqie_discards_invalid_candidates_witness :
  exists st',
    反切_類 "幫" None "三" "之" "平" [Some ("C" : str)]
            {| results := []; 條件_解釋 := []; 忽略 := [] |} = Ok st'
    /\ results st' = []
    /\ length (忽略 st') = 1%nat.
Proof.
  destruct fanqie_discards_invalid_candidates as (_ & _ & _ & H).
  destruct (H 切韻常量 eq_refl) as [H1 _].
  exact (H1 ("幫" : str) None ("三" : str) ("之" : str) ("平" : str)
            [Some ("C" : str)]
            {| results := []; 條件_解釋 := []; 忽略 := [] |}).
Defined.

(* ===================================================================== *)
(** ** _tokenize: fuel and white space *)
(* ===================================================================== *)

Lemma take_run_app (ch : char) (s : str) :
  fst (take_run ch s) ++ snd (take_run ch s) = s.
Proof.
  induction s as [|c r IH]; simpl; [reflexivity|].
  destruct (c =? ch)%N; [|reflexivity].
  destruct (take_run ch r) as [run rest]. simpl in *. now rewrite IH.
Qed.

Lemma take_word_app (s : str) :
  fst (take_word s) ++ snd (take_word s) = s.
Proof.
  induction s as [|c r IH]; simpl; [reflexivity|].
  destruct (is_word_char c); [|reflexivity].
  destruct (take_word r) as [w rest]. simpl in *. now rewrite IH.
Qed.

Lemma take_run_rest_length (ch : char) (s : str) :
  (length (snd (take_run ch s)) <= length s)%nat.
Proof.
  rewrite <- (take_run_app ch s) at 2. rewrite length_app. lia.
Qed.

Lemma take_word_rest_length (s : str) :
  (length (snd (take_word s)) <= length s)%nat.
Proof.
  rewrite <- (take_word_app s) at 2. rewrite length_app. lia.
Qed.

(** A separator after [s] ends the run or the word where [s] ends. *)
Lemma take_run_sep (ch c : char) (s rest : str) :
  (c =? ch)%N = false ->
  take_run ch (s ++ c :: rest)
  = (fst (take_run ch s), snd (take_run ch s) ++ c :: rest).
Proof.
  intros Hc. induction s as [|x r IH]; simpl.
  - now rewrite Hc.
  - destruct (x =? ch)%N; [|reflexivity].
    rewrite IH. now destruct (take_run ch r).
Qed.

Lemma take_word_sep (c : char) (s rest : str) :
  is_word_char c = false ->
  take_word (s ++ c :: rest)
  = (fst (take_word s), snd (take_word s) ++ c :: rest).
Proof.
  intros Hc. induction s as [|x r IH]; simpl.
  - now rewrite Hc.
  - destruct (is_word_char x); [|reflexivity].
    rewrite IH. now destruct (take_word r).
Qed.

Lemma is_word_char_else (ch : char) :
  isspace ch = false -> str_contains "()!~" [ch] = false ->
  str_contains "&|" [ch] = false -> is_word_char ch = true.
Proof.
  unfold is_word_char. intros -> H1 H2. cbn in *.
  destruct (ch =? 40)%N; [discriminate|].
  destruct (ch =? 41)%N; [discriminate|].
  destruct (ch =? 33)%N; [discriminate|].
  destruct (ch =? 126)%N; [discriminate|].
  destruct (ch =? 38)%N; [discriminate|].
  destruct (ch =? 124)%N; [discriminate|].
  reflexivity.
Qed.

(** Fuel beyond the length of the text makes no difference. *)
Lemma _tokenize_loop_fuel (n m : nat) (s : str) :
  (length s <= n)%nat -> (length s <= m)%nat ->
  _tokenize_loop n s = _tokenize_loop m s.
Proof.
  revert m s. induction n as [|n IH]; intros m s Hn Hm.
  - destruct s; [|simpl in Hn; lia]. now destruct m.
  - destruct m as [|m]; [destruct s; [reflexivity|simpl in Hm; lia]|].
    destruct s as [|ch rest]; [reflexivity|].
    simpl in Hn, Hm. cbn [_tokenize_loop].
    destruct (isspace ch) eqn:E1; [apply IH; lia|].
    destruct (str_contains "()!~" [ch]) eqn:E2; [f_equal; apply IH; lia|].
    destruct (str_contains "&|" [ch]) eqn:E3.
    + pose proof (take_run_rest_length ch rest) as L.
      cbn [take_run]. rewrite N.eqb_refl.
      destruct (take_run ch rest) as [run rest']. simpl in L.
      f_equal. apply IH; lia.
    + pose proof (take_word_rest_length rest) as L.
      cbn [take_word]. rewrite (@is_word_char_else _ E1 E2 E3).
      destruct (take_word rest) as [w rest']. simpl in L.
      f_equal. apply IH; lia.
Qed.

Lemma isspace_not_word (c : char) : isspace c = true -> is_word_char c = false.
Proof. unfold is_word_char. now intros ->. Qed.

Lemma isspace_not_run (c ch : char) :
  isspace c = true -> str_contains "&|" [ch] = true -> (c =? ch)%N = false.
Proof.
  intros Hc Hch. destruct (c =? ch)%N eqn:E; [|reflexivity].
  apply N.eqb_eq in E. subst c. simpl in Hch.
  destruct (ch =? 38)%N eqn:E1.
  - apply N.eqb_eq in E1. subst ch. discriminate.
  - destruct (ch =? 124)%N eqn:E2; [|discriminate].
    apply N.eqb_eq in E2. subst ch. discriminate.
Qed.

Lemma _tokenize_loop_space (k : nat) (s : str) (c : char) (rest : str) :
  (length s <= k)%nat -> isspace c = true ->
  _tokenize_loop (length (s ++ c :: rest)) (s ++ c :: rest)
  = _tokenize_loop (length s) s ++ _tokenize_loop (length rest) rest.
Proof.
  revert s. induction k as [|k IH]; intros s Hk Hc.
  - destruct s; [|simpl in Hk; lia]. simpl. now rewrite Hc.
  - destruct s as [|ch s']; [simpl; now rewrite Hc|].
    simpl in Hk. cbn [app length _tokenize_loop].
    destruct (isspace ch) eqn:E1; [apply IH; [lia|assumption]|].
    destruct (str_contains "()!~" [ch]) eqn:E2.
    { cbn [app]. f_equal. apply IH; [lia|assumption]. }
    destruct (str_contains "&|" [ch]) eqn:E3.
    + change (ch :: s' ++ c :: rest) with ((ch :: s') ++ c :: rest).
      rewrite (@take_run_sep _ _ _ _ (@isspace_not_run _ _ Hc E3)).
      pose proof (take_run_rest_length ch s') as L.
      cbn [take_run]. rewrite N.eqb_refl.
      destruct (take_run ch s') as [run r]. cbn [fst snd app] in *.
      f_equal.
      rewrite (_tokenize_loop_fuel (n := length (s' ++ c :: rest))
                 (m := length (r ++ c :: rest)));
        [|rewrite !length_app; simpl; lia|lia].
      rewrite IH by (assumption || lia).
      f_equal. apply _tokenize_loop_fuel; lia.
    + change (ch :: s' ++ c :: rest) with ((ch :: s') ++ c :: rest).
      rewrite (@take_word_sep _ _ _ (@isspace_not_word _ Hc)).
      pose proof (take_word_rest_length s') as L.
      cbn [take_word]. rewrite (@is_word_char_else _ E1 E2 E3).
      destruct (take_word s') as [w r]. cbn [fst snd app] in *.
      f_equal.
      rewrite (_tokenize_loop_fuel (n := length (s' ++ c :: rest))
                 (m := length (r ++ c :: rest)));
        [|rewrite !length_app; simpl; lia|lia].
      rewrite IH by (assumption || lia).
      f_equal. apply _tokenize_loop_fuel; lia.
Qed.

Lemma normalize_parens_app (a b : str) :
  normalize_parens (a ++ b) = normalize_parens a ++ normalize_parens b.
Proof. apply map_app. Qed.

(** [_tokenize] splits at a space. *)
Lemma _tokenize_space (a b : str) :
  _tokenize (a ++ " " ++ b) = _tokenize a ++ _tokenize b.
Proof.
  unfold _tokenize. rewrite normalize_parens_app.
  change (normalize_parens (" " ++ b)) with (32%N :: normalize_parens b).
  now apply _tokenize_loop_space with (k := length (normalize_parens a)).
Qed.

(* ===================================================================== *)
(** ** 屬於: 非 and 且 *)
(* ===================================================================== *)

Section 屬於_properties.
Context {常 : 音韻屬性常量}.
Variable P : 音韻地位.

(** A string that is one token and on which 屬於 succeeds is not an
    operator, and 屬於 returns what [_eval_token] gives for it. *)
Lemma single_token_eval (X : str) (bx : bool) :
  _tokenize X = [X] -> 屬於 P [X] [] = Ok bx ->
  (exists raw, _classify_token X = inr raw) /\ _eval_token P X = Ok bx.
Proof.
  intros HX. unfold 屬於, 屬於_body. cbn [build_tokens]. rewrite HX.
  cbn [segment_tokens].
  destruct (_classify_token X) as [m|raw].
  - destruct m; cbn; discriminate.
  - destruct (_eval_token P X) as [b|e]; cbn; [|discriminate].
    intros [= ->]. split; [now exists raw|reflexivity].
Qed.

(** C6.  Let X and Y be predicate tokens (strings that [_tokenize] leaves
    as one token) whose evaluation against P succeeds, with the results bx
    and by.  Then P.屬於("非 X") is not bx, and P.屬於("X 且 Y") is
    bx and by. *)
Theorem negation_and_conjunction (X Y : str) (bx by_ : bool) :
  _tokenize X = [X] -> _tokenize Y = [Y] ->
  屬於 P [X] [] = Ok bx -> 屬於 P [Y] [] = Ok by_ ->
  屬於 P ["非 " ++ X] [] = Ok (negb bx)
  /\ 屬於 P [X ++ " 且 " ++ Y] [] = Ok (bx && by_).
Proof.
  intros HX HY EX EY.
  destruct (single_token_eval HX EX) as [[rx Cx] Vx].
  destruct (single_token_eval HY EY) as [[ry Cy] Vy].
  split.
  - unfold 屬於, 屬於_body. cbn [build_tokens].
    change ("非 " ++ X) with ("非" ++ " " ++ X).
    rewrite _tokenize_space, HX.
    change (_tokenize "非") with ["非" : str].
    cbn [app segment_tokens]. rewrite Cx, Vx.
    change (_classify_token "非") with (@inl marker str NOT).
    cbn. reflexivity.
  - unfold 屬於, 屬於_body. cbn [build_tokens].
    change (X ++ " 且 " ++ Y) with (X ++ " " ++ ("且" ++ " " ++ Y)).
    rewrite !_tokenize_space, HX, HY.
    change (_tokenize "且") with ["且" : str].
    cbn [app segment_tokens]. rewrite Cx, Vx, Cy, Vy.
    change (_classify_token "且") with (@inl marker str AND).
    cbn. destruct bx, by_; reflexivity.
Qed.
End 屬於_properties.

Lemma negation_and_conjunction_witness :
  let P := Mk音韻地位 "幫" None "三" (Some ("C" : str)) "凡" "入" in
  屬於 P ["非 三等" : str] [] = Ok false
  /\ 屬於 P ["三等 且 C類" : str] [] = Ok true.
Proof.
  apply (@negation_and_conjunction 切韻常量
           (Mk音韻地位 "幫" None "三" (Some ("C" : str)) "凡" "入")
           ("三等" : str) ("C類" : str) true true); reflexivity.
Defined.

(* ===================================================================== *)
(** ** The round trip 音韻地位 → 韻鏡位置 → 音韻地位 *)
(* ===================================================================== *)

Ltac raises_same :=
  repeat first
    [ reflexivity
    | match goal with
      | |- raises (bind ?c _) = raises (bind ?c _) => destruct c; cbn [bind]
      | |- raises (if ?b then _ else _) = raises (if ?b then _ else _) =>
        destruct b
      | |- raises (match ?x with _ => _ end)
           = raises (match ?x with _ => _ end) => destruct x
      | |- raises (let '(_, _) := ?x in _)
           = raises (let '(_, _) := ?x in _) => destruct x
      end ].

Section for_all_valid_properties.
Context {常 : 音韻屬性常量}.

Lemma raises_reject (m : str) (h : option str) (d : str) (l : option str)
  (y s msg : str) : raises (@reject m h d l y s unit msg) = true.
Proof. reflexivity. Qed.

(** Whether a check of 驗證 raises depends on the attributes it reads
    only; the others go into the message. *)
Lemma 驗證_等母_raises (m : str) (h h' : option str) (d : str)
  (l l' : option str) (y y' s s' : str) (items : dict (list str)) :
  raises (驗證_等母 m h d l y s items) = raises (驗證_等母 m h' d l' y' s' items).
Proof.
  induction items as [|[k v] items IH]; simpl; [reflexivity|].
  destruct (_ && _); [reflexivity|exact IH].
Qed.

Lemma 驗證_等韻_raises (m : str) (h h' : option str) (d : str)
  (l l' : option str) (y s s' : str) (items : dict (list str)) :
  raises (驗證_等韻 m h d l y s items) = raises (驗證_等韻 m h' d l' y s' items).
Proof.
  induction items as [|[k v] items IH]; simpl; [reflexivity|].
  destruct (str_in y v); [|exact IH].
  destruct (str_contains k d); [reflexivity|].
  destruct (_ && _); reflexivity.
Qed.

Lemma 驗證_呼_raises (m : str) (h : option str) (d d' : str)
  (l l' : option str) (y s s' : str) :
  raises (驗證_呼 m h d l y s) = raises (驗證_呼 m h d' l' y s').
Proof. unfold 驗證_呼. raises_same. Qed.

Lemma 驗證_類_raises (m : str) (h h' : option str) (d : str)
  (l : option str) (y s s' : str) :
  raises (驗證_類 m h d l y s) = raises (驗證_類 m h' d l y s').
Proof.
  unfold 驗證_類. raises_same.
  destruct (_ && _); reflexivity.
Qed.

Lemma 驗證_屬性_Ok (m : str) (h : option str) (d : str) (l : option str)
  (y s 屬性 : str) (值 : option str) (nullable : bool) :
  驗證_屬性 m h d l y s 屬性 值 nullable = Ok tt ->
  match 值 with
  | Some v => In v (domain 屬性)
  | None => True
  end.
Proof.
  unfold 驗證_屬性, domain, dict_getitem. destruct 值 as [v|]; [|trivial].
  destruct (dict_get 所有 屬性) as [dom|]; [simpl|discriminate].
  destruct (str_in v dom) eqn:E; [|discriminate].
  intros _. now apply str_in_In.
Qed.

Lemma In_optional (v : option str) (dom : list str) :
  match v with
  | Some x => In x dom
  | None => True
  end -> In v (optional dom).
Proof.
  unfold optional. destruct v as [x|]; [|now left].
  intros H. right. now apply in_map.
Qed.

Lemma raises_Ok {A} (r : result A) (a : A) : r = Ok a -> raises r = false.
Proof. now intros ->. Qed.

(** [for_all_valid] covers every tuple 驗證 accepts, whatever the declared
    kinds. *)
Lemma for_all_valid_sound (f : 音韻地位 -> bool) :
  for_all_valid f = true ->
  forall 母 呼 等 類 韻 聲 kinds,
    驗證 母 呼 等 類 韻 聲 kinds = Ok tt ->
    f (Mk音韻地位 母 呼 等 類 韻 聲) = true.
Proof.
  intros Hall m h d l y s kinds Hv. unfold 驗證 in Hv.
  apply bind_Ok in Hv as ([] & H屬性 & Hv).
  apply bind_Ok in Hv as ([] & _ & Hv).
  apply bind_Ok in Hv as ([] & H等母 & Hv).
  apply bind_Ok in Hv as ([] & H等韻 & Hv).
  apply bind_Ok in Hv as ([] & H呼 & Hv).
  apply bind_Ok in Hv as ([] & H類 & _).
  unfold 驗證_所有屬性 in H屬性.
  apply bind_Ok in H屬性 as ([] & Dm & H屬性). apply 驗證_屬性_Ok in Dm.
  apply bind_Ok in H屬性 as ([] & Dh & H屬性).
  apply 驗證_屬性_Ok, In_optional in Dh.
  apply bind_Ok in H屬性 as ([] & Dd & H屬性). apply 驗證_屬性_Ok in Dd.
  apply bind_Ok in H屬性 as ([] & Dl & H屬性).
  apply 驗證_屬性_Ok, In_optional in Dl.
  apply bind_Ok in H屬性 as ([] & Dy & Ds).
  apply 驗證_屬性_Ok in Dy. apply 驗證_屬性_Ok in Ds.
  unfold for_all_valid in Hall.
  rewrite forallb_forall in Hall. specialize (Hall m Dm).
  rewrite forallb_forall in Hall. specialize (Hall d Dd).
  rewrite (驗證_等母_raises m None h d None l "" y "" s),
          (raises_Ok H等母) in Hall.
  rewrite forallb_forall in Hall. specialize (Hall y Dy).
  rewrite (驗證_等韻_raises m None h d None l y "" s),
          (raises_Ok H等韻) in Hall.
  rewrite forallb_forall in Hall. specialize (Hall h Dh).
  rewrite (驗證_呼_raises m h d d None l y "" s), (raises_Ok H呼) in Hall.
  rewrite forallb_forall in Hall. specialize (Hall l Dl).
  rewrite (驗證_類_raises m h h d l y "" s), (raises_Ok H類) in Hall.
  rewrite forallb_forall in Hall. exact (Hall s Ds).
Qed.

End for_all_valid_properties.

(** Steps 1 to 8 of 驗證 do not read the declared kinds: a tuple accepted
    with some kinds passes 驗證 with _UNCHECKED. *)
Lemma 驗證_UNCHECKED {常 : 音韻屬性常量} (母 : str) (呼 : option str)
  (等 : str) (類 : option str) (韻 聲 : str) (kinds : 邊緣地位種類指定) :
  驗證 母 呼 等 類 韻 聲 kinds = Ok tt ->
  驗證 母 呼 等 類 韻 聲 _UNCHECKED = Ok tt.
Proof.
  unfold 驗證. intros H.
  repeat match type of H with
         | bind ?c _ = Ok _ =>
           let E := fresh "E" in
           apply bind_Ok in H as ([] & E & H); rewrite E; cbn [bind]
         end.
  reflexivity.
Qed.

(** The check of [round_trip_check] on every tuple of the 切韻 tables, by
    computation. *)
Lemma round_trip_checked : for_all_valid round_trip_check = true.
Proof. vm_compute. reflexivity. Qed.

(** C1, as stated, fails.  日開三祭平 is accepted by the constructor and
    is outside the 莊組/仙韻 exception set, but its coordinate (13, 3, 23)
    reads as rime 咍 and to音韻地位 raises.  Inside the exception set,
    生開三仙平 comes back as 生開二山平, which differs from the position
    with the rime substituted alone (生開三山平). *)
Lemma round_trip_fails_outside_documented_set :
  let P := Mk音韻地位 "日" (Some ("開" : str)) "三" None "祭" "平" in
  let P' := Mk音韻地位 "生" (Some ("開" : str)) "三" None "仙" "平" in
  (音韻地位__init__ "日" (Some ("開" : str)) "三" None "祭" "平" None = Ok P
   /\ 莊組仙韻 P = false
   /\ 音韻地位2韻鏡位置 P = Ok (Mk韻鏡位置 13 3 23)
   /\ to音韻地位 (Mk韻鏡位置 13 3 23)
      = Raise (ValueError "invalid 音韻地位 <日,開,三,,咍,平>: unexpected 咍韻三等"))
  /\ (音韻地位__init__ "生" (Some ("開" : str)) "三" None "仙" "平" None = Ok P'
      /\ 莊組仙韻 P' = true
      /\ round_trip P'
         = Ok (Mk音韻地位 "生" (Some ("開" : str)) "二" None "山" "平")
      /\ 等於 (Mk音韻地位 "生" (Some ("開" : str)) "二" None "山" "平")
              (Mk音韻地位 "生" (Some ("開" : str)) "三" None "山" "平")
         = false).
Proof. simpl. repeat split; reflexivity. Qed.

(** C1, amended.  Let P be a position the constructor accepts for its
    attributes, with whatever declared marginal kinds.  Converting P to a coordinate with
    音韻地位2韻鏡位置 and back with to音韻地位 succeeds with a position equal
    (等於) to P, or for P in the 莊組/仙韻 set to P with 等 二 and the rime
    刪 (入聲) or 山, if and only if P is also accepted without marginal
    kinds and is none of the 韻鏡例外. *)
Theorem round_trip_exact (P : 音韻地位)
  (邊緣地位種類 : option 邊緣地位種類指定) :
  音韻地位__init__ (母 P) (呼 P) (等 P) (類 P) (韻 P) (聲 P) 邊緣地位種類 = Ok P ->
  (exists c Q,
      音韻地位2韻鏡位置 P = Ok c /\ to音韻地位 c = Ok Q
      /\ 等於 Q (還原目標 P) = true)
  <-> (音韻地位__init__ (母 P) (呼 P) (等 P) (類 P) (韻 P) (聲 P) None = Ok P
       /\ 韻鏡例外 P = false).
Proof.
  unfold 音韻地位__init__. intros H.
  apply bind_Ok in H as ([] & Hv & _).
  pose proof (@for_all_valid_sound _ _ round_trip_checked _ _ _ _ _ _ _ Hv)
    as Hcheck.
  unfold round_trip_check in Hcheck.
  assert (HP : Mk音韻地位 (母 P) (呼 P) (等 P) (類 P) (韻 P) (聲 P) = P)
    by now destruct P.
  rewrite HP in *.
  rewrite (@驗證_UNCHECKED _ _ _ _ _ _ _ _ Hv) in Hcheck.
  cbn [raises] in Hcheck. apply Bool.eqb_prop in Hcheck.
  cbn [or_empty_tuple].
  assert (Hrt : (exists c Q,
                    音韻地位2韻鏡位置 P = Ok c /\ to音韻地位 c = Ok Q
                    /\ 等於 Q (還原目標 P) = true)
                <-> round_trip_ok P = true).
  { unfold round_trip_ok, round_trip. split.
    - intros (c & Q & -> & HQ & E). cbn [bind]. now rewrite HQ.
    - destruct (音韻地位2韻鏡位置 P) as [c|]; cbn [bind]; [|discriminate].
      destruct (to音韻地位 c) as [Q|] eqn:HQ; [|discriminate].
      intros E. now exists c, Q. }
  rewrite Hrt, Hcheck, andb_true_iff, !negb_true_iff.
  destruct (驗證 (母 P) (呼 P) (等 P) (類 P) (韻 P) (聲 P) (as_tuple []))
    as [[]|e]; cbn [bind raises].
  - tauto.
  - split; [intros [? _]; discriminate|intros [? _]; discriminate].
Qed.

Lemma round_trip_exact_witness :
  let P := Mk音韻地位 "端" (Some ("開" : str)) "一" None "登" "入" in
  (exists c Q,
      音韻地位2韻鏡位置 P = Ok c /\ to音韻地位 c = Ok Q
      /\ 等於 Q (還原目標 P) = true)
  <-> (音韻地位__init__ "端" (Some ("開" : str)) "一" None "登" "入" None
       = Ok P
       /\ 韻鏡例外 P = false).
Proof.
  apply (@round_trip_exact
           (Mk音韻地位 "端" (Some ("開" : str)) "一" None "登" "入") None).
  reflexivity.
Defined.

(* ===================================================================== *)
(** ** The parser of 屬於 never runs out of fuel *)
(* ===================================================================== *)

Lemma skip_nots_spec (negate seen_not : bool) (ts : list token) :
  let '(negate', seen_not', rest) := skip_nots negate seen_not ts in
  (length rest <= length ts)%nat
  /\ (seen_not = true -> seen_not' = true)
  /\ (seen_not' = false -> negate' = negate /\ rest = ts).
Proof.
  revert negate seen_not.
  induction ts as [|[[m| | |] raw] ts IH]; intros negate seen_not; simpl;
    try (split; [lia|tauto]).
  destruct m; simpl; try (split; [lia|tauto]).
  specialize (IH (negb negate) true).
  destruct (skip_nots (negb negate) true ts) as [[n' s'] rest].
  destruct IH as (L & S & E). split; [lia|]. split; [auto|].
  intros ->. specialize (S eq_refl). discriminate.
Qed.

Lemma parse_fuel (fuel : nat) :
  (forall required ts, (3 * length ts + 1 <= fuel)%nat ->
                       parsed ts (parse_not fuel required ts))
  /\ (forall operands ts, (3 * length ts + 2 <= fuel)%nat ->
                          parsed_loop ts (parse_and_loop fuel operands ts))
  /\ (forall required ts, (3 * length ts + 2 <= fuel)%nat ->
                          parsed ts (parse_and fuel required ts))
  /\ (forall operands ts, (3 * length ts + 3 <= fuel)%nat ->
                          parsed_loop ts (parse_or_loop fuel operands ts))
  /\ (forall required ts, (3 * length ts + 3 <= fuel)%nat ->
                          parsed ts (parse_or fuel required ts)).
Proof.
  induction fuel as [|n (Hnot & Handl & Hand & Horl & Hor)].
  { repeat split; intros; lia. }
  assert (Hnot' : forall required ts, (3 * length ts + 1 <= S n)%nat ->
                       parsed ts (parse_not (S n) required ts)).
  { intros required ts Hn. cbn [parse_not].
    pose proof (skip_nots_spec false false ts) as Hs.
    destruct (skip_nots false false ts) as [[negate seen_not] ts0].
    destruct Hs as (L0 & _ & E0).
    destruct ts0 as [|[tok raw] ts1]; cbn [peek read fst snd].
    - (* end of the tokens *)
      cbn [end_token]. destruct (seen_not || required) eqn:E; cbn [bind].
      + reflexivity.
      + apply orb_false_iff in E as [-> _]. destruct (E0 eq_refl) as [-> ->].
        simpl. split; [lia|congruence].
    - simpl in L0.
      destruct tok as [m|b|f|].
      + destruct m; cbn [bind];
          try (destruct (seen_not || required) eqn:E; cbn [bind];
               [reflexivity|
                apply orb_false_iff in E as [-> _];
                destruct (E0 eq_refl) as [-> ->]; simpl;
                split; [lia|congruence]]).
        (* "(" *)
        assert (Hn1 : (3 * length ts1 + 3 <= n)%nat) by lia.
        specialize (Hor true ts1 Hn1).
        destruct (parse_or n true ts1) as [[operand ts2]|e]; cbn [bind];
          [|exact Hor].
        destruct Hor as [L2 _].
        destruct ts2 as [|[closing closing_raw] ts3]; cbn [read end_token].
        * cbn [is_mark]. reflexivity.
        * destruct (is_mark RPAREN closing); cbn [bind]; [|reflexivity].
          simpl in L2. destruct negate; simpl; split; lia.
      + cbn [bind]. destruct negate; simpl; split; lia.
      + cbn [bind]. destruct negate; simpl; split; lia.
      + destruct (seen_not || required) eqn:E; cbn [bind].
        * reflexivity.
        * apply orb_false_iff in E as [-> _].
          destruct (E0 eq_refl) as [-> ->]. simpl. split; [lia|congruence]. }
  assert (Handl' : forall operands ts, (3 * length ts + 2 <= S n)%nat ->
                      parsed_loop ts (parse_and_loop (S n) operands ts)).
  { intros operands ts Hn. cbn [parse_and_loop].
    destruct (is_mark AND (fst (peek ts))) eqn:Ea.
    - destruct ts as [|[tok raw] ts1]; [discriminate|]. cbn [read snd].
      simpl in Hn.
      assert (Hn1 : (3 * length ts1 + 1 <= n)%nat) by lia.
      specialize (Hnot true ts1 Hn1).
      destruct (parse_not n true ts1) as [[operand ts2]|e]; cbn [bind];
        [|exact Hnot].
      destruct Hnot as [L2 _].
      assert (Hn2 : (3 * length ts2 + 2 <= n)%nat) by lia.
      specialize (Handl (operands ++ [or_ENone operand]) ts2 Hn2).
      destruct (parse_and_loop n _ ts2) as [[ops ts3]|e]; [|exact Handl].
      simpl in *. lia.
    - assert (Hn1 : (3 * length ts + 1 <= n)%nat) by lia.
      specialize (Hnot false ts Hn1).
      destruct (parse_not n false ts) as [[[operand|] ts2]|e]; cbn [bind];
        [| |exact Hnot].
      + destruct Hnot as [_ L2]. specialize (L2 ltac:(discriminate)).
        assert (Hn2 : (3 * length ts2 + 2 <= n)%nat) by lia.
        specialize (Handl (operands ++ [operand]) ts2 Hn2).
        destruct (parse_and_loop n _ ts2) as [[ops ts3]|e]; [|exact Handl].
        simpl in *. lia.
      + simpl. now destruct Hnot. }
  assert (Hand' : forall required ts, (3 * length ts + 2 <= S n)%nat ->
                     parsed ts (parse_and (S n) required ts)).
  { intros required ts Hn. cbn [parse_and].
    assert (Hn1 : (3 * length ts + 1 <= n)%nat) by lia.
    specialize (Hnot required ts Hn1).
    destruct (parse_not n required ts) as [[[first|] ts1]|e]; cbn [bind];
      [| |exact Hnot].
    - destruct Hnot as [_ L1]. specialize (L1 ltac:(discriminate)).
      assert (Hn2 : (3 * length ts1 + 2 <= n)%nat) by lia.
      specialize (Handl [first] ts1 Hn2).
      destruct (parse_and_loop n [first] ts1) as [[ops ts2]|e]; cbn [bind];
        [|exact Handl].
      simpl in Handl.
      destruct ops as [|single [|]]; simpl; split; lia.
    - simpl. destruct Hnot. split; [lia|congruence]. }
  assert (Horl' : forall operands ts, (3 * length ts + 3 <= S n)%nat ->
                     parsed_loop ts (parse_or_loop (S n) operands ts)).
  { intros operands ts Hn. cbn [parse_or_loop].
    destruct (is_mark OR (fst (peek ts))) eqn:Eo; [|simpl; lia].
    destruct ts as [|[tok raw] ts1]; [discriminate|]. cbn [read snd].
    simpl in Hn.
    assert (Hn1 : (3 * length ts1 + 2 <= n)%nat) by lia.
    specialize (Hand true ts1 Hn1).
    destruct (parse_and n true ts1) as [[operand ts2]|e]; cbn [bind];
      [|exact Hand].
    destruct Hand as [L2 _].
    assert (Hn2 : (3 * length ts2 + 3 <= n)%nat) by lia.
    specialize (Horl (operands ++ [or_ENone operand]) ts2 Hn2).
    destruct (parse_or_loop n _ ts2) as [[ops ts3]|e]; [|exact Horl].
    simpl in *. lia. }
  assert (Hor' : forall required ts, (3 * length ts + 3 <= S n)%nat ->
                    parsed ts (parse_or (S n) required ts)).
  { intros required ts Hn. cbn [parse_or].
    assert (Hn1 : (3 * length ts + 2 <= n)%nat) by lia.
    specialize (Hand required ts Hn1).
    destruct (parse_and n required ts) as [[[first|] ts1]|e]; cbn [bind];
      [| |exact Hand].
    - destruct Hand as [_ L1]. specialize (L1 ltac:(discriminate)).
      assert (Hn2 : (3 * length ts1 + 3 <= n)%nat) by lia.
      specialize (Horl [first] ts1 Hn2).
      destruct (parse_or_loop n [first] ts1) as [[ops ts2]|e]; cbn [bind];
        [|exact Horl].
      simpl in Horl.
      destruct ops as [|single [|]]; simpl; split; lia.
    - simpl. destruct Hand. split; [lia|congruence]. }
  repeat split; assumption.
Qed.

(** With the fuel 屬於 gives it, [parse_or] ends as the source does: with
    a ValueError or a result, never with "out of fuel". *)
Lemma parse_or_fuel (required : bool) (ts : list token) :
  parsed ts (parse_or (3 * length ts + 3) required ts).
Proof. apply (parse_fuel (3 * length ts + 3)). lia. Qed.

(* ===================================================================== *)
(** * Further properties *)
(* ===================================================================== *)

(* ===================================================================== *)
(** ** from描述 and 描述 *)
(* ===================================================================== *)

Lemma or_empty_tuple_idem (k : option 邊緣地位種類指定) :
  or_empty_tuple (Some (or_empty_tuple k)) = or_empty_tuple k.
Proof.
  destruct k as [[l|l]|]; simpl; [| |reflexivity]; destruct l; reflexivity.
Qed.

Lemma existsb_concat (c : char) (l : list str) :
  In [c] l -> existsb (N.eqb c) (concat l) = true.
Proof.
  intros H. apply existsb_exists. exists c. split; [|apply N.eqb_refl].
  apply in_concat. exists [c]. split; [exact H|now left].
Qed.

Lemma single_chars_In (l : list str) (v : str) :
  single_chars l = true -> In v l -> exists c, v = [c].
Proof.
  unfold single_chars. rewrite forallb_forall. intros H Hv.
  specialize (H v Hv). destruct v as [|c [|c' v]]; try discriminate.
  now exists c.
Qed.

Lemma disjoint_chars_In (a b : list str) (c : char) :
  disjoint_chars a b = true -> In [c] a ->
  existsb (N.eqb c) (concat b) = false.
Proof.
  unfold disjoint_chars. rewrite forallb_forall. intros H Hc.
  apply negb_true_iff, H, in_concat. exists [c]. split; [exact Hc|now left].
Qed.

Lemma domain_getitem {常 : 音韻屬性常量} (屬性 : str) :
  has_key 所有 屬性 = true -> dict_getitem 所有 屬性 = Ok (domain 屬性).
Proof.
  unfold has_key, dict_getitem, domain.
  destruct (dict_get 所有 屬性); [reflexivity|discriminate].
Qed.

Ltac one_char D :=
  match type of D with
  | In _ ?dom =>
    match goal with
    | S : single_chars dom = true |- _ =>
      let c := fresh "c" in destruct (single_chars_In _ _ S D) as [c ->]
    end
  end.

Section from描述_properties.
Context {常 : 音韻屬性常量}.

Lemma 驗證_domains (母 : str) (呼 : option str) (等 : str) (類 : option str)
  (韻 聲 : str) (kinds : 邊緣地位種類指定) :
  驗證 母 呼 等 類 韻 聲 kinds = Ok tt ->
  In 母 (domain "母")
  /\ match 呼 with Some h => In h (domain "呼") | None => True end
  /\ In 等 (domain "等")
  /\ match 類 with Some c => In c (domain "類") | None => True end
  /\ In 韻 (domain "韻") /\ In 聲 (domain "聲").
Proof.
  unfold 驗證. intros Hv.
  apply bind_Ok in Hv as ([] & H屬性 & _).
  unfold 驗證_所有屬性 in H屬性.
  apply bind_Ok in H屬性 as ([] & Dm & H屬性). apply 驗證_屬性_Ok in Dm.
  apply bind_Ok in H屬性 as ([] & Dh & H屬性). apply 驗證_屬性_Ok in Dh.
  apply bind_Ok in H屬性 as ([] & Dd & H屬性). apply 驗證_屬性_Ok in Dd.
  apply bind_Ok in H屬性 as ([] & Dl & H屬性). apply 驗證_屬性_Ok in Dl.
  apply bind_Ok in H屬性 as ([] & Dy & Ds).
  apply 驗證_屬性_Ok in Dy. apply 驗證_屬性_Ok in Ds.
  auto 10.
Qed.

Lemma 音韻地位__init___or_empty (母 : str) (呼 : option str) (等 : str)
  (類 : option str) (韻 聲 : str) (k : option 邊緣地位種類指定) :
  音韻地位__init__ 母 呼 等 類 韻 聲 (Some (or_empty_tuple k))
  = 音韻地位__init__ 母 呼 等 類 韻 聲 k.
Proof. unfold 音韻地位__init__. now rewrite or_empty_tuple_idem. Qed.

Local Arguments 音韻地位__init__ : simpl never.

(** The groups pattern描述 finds in a 描述, also when a newline follows. *)
Lemma match_groups_描述 (P : 音韻地位) (kinds : 邊緣地位種類指定) (tail : str) :
  描述_可解析 = true ->
  驗證 (母 P) (呼 P) (等 P) (類 P) (韻 P) (聲 P) kinds = Ok tt ->
  tail = [] \/ tail = [10%N] ->
  exists pattern,
    pattern描述 = Ok pattern
    /\ match_groups pattern (描述 P ++ tail)
       = Some [母 P; or_empty (呼 P); 等 P; or_empty (類 P); 韻 P; 聲 P]
    /\ or_None (Some (or_empty (呼 P))) = 呼 P
    /\ or_None (Some (or_empty (類 P))) = 類 P
    /\ is_empty (等 P) = false.
Proof.
  intros Htab Hv Htail.
  apply 驗證_domains in Hv as (Dm & Dh & Dd & Dl & Dy & Ds).
  unfold 描述_可解析 in Htab. cbn [forallb] in Htab.
  repeat (apply andb_prop in Htab as [Htab ?]).
  repeat match goal with
         | H : _ && _ = true |- _ => apply andb_prop in H as [? ?]
         end.
  destruct P as [m h d l y s]. cbn [母 呼 等 類 韻 聲] in *.
  one_char Dm. one_char Dd. one_char Dy. one_char Ds.
  assert (Ed : existsb (N.eqb c0) (concat (domain "呼")) = false)
    by (eapply disjoint_chars_In; eassumption).
  assert (Ey : existsb (N.eqb c1) (concat (domain "類")) = false)
    by (eapply disjoint_chars_In; eassumption).
  apply existsb_concat in Dm, Dd, Dy, Ds.
  unfold pattern描述. rewrite !domain_getitem by assumption. cbn [bind].
  eexists. split; [reflexivity|].
  unfold 描述, 描述_of. cbn [母 呼 等 類 韻 聲].
  destruct h as [h|], l as [l|]; try one_char Dh; try one_char Dl;
    try apply existsb_concat in Dh; try apply existsb_concat in Dl;
    cbn [or_empty app match_groups];
    rewrite ?Dm, ?Dh, ?Ed, ?Dd, ?Dl, ?Ey, ?Dy, ?Ds;
    destruct Htail as [-> | ->]; cbn; auto.
Qed.

(** X1.  from描述 reads back what 描述 prints: for a position P the
    constructor accepts with the declared kinds, from描述 on P.描述 (with the
    same kinds) returns P, provided the entries of 所有 are single
    characters and no 等 is a 呼 and no 韻 a 類.  The description followed
    by one newline is accepted as well, because [$] matches before a final
    newline. *)
Theorem description_round_trip (P : 音韻地位) (邊緣地位種類 : option 邊緣地位種類指定) :
  描述_可解析 = true ->
  音韻地位__init__ (母 P) (呼 P) (等 P) (類 P) (韻 P) (聲 P) 邊緣地位種類 = Ok P ->
  from描述 (描述 P) false 邊緣地位種類 = Ok P
  /\ from描述 (描述 P ++ [10%N]) false 邊緣地位種類 = Ok P.
Proof.
  intros Htab Hinit. pose proof Hinit as Hv. unfold 音韻地位__init__ in Hv.
  apply bind_Ok in Hv as ([] & Hv & _).
  rewrite <- 音韻地位__init___or_empty in Hinit.
  split.
  - destruct (@match_groups_描述 P _ [] Htab Hv (or_introl eq_refl))
      as (pattern & Hp & Hm & Hh & Hl & Hd).
    rewrite app_nil_r in Hm.
    unfold from描述. rewrite Hp. cbn [bind]. rewrite Hm, Hh, Hl, Hd.
    cbn [andb bind]. exact Hinit.
  - destruct (@match_groups_描述 P _ [10%N] Htab Hv (or_intror eq_refl))
      as (pattern & Hp & Hm & Hh & Hl & Hd).
    unfold from描述. rewrite Hp. cbn [bind]. rewrite Hm, Hh, Hl, Hd.
    cbn [andb bind]. exact Hinit.
Qed.

Lemma match_groups_sound (groups : list (str * bool)) (s : str)
  (gs : list str) :
  match_groups groups s = Some gs ->
  length gs = length groups
  /\ (s = concat gs \/ s = concat gs ++ [10%N]).
Proof.
  revert s gs. induction groups as [|[class optional] groups IH];
    intros s gs; cbn [match_groups].
  - destruct s as [|c [|c' s]]; try discriminate.
    + intros [= <-]. auto.
    + destruct (N.eqb_spec c 10); [|discriminate].
      intros [= <-]. subst c. auto.
  - assert (Hskip : (if optional
                     then option_map (cons []) (match_groups groups s)
                     else None) = Some gs ->
                    length gs = length (((class, optional)) :: groups)
                    /\ (s = concat gs \/ s = concat gs ++ [10%N])).
    { destruct optional; [|discriminate].
      destruct (match_groups groups s) as [gs'|] eqn:E; [|discriminate].
      intros [= <-]. apply IH in E as [L E]. cbn. split; [lia|exact E]. }
    destruct s as [|c s']; [exact Hskip|].
    destruct (existsb (N.eqb c) class); [|exact Hskip].
    destruct (match_groups groups s') as [gs'|] eqn:E; [|exact Hskip].
    intros [= <-]. apply IH in E as [L [E|E]]; cbn; (split; [lia|]);
      rewrite E; auto.
Qed.

Lemma or_empty_or_None (x : str) : or_empty (or_None (Some x)) = x.
Proof. now destruct x. Qed.

(** X2.  Whatever from描述 accepts (without 簡略描述) is the 描述 of the
    position it returns, possibly followed by one newline: no other text
    is tolerated between, before or after the attributes. *)
Theorem parsed_description_is_canonical (音韻描述 : str)
  (邊緣地位種類 : option 邊緣地位種類指定) (P : 音韻地位) :
  from描述 音韻描述 false 邊緣地位種類 = Ok P ->
  音韻描述 = 描述 P \/ 音韻描述 = 描述 P ++ [10%N].
Proof.
  unfold from描述. intros H.
  apply bind_Ok in H as (pattern & _ & H).
  destruct (match_groups pattern 音韻描述) as [gs|] eqn:E; [|discriminate].
  apply match_groups_sound in E as [_ E].
  destruct gs as [|m [|h [|d [|l [|y [|s [|? ?]]]]]]]; try discriminate.
  destruct (is_empty d); [discriminate|]. cbn [andb negb bind] in H.
  unfold 音韻地位__init__ in H. apply bind_Ok in H as ([] & _ & [= <-]).
  unfold 描述, 描述_of. cbn [母 呼 等 類 韻 聲 concat] in *.
  rewrite app_nil_r in E.
  destruct h, l; exact E.
Qed.

End from描述_properties.

Lemma description_round_trip_witness :
  let P := Mk音韻地位 "幫" None "三" (Some ("C" : str)) "東" "平" in
  from描述 (描述 P) false None = Ok P
  /\ from描述 (描述 P ++ [10%N]) false None = Ok P.
Proof.
  apply (@description_round_trip 切韻常量
           (Mk音韻地位 "幫" None "三" (Some ("C" : str)) "東" "平") None);
    reflexivity.
Defined.

Lemma parsed_description_is_canonical_witness :
  ("見開一寒平" : str)
  = 描述 (Mk音韻地位 "見" (Some ("開" : str)) "一" None "寒" "平")
  \/ ("見開一寒平" : str)
     = 描述 (Mk音韻地位 "見" (Some ("開" : str)) "一" None "寒" "平") ++ [10%N].
Proof.
  apply (@parsed_description_is_canonical 切韻常量 "見開一寒平" None). reflexivity.
Defined.

(* ===================================================================== *)
(** ** Properties checked on every position of the 切韻 tables *)
(* ===================================================================== *)


Lemma opt_str_eq_eq (a b : option str) : opt_str_eq a b = true -> a = b.
Proof.
  destruct a, b; simpl; try discriminate; [|reflexivity].
  intros H. apply str_eqb_eq in H. now subst.
Qed.

Lemma 音韻地位_eqb_eq (P Q : 音韻地位) : 音韻地位_eqb P Q = true -> P = Q.
Proof.
  unfold 音韻地位_eqb.
  destruct P as [m h d l y s], Q as [m' h' d' l' y' s'].
  cbn [母 呼 等 類 韻 聲].
  rewrite !andb_true_iff. intros [[[[[H1 H2] H3] H4] H5] H6].
  apply str_eqb_eq in H1, H3, H5, H6. apply opt_str_eq_eq in H2, H4.
  now subst.
Qed.

Lemma returns_Ok (r : result 音韻地位) (P : 音韻地位) :
  returns r P = true -> r = Ok P.
Proof.
  destruct r as [Q|]; [|discriminate]. simpl. intros H.
  apply 音韻地位_eqb_eq in H. now subst.
Qed.

Lemma 音韻地位_eta (P : 音韻地位) :
  Mk音韻地位 (母 P) (呼 P) (等 P) (類 P) (韻 P) (聲 P) = P.
Proof. now destruct P. Qed.

Lemma encode_decode_checked : for_all_valid encode_decode_check = true.
Proof. vm_compute. reflexivity. Qed.

Lemma 表達式_checked : for_all_valid 表達式_check = true.
Proof. vm_compute. reflexivity. Qed.

Lemma 簡略描述_checked : for_all_valid 簡略描述_check = true.
Proof. vm_compute. reflexivity. Qed.

(** X3.  Encoding and decoding are inverse on positions: every position
    the constructor accepts, with whatever declared kinds, has a code of
    three characters, and decode音韻編碼 gives the position back from it
    (for the tables of 切韻常量, by computation over all tuples). *)
Theorem encode_then_decode (P : 音韻地位)
  (邊緣地位種類 : option 邊緣地位種類指定) :
  音韻地位__init__ (母 P) (呼 P) (等 P) (類 P) (韻 P) (聲 P) 邊緣地位種類 = Ok P ->
  exists 編碼,
    encode音韻編碼 P = Ok 編碼 /\ length 編碼 = 3%nat
    /\ decode音韻編碼 編碼 = Ok P.
Proof.
  unfold 音韻地位__init__. intros H. apply bind_Ok in H as ([] & Hv & _).
  pose proof (@for_all_valid_sound _ _ encode_decode_checked _ _ _ _ _ _ _ Hv)
    as Hcheck.
  unfold encode_decode_check in Hcheck. rewrite 音韻地位_eta in Hcheck.
  rewrite (@驗證_UNCHECKED _ _ _ _ _ _ _ _ Hv) in Hcheck. cbn [raises] in Hcheck.
  destruct (encode音韻編碼 P) as [編碼|] eqn:E; [|discriminate].
  apply returns_Ok in Hcheck. exists 編碼. split; [reflexivity|].
  split; [|exact Hcheck].
  destruct 編碼 as [|c0 [|c1 [|c2 [|c3 r]]]]; try reflexivity;
    unfold decode音韻編碼 in Hcheck;
    destruct (len _ =? 3)%Z; discriminate.
Qed.

Lemma encode_then_decode_witness :
  let P := Mk音韻地位 "幫" None "三" (Some ("C" : str)) "凡" "入" in
  exists 編碼,
    encode音韻編碼 P = Ok 編碼 /\ length 編碼 = 3%nat
    /\ decode音韻編碼 編碼 = Ok P.
Proof.
  apply (@encode_then_decode
           (Mk音韻地位 "幫" None "三" (Some ("C" : str)) "凡" "入") None).
  reflexivity.
Defined.

(** X4.  The 表達式 of a position holds of the position: for every
    position P the constructor accepts, P.屬於(P.表達式) is True. *)
Theorem expression_holds_of_its_position (P : 音韻地位)
  (邊緣地位種類 : option 邊緣地位種類指定) :
  音韻地位__init__ (母 P) (呼 P) (等 P) (類 P) (韻 P) (聲 P) 邊緣地位種類 = Ok P ->
  屬於 P [表達式 P] [] = Ok true.
Proof.
  unfold 音韻地位__init__. intros H. apply bind_Ok in H as ([] & Hv & _).
  pose proof (@for_all_valid_sound _ _ 表達式_checked _ _ _ _ _ _ _ Hv)
    as Hcheck.
  unfold 表達式_check in Hcheck. rewrite 音韻地位_eta in Hcheck.
  rewrite (@驗證_UNCHECKED _ _ _ _ _ _ _ _ Hv) in Hcheck. cbn [raises] in Hcheck.
  destruct (屬於 P [表達式 P] []) as [b|]; [|discriminate]. now subst.
Qed.

Lemma expression_holds_of_its_position_witness :
  屬於 (Mk音韻地位 "云" (Some ("合" : str)) "三" (Some ("B" : str)) "真" "去")
       [表達式 (Mk音韻地位 "云" (Some ("合" : str)) "三" (Some ("B" : str))
                          "真" "去")] []
  = Ok true.
Proof.
  apply (@expression_holds_of_its_position
           (Mk音韻地位 "云" (Some ("合" : str)) "三" (Some ("B" : str)) "真" "去")
           None).
  reflexivity.
Defined.

(** X5.  The 簡略描述 loses nothing: for every position P the constructor
    accepts without marginal kinds, from描述 with 簡略描述 set reads
    P.簡略描述 back as P. *)
Theorem brief_description_round_trip (P : 音韻地位) :
  音韻地位__init__ (母 P) (呼 P) (等 P) (類 P) (韻 P) (聲 P) None = Ok P ->
  exists s, 簡略描述 P = Ok s /\ from描述 s true None = Ok P.
Proof.
  unfold 音韻地位__init__. intros H. apply bind_Ok in H as ([] & Hv & _).
  pose proof (@for_all_valid_sound _ _ 簡略描述_checked _ _ _ _ _ _ _ Hv)
    as Hcheck.
  unfold 簡略描述_check in Hcheck. rewrite 音韻地位_eta in Hcheck.
  cbn [or_empty_tuple] in Hv. rewrite Hv in Hcheck. cbn [raises] in Hcheck.
  destruct (簡略描述 P) as [s|]; [|discriminate].
  apply returns_Ok in Hcheck. now exists s.
Qed.

Lemma brief_description_round_trip_witness :
  let P := Mk音韻地位 "云" (Some ("合" : str)) "三" (Some ("B" : str)) "真" "去" in
  exists s, 簡略描述 P = Ok s /\ from描述 s true None = Ok P.
Proof.
  apply (@brief_description_round_trip
           (Mk音韻地位 "云" (Some ("合" : str)) "三" (Some ("B" : str)) "真" "去")).
  reflexivity.
Defined.

(* ===================================================================== *)
(** ** decode音韻編碼 on arbitrary strings *)
(* ===================================================================== *)


Lemma In_Zrange (n : nat) (i : Z) :
  (0 <= i < Z.of_nat n)%Z -> In i (Zrange n).
Proof.
  intros H. unfold Zrange. apply in_map_iff. exists (Z.to_nat i).
  split; [lia|]. apply in_seq. lia.
Qed.

Lemma getitem_nonneg {A} (l : list A) (i : Z) :
  (0 <= i)%Z ->
  getitem l i = match nth_error l (Z.to_nat i) with
                | Some a => Ok a
                | None => Raise IndexError
                end.
Proof.
  intros H. unfold getitem. destruct (Z.ltb_spec i 0); [lia|].
  destruct (Z.ltb_spec i 0); [lia|reflexivity].
Qed.

Lemma list_index_Ok (l : list str) (x : str) (i : Z) :
  list_index l x = Ok i ->
  (0 <= i < len l)%Z /\ getitem l i = Ok x.
Proof.
  unfold len. revert i. induction l as [|y l IH]; intros i; simpl;
    [discriminate|].
  destruct (str_eqb y x) eqn:E.
  - intros [= <-]. apply str_eqb_eq in E. subst y. split; [lia|reflexivity].
  - destruct (list_index l x) as [j|]; [|discriminate]. simpl.
    intros [= <-]. destruct (IH j eq_refl) as [Hj Hg]. split; [lia|].
    rewrite getitem_nonneg in Hg |- * by lia.
    replace (Z.to_nat (j + 1)) with (S (Z.to_nat j)) by lia. exact Hg.
Qed.

Lemma getitem_In {A} (l : list A) (i : Z) (x : A) :
  getitem l i = Ok x -> In x l.
Proof.
  unfold getitem. destruct (_ <? 0)%Z; [discriminate|].
  destruct (nth_error l _) eqn:E; [|discriminate].
  intros [= <-]. eapply nth_error_In, E.
Qed.

Lemma getitem_in_range {A} (l : list A) (i : Z) :
  (0 <= i < len l)%Z -> exists x, getitem l i = Ok x.
Proof.
  unfold len. intros H. rewrite getitem_nonneg by lia.
  destruct (nth_error l (Z.to_nat i)) eqn:E; [eauto|].
  apply nth_error_None in E. lia.
Qed.

Lemma _lookup_index_Ok (char : str) (i : Z) :
  _lookup_index char = Ok i ->
  In i (Zrange 64) /\ getitem 編碼表 i = Ok char.
Proof.
  unfold _lookup_index. intros H.
  apply bind_Ok in H as (j & E & H).
  apply bind_Ok in H as ([] & A & [= <-]).
  destruct (str_in char 編碼表).
  - apply list_index_Ok in E as [Hj Hg]. split; [|exact Hg].
    apply In_Zrange. exact Hj.
  - injection E as <-. discriminate.
Qed.

Lemma returns_Z_Ok (r : result Z) (z : Z) : returns_Z r z = true -> r = Ok z.
Proof.
  destruct r as [x|]; [|discriminate]. simpl. intros H.
  apply Z.eqb_eq in H. now subst.
Qed.

Lemma Ok_inj {A} (a b : A) : Ok a = Ok b -> a = b.
Proof. now intros [= ->]. Qed.

Lemma 編碼_checked : 編碼_check = true.
Proof. vm_compute. reflexivity. Qed.

Lemma encode_of_decoded (編碼 : str) (P : 音韻地位) :
  decode音韻編碼 編碼 = Ok P -> encode音韻編碼 P = Ok 編碼.
Proof.
  pose proof 編碼_checked as Hc. unfold 編碼_check in Hc.
  apply andb_prop in Hc as [Hc Hc2]. apply andb_prop in Hc as [Hc0 Hc1].
  rewrite forallb_forall in Hc0, Hc1, Hc2.
  unfold decode音韻編碼. intros H.
  apply bind_Ok in H as ([] & _ & H).
  destruct 編碼 as [|c0 [|c1 [|c2 [|c3 r]]]]; try discriminate.
  apply bind_Ok in H as (母序 & H0 & H). apply _lookup_index_Ok in H0 as [R0 G0].
  apply bind_Ok in H as (韻序 & H1 & H). apply _lookup_index_Ok in H1 as [R1 G1].
  apply bind_Ok in H as (v & H2 & H). apply _lookup_index_Ok in H2 as [R2 G2].
  apply bind_Ok in H as (所有母 & E母 & H).
  apply bind_Ok in H as ([] & _ & H).
  apply bind_Ok in H as (m & Em & H).
  apply bind_Ok in H as ([] & A韻 & H).
  apply bind_Ok in H as (韻0 & E韻0 & H).
  apply bind_Ok in H as (y & Ey & H).
  apply bind_Ok in H as (等_ & E等 & H).
  destruct 等_ as [d|]; [|discriminate].
  apply bind_Ok in H as (所有呼 & E呼 & H).
  apply bind_Ok in H as ([] & A呼 & H).
  apply bind_Ok in H as (h & Eh & H).
  apply bind_Ok in H as (所有類 & E類 & H).
  apply bind_Ok in H as ([] & A類 & H).
  apply bind_Ok in H as (l & El & H).
  apply bind_Ok in H as (所有聲 & E聲 & H).
  apply bind_Ok in H as (s & Es & H).
  unfold 音韻地位__init__ in H. apply bind_Ok in H as ([] & _ & [= <-]).
  (* the first digit *)
  specialize (Hc0 _ R0). unfold 母序_check in Hc0.
  rewrite E母, Em in Hc0. apply returns_Z_Ok in Hc0.
  (* the second digit *)
  assert (Dm : In m (domain "母")).
  { unfold domain. unfold dict_getitem in E母.
    destruct (dict_get 所有 "母"); [|discriminate].
    injection E母 as ->. eapply getitem_In, Em. }
  specialize (Hc1 _ Dm). rewrite forallb_forall in Hc1.
  specialize (Hc1 _ R1). unfold 韻序_check in Hc1.
  unfold assert_condition in A韻.
  destruct (韻序 <? len 韻序表)%Z; [|discriminate].
  rewrite E韻0 in Hc1. cbv zeta in Hc1. rewrite Ey, E等 in Hc1.
  apply returns_Z_Ok, bind_Ok in Hc1 as (韻序0 & E韻序0 & E韻序).
  apply Ok_inj in E韻序.
  (* the third digit *)
  specialize (Hc2 _ R2). unfold 呼類聲序_check in Hc2. cbv zeta in Hc2.
  rewrite E呼, E類, E聲 in Hc2.
  unfold assert_condition in A呼, A類.
  destruct (Z.shiftr v 4 <=? len 所有呼)%Z; [|discriminate].
  destruct (Z.land (Z.shiftr v 2) 3 <=? len 所有類)%Z; [|discriminate].
  rewrite Eh, El, Es in Hc2.
  apply returns_Z_Ok, bind_Ok in Hc2 as (呼序 & E呼序 & Hc2).
  apply bind_Ok in Hc2 as (類序 & E類序 & Hc2).
  apply bind_Ok in Hc2 as (聲序 & E聲序 & Ev). apply Ok_inj in Ev.
  (* encode *)
  unfold encode音韻編碼. cbn [母 呼 等 類 韻 聲].
  rewrite E母. cbn [bind]. rewrite Hc0. cbn [bind].
  rewrite E韻序0. cbn [bind]. rewrite E韻序, E呼序. cbn [bind].
  rewrite E類序. cbn [bind]. rewrite E聲. cbn [bind].
  rewrite E聲序. cbn [bind]. rewrite Ev, G0, G1, G2. reflexivity.
Qed.

(** X6.  A code that decode音韻編碼 accepts is the code of the position
    it returns: encode音韻編碼 gives the same three characters back. *)
Theorem decode_then_encode (編碼 : str) (P : 音韻地位) :
  decode音韻編碼 編碼 = Ok P -> encode音韻編碼 P = Ok 編碼.
Proof. apply encode_of_decoded. Qed.

Lemma only_ValueError_bind_Ok {A B} (c : result A) (k : A -> result B) :
  only_ValueError c -> (forall a, c = Ok a -> only_ValueError (k a)) ->
  only_ValueError (bind c k).
Proof.
  intros Hc Hk e. destruct c as [a|e']; simpl.
  - now apply Hk.
  - intros [= <-]. now apply Hc.
Qed.

Lemma list_index_only_ValueError (l : list str) (x : str) :
  only_ValueError (list_index l x).
Proof.
  induction l as [|y l IH]; simpl; [apply only_ValueError_ValueError|].
  destruct (str_eqb y x); [apply only_ValueError_Ok|].
  apply only_ValueError_bind; [exact IH|intros j; apply only_ValueError_Ok].
Qed.

Lemma _lookup_index_only_ValueError (char : str) :
  only_ValueError (_lookup_index char).
Proof.
  unfold _lookup_index.
  apply only_ValueError_bind.
  - destruct (str_in char 編碼表);
      [apply list_index_only_ValueError|apply only_ValueError_Ok].
  - intros idx. only_VE.
Qed.

Lemma Zrange_In (n : nat) (i : Z) :
  In i (Zrange n) -> (0 <= i < Z.of_nat n)%Z.
Proof.
  unfold Zrange. intros H. apply in_map_iff in H as (k & <- & H).
  apply in_seq in H. lia.
Qed.

Lemma assert_condition_Ok (condition : bool) (message : str) :
  assert_condition condition message = Ok tt -> condition = true.
Proof. destruct condition; [reflexivity|discriminate]. Qed.

Lemma decode音韻編碼_only_ValueError (編碼 : str) :
  only_ValueError (decode音韻編碼 編碼).
Proof.
  pose proof 編碼_checked as Hc. unfold 編碼_check in Hc.
  apply andb_prop in Hc as [Hc Hc2]. apply andb_prop in Hc as [Hc0 Hc1].
  rewrite forallb_forall in Hc0, Hc1, Hc2.
  unfold decode音韻編碼.
  apply only_ValueError_bind; [only_VE|intros _].
  destruct 編碼 as [|c0 [|c1 [|c2 [|c3 r]]]];
    try apply only_ValueError_ValueError.
  apply only_ValueError_bind_Ok; [apply _lookup_index_only_ValueError|].
  intros 母序 H0. apply _lookup_index_Ok in H0 as [R0 _].
  apply only_ValueError_bind_Ok; [apply _lookup_index_only_ValueError|].
  intros 韻序 H1. apply _lookup_index_Ok in H1 as [R1 _].
  apply only_ValueError_bind_Ok; [apply _lookup_index_only_ValueError|].
  intros v H2. apply _lookup_index_Ok in H2 as [R2 _].
  specialize (Hc0 _ R0). unfold 母序_check in Hc0.
  specialize (Hc2 _ R2). unfold 呼類聲序_check in Hc2. cbv zeta in Hc2.
  destruct (dict_getitem 所有 "母") as [所有母|] eqn:E母; [|discriminate].
  cbn [bind].
  apply only_ValueError_bind_Ok; [only_VE|]. intros [] A母.
  apply assert_condition_Ok, Z.ltb_lt in A母.
  apply Zrange_In in R0.
  destruct (@getitem_in_range _ 所有母 母序 ltac:(lia)) as [m Em].
  rewrite Em. cbn [bind].
  assert (Dm : In m (domain "母")).
  { unfold domain. unfold dict_getitem in E母.
    destruct (dict_get 所有 "母"); [|discriminate].
    injection E母 as ->. eapply getitem_In, Em. }
  specialize (Hc1 _ Dm). rewrite forallb_forall in Hc1.
  specialize (Hc1 _ R1). unfold 韻序_check in Hc1.
  apply only_ValueError_bind_Ok; [only_VE|]. intros [] A韻.
  apply assert_condition_Ok in A韻. rewrite A韻 in Hc1.
  destruct (getitem 韻序表 韻序) as [韻0|]; [|discriminate]. cbn [bind].
  cbv zeta in Hc1.
  destruct (if str_eqb 韻0 "＊" then getitem 韻序表 (韻序 - 1) else Ok 韻0)
    as [y|]; [|discriminate].
  cbn [bind].
  destruct (decode_等 等韻搭配 m y (str_eqb 韻0 "＊")) as [[d|]|];
    [|apply only_ValueError_ValueError|discriminate].
  cbn [bind].
  destruct (dict_getitem 所有 "呼") as [所有呼|]; [|discriminate].
  destruct (dict_getitem 所有 "類") as [所有類|]; [|discriminate].
  destruct (dict_getitem 所有 "聲") as [所有聲|]; [|discriminate].
  cbn [bind].
  apply only_ValueError_bind_Ok; [only_VE|]. intros [] A呼.
  apply assert_condition_Ok in A呼. rewrite A呼 in Hc2.
  destruct (decode_optional "呼" (Z.shiftr v 4)) as [h|]; [|discriminate].
  cbn [bind].
  apply only_ValueError_bind_Ok; [only_VE|]. intros [] A類.
  apply assert_condition_Ok in A類. rewrite A類 in Hc2.
  destruct (decode_optional "類" (Z.land (Z.shiftr v 2) 3)) as [l|];
    [|discriminate].
  cbn [bind].
  destruct (getitem 所有聲 (Z.land v 3)) as [s|]; [|discriminate].
  cbn [bind].
  apply 音韻地位__init___only_ValueError. reflexivity.
Qed.

(** X7.  On any string whatever, decode音韻編碼 raises nothing but
    ValueError: a wrong length, a character outside 編碼表 and an index
    outside a table are all reported as ValueError, and no subscript of
    the function can fail with IndexError or KeyError. *)
Theorem decode_raises_only_ValueError (編碼 : str) (e : exn) :
  decode音韻編碼 編碼 = Raise e -> is_ValueError e = true.
Proof. apply decode音韻編碼_only_ValueError. Qed.

Lemma decode_then_encode_witness :
  encode音韻編碼 (Mk音韻地位 "羣" (Some ("開" : str)) "三" (Some ("A" : str))
                            "支" "平")
  = Ok ("fFU" : str).
Proof. apply (@decode_then_encode "fFU"). reflexivity. Defined.

Lemma decode_raises_only_ValueError_witness :
  is_ValueError (ValueError "Invalid 母序號: 38") = true.
Proof. apply (@decode_raises_only_ValueError "mAA"). reflexivity. Defined.

(* ===================================================================== *)
(** ** 驗證: exceptions, marginal kinds and optional attributes *)
(* ===================================================================== *)


Section 驗證_further.
Context {常 : 音韻屬性常量}.
Hypothesis keys : 驗證_keys = true.

(** X8.  Provided the tables have the keys 驗證 subscripts, the
    constructor raises nothing but ValueError, whatever the six attributes
    and the declared kinds are. *)
Theorem constructor_raises_only_ValueError (母 : str) (呼 : option str)
  (等 : str) (類 : option str) (韻 聲 : str)
  (邊緣地位種類 : option 邊緣地位種類指定) (e : exn) :
  音韻地位__init__ 母 呼 等 類 韻 聲 邊緣地位種類 = Raise e ->
  is_ValueError e = true.
Proof.
  apply (音韻地位__init___only_ValueError keys).
Qed.

Lemma 驗證_marginal_tests_適用 (b1 b2 b3 b4 b5 b6 : bool)
  (e1 e2 e3 e4 e5 e6 母 等 韻 聲 : str) (呼 類 : option str) :
  let tests : list marginal_test :=
    [("陽韻A類" : str, true, b1, e1); ("端組類隔" : str, true, b2, e2);
     ("咍韻脣音" : str, true, b3, e3); ("匣母三等" : str, true, b4, e4);
     ("羣邪俟母非三等" : str, true, b5, e5);
     ("云母開口" : str, false, b6, e6)] in
  let kinds := map (fun t : marginal_test => fst (fst (fst t)))
                   (filter (fun t : marginal_test => snd (fst t)) tests) in
  no_duplicates kinds = true
  /\ 驗證_known_kinds (map (fun t : marginal_test => fst (fst (fst t))) tests)
                      kinds = Ok tt
  /\ 驗證_marginal_tests 母 呼 等 類 韻 聲 kinds tests = Ok tt.
Proof.
  destruct b1, b2, b3, b4, b5, b6; cbv zeta; repeat split; reflexivity.
Qed.

Lemma marginal_tests_Ok (母 : str) (呼 : option str) (等 : str)
  (類 : option str) (韻 : str) :
  exists b1 b2 b3 b4 b5 b6 e1 e2 e3 e4 e5 e6,
    marginal_tests 母 呼 等 類 韻
    = Ok [("陽韻A類" : str, true, b1, e1); ("端組類隔" : str, true, b2, e2);
          ("咍韻脣音" : str, true, b3, e3); ("匣母三等" : str, true, b4, e4);
          ("羣邪俟母非三等" : str, true, b5, e5);
          ("云母開口" : str, false, b6, e6)].
Proof.
  unfold marginal_tests.
  assert (H四 : exists 四, dict_getitem 等韻搭配 "四" = Ok 四).
  { pose proof (驗證_keys_四 keys) as H. unfold has_key in H.
    unfold dict_getitem. destruct (dict_get 等韻搭配 "四"); [eauto|discriminate]. }
  destruct H四 as [四 ->]. cbn [bind].
  destruct (str_contains "端透定泥" 母), (str_eqb 等 "二"), (str_eqb 等 "四");
    cbn [bind]; repeat eexists.
Qed.

(** X9.  _UNCHECKED accepts exactly what some declaration of kinds
    accepts: a tuple the constructor accepts with any 邊緣地位種類 is accepted
    with _UNCHECKED, and a tuple accepted with _UNCHECKED is accepted with
    the list of the marginal kinds whose condition holds of it. *)
Theorem unchecked_accepts_what_some_kinds_accept (母 : str)
  (呼 : option str) (等 : str) (類 : option str) (韻 聲 : str)
  (P : 音韻地位) :
  (forall 邊緣地位種類,
      音韻地位__init__ 母 呼 等 類 韻 聲 邊緣地位種類 = Ok P ->
      音韻地位__init__ 母 呼 等 類 韻 聲 (Some _UNCHECKED) = Ok P)
  /\ (音韻地位__init__ 母 呼 等 類 韻 聲 (Some _UNCHECKED) = Ok P ->
      音韻地位__init__ 母 呼 等 類 韻 聲
        (Some (as_list (適用邊緣地位種類 母 呼 等 類 韻 聲))) = Ok P).
Proof.
  unfold 音韻地位__init__. split.
  - intros kinds H. apply bind_Ok in H as ([] & Hv & HP).
    apply 驗證_UNCHECKED in Hv.
    change (or_empty_tuple (Some _UNCHECKED)) with _UNCHECKED.
    now rewrite Hv.
  - intros H. apply bind_Ok in H as ([] & Hv & HP).
    change (or_empty_tuple (Some _UNCHECKED)) with _UNCHECKED in Hv.
    set (K := 適用邊緣地位種類 母 呼 等 類 韻 聲).
    assert (HK : exists k, or_empty_tuple (Some (as_list K)) = k
                           /\ kinds_of k = K /\ is_UNCHECKED k = false).
    { cbn [or_empty_tuple kinds_of]. destruct K as [|x K'] eqn:EK.
      - now exists (as_tuple []).
      - now exists (as_list (x :: K')). }
    destruct HK as (k & -> & Hk & Hu).
    unfold 驗證 in Hv |- *.
    repeat match type of Hv with
           | bind ?c _ = Ok _ =>
             let E := fresh "E" in
             apply bind_Ok in Hv as ([] & E & Hv); rewrite E; cbn [bind]
           end.
    unfold 驗證_邊緣地位. rewrite Hu, Hk. cbn [orb].
    destruct (str_in _ 已知邊緣地位); [exact HP|].
    destruct (marginal_tests_Ok 母 呼 等 類 韻)
      as (b1 & b2 & b3 & b4 & b5 & b6 & e1 & e2 & e3 & e4 & e5 & e6 & Ht).
    unfold K, 適用邊緣地位種類. rewrite Ht. cbn [bind].
    destruct (驗證_marginal_tests_適用 b1 b2 b3 b4 b5 b6 e1 e2 e3 e4 e5 e6
                母 等 韻 聲 呼 類) as (H1 & H2 & H3).
    cbv zeta in H1, H2, H3. rewrite H1. cbn [assert_condition bind].
    unfold marginal_test in *. rewrite H2. cbn [bind]. rewrite H3. exact HP.
Qed.

(** X10.  Which optional attributes an accepted position has: 呼 is None
    when 母 is one of 幫滂並明 or 韻 is in 呼韻搭配["中立"], and 開 or 合
    otherwise; 類 is one of the 可用類 of 類搭配 when 等 is 三 and 母 is a
    鈍音母, and None otherwise. *)
Theorem optional_attributes_of_accepted (母 : str) (呼 : option str)
  (等 : str) (類 : option str) (韻 聲 : str)
  (邊緣地位種類 : option 邊緣地位種類指定) (P : 音韻地位) :
  音韻地位__init__ 母 呼 等 類 韻 聲 邊緣地位種類 = Ok P ->
  (exists 中立,
      dict_getitem 呼韻搭配 "中立" = Ok 中立
      /\ if str_contains "幫滂並明" 母 || str_in 韻 中立
         then 呼 = None
         else 呼 = Some ("開" : str) \/ 呼 = Some ("合" : str))
  /\ (if str_eqb 等 "三" && str_in 母 鈍音母
      then exists c 典型搭配類 可用類,
          類 = Some c /\ 類搭配 母 韻 = Ok (典型搭配類, 可用類)
          /\ str_contains 可用類 c = true
      else 類 = None).
Proof.
  unfold 音韻地位__init__. intros H. apply bind_Ok in H as ([] & Hv & _).
  unfold 驗證 in Hv.
  apply bind_Ok in Hv as ([] & _ & Hv). apply bind_Ok in Hv as ([] & _ & Hv).
  apply bind_Ok in Hv as ([] & _ & Hv). apply bind_Ok in Hv as ([] & _ & Hv).
  apply bind_Ok in Hv as ([] & H呼 & Hv). apply bind_Ok in Hv as ([] & H類 & _).
  split.
  - assert (H中立 : exists 中立, dict_getitem 呼韻搭配 "中立" = Ok 中立).
    { assert (H : has_key 呼韻搭配 "中立" = true)
        by (apply (驗證_keys_呼韻搭配 keys); now left).
      unfold has_key in H. unfold dict_getitem.
      destruct (dict_get 呼韻搭配 "中立"); [eauto|discriminate]. }
    destruct H中立 as [中立 E中立]. exists 中立. split; [exact E中立|].
    unfold 驗證_呼 in H呼. rewrite E中立 in H呼. cbn [bind] in H呼.
    destruct (str_contains "幫滂並明" 母); cbn [orb].
    { destruct 呼; [discriminate|reflexivity]. }
    destruct (str_in 韻 中立).
    { destruct 呼; [discriminate|reflexivity]. }
    assert (Hor : 呼_not_in_開合 呼 = false ->
                  呼 = Some ("開" : str) \/ 呼 = Some ("合" : str)).
    { unfold 呼_not_in_開合. destruct 呼 as [h|]; [|discriminate]. simpl.
      intros Hh. apply negb_false_iff, orb_true_iff in Hh as [Hh|Hh];
        apply str_eqb_eq in Hh; subst; auto. }
    apply bind_Ok in H呼 as (開 & _ & H呼).
    apply bind_Ok in H呼 as (合 & _ & H呼).
    apply bind_Ok in H呼 as (開合 & _ & H呼).
    destruct (str_in 韻 (開 ++ 合 ++ 開合)).
    + destruct (str_in 韻 開合).
      { apply Hor. destruct (呼_not_in_開合 呼); [discriminate|reflexivity]. }
      destruct (str_in 韻 開).
      { destruct (opt_str_eqb 呼 "開") eqn:E.
        - destruct 呼 as [h|]; [|discriminate]. simpl in E.
          apply str_eqb_eq in E. subst. auto.
        - destruct 呼; discriminate. }
      destruct (str_in 韻 合).
      { destruct (opt_str_eqb 呼 "合") eqn:E.
        - destruct 呼 as [h|]; [|discriminate]. simpl in E.
          apply str_eqb_eq in E. subst. auto.
        - destruct 呼; discriminate. }
      apply Hor. destruct (呼_not_in_開合 呼); [discriminate|reflexivity].
    + apply Hor. destruct (呼_not_in_開合 呼); [discriminate|reflexivity].
  - unfold 驗證_類 in H類.
    destruct (str_eqb 等 "三"); cbn [negb andb] in *.
    2:{ destruct 類; [discriminate|reflexivity]. }
    destruct (str_in 母 鈍音母); cbn [negb] in *.
    2:{ destruct 類; [discriminate|reflexivity]. }
    apply bind_Ok in H類 as ([典型搭配類 可用類] & E & H類).
    destruct 類 as [c|]; [|discriminate].
    exists c, 典型搭配類, 可用類. split; [reflexivity|]. split; [exact E|].
    destruct (str_contains 可用類 c); [reflexivity|].
    cbn [negb] in H類. destruct (_ && _); discriminate.
Qed.

End 驗證_further.

Lemma constructor_raises_only_ValueError_witness :
  is_ValueError
    (ValueError "invalid 音韻地位 <明,合,一,,魂,平>: unexpected 呼 for 脣音")
  = true.
Proof.
  apply (@constructor_raises_only_ValueError 切韻常量 eq_refl
           "明" (Some ("合" : str)) "一" None "魂" "平" None).
  reflexivity.
Defined.

Lemma unchecked_accepts_what_some_kinds_accept_witness :
  音韻地位__init__ "匣" None "三" (Some ("C" : str)) "東" "平"
                   (Some (as_list ["匣母三等" : str]))
  = Ok (Mk音韻地位 "匣" None "三" (Some ("C" : str)) "東" "平").
Proof.
  apply (@unchecked_accepts_what_some_kinds_accept 切韻常量 eq_refl
           "匣" None "三" (Some ("C" : str)) "東" "平").
  reflexivity.
Defined.

Lemma optional_attributes_of_accepted_witness :
  (exists 中立,
      dict_getitem 呼韻搭配 "中立" = Ok 中立
      /\ if str_contains "幫滂並明" "云" || str_in "真" 中立
         then Some ("合" : str) = None
         else Some ("合" : str) = Some ("開" : str)
              \/ Some ("合" : str) = Some ("合" : str))
  /\ (if str_eqb "三" "三" && str_in "云" 鈍音母
      then exists c 典型搭配類 可用類,
          Some ("B" : str) = Some c
          /\ 類搭配 "云" "真" = Ok (典型搭配類, 可用類)
          /\ str_contains 可用類 c = true
      else Some ("B" : str) = None).
Proof.
  apply (@optional_attributes_of_accepted 切韻常量 eq_refl
           "云" (Some ("合" : str)) "三" (Some ("B" : str)) "真" "去" None
           (Mk音韻地位 "云" (Some ("合" : str)) "三" (Some ("B" : str))
                       "真" "去")).
  reflexivity.
Defined.


(* ===================================================================== *)
(** ** 調整 and 表達式 *)
(* ===================================================================== *)


Lemma split_run_word (w word rest : str) :
  forallb (fun c => negb (isspace c)) w = true ->
  split_run word (w ++ rest) = split_run (rev w ++ word) rest.
Proof.
  revert word. induction w as [|c w IH]; intros word H; [reflexivity|].
  simpl in H. apply andb_prop in H as [Hc Hw]. apply negb_true_iff in Hc.
  simpl. rewrite Hc, IH by exact Hw. now rewrite <- app_assoc.
Qed.

Lemma str_split_join_space (words : list str) :
  forallb is_word words = true -> str_split (join_space words) = words.
Proof.
  unfold str_split. induction words as [|w words IH]; [reflexivity|].
  intros H. simpl in H. apply andb_prop in H as [Hw Hws].
  unfold is_word in Hw. apply andb_prop in Hw as [Hne Hw].
  destruct words as [|w' words].
  - simpl. rewrite <- (app_nil_r w) at 1. rewrite split_run_word by exact Hw.
    rewrite app_nil_r. simpl. destruct w as [|c w]; [discriminate|].
    destruct (rev (c :: w)) eqn:E.
    + apply (f_equal (@length _)) in E. rewrite length_rev in E. discriminate.
    + rewrite <- E, rev_involutive. reflexivity.
  - change (join_space (w :: w' :: words))
      with (w ++ " " ++ join_space (w' :: words)).
    rewrite split_run_word by exact Hw. rewrite app_nil_r.
    change (" " ++ join_space (w' :: words))
      with (32%N :: join_space (w' :: words)).
    cbn [split_run].
    change (isspace 32%N) with true. cbv iota.
    destruct w as [|c w]; [discriminate|].
    destruct (rev (c :: w)) eqn:E.
    + apply (f_equal (@length _)) in E. rewrite length_rev in E. discriminate.
    + rewrite <- E, rev_involutive, IH by exact Hws. reflexivity.
Qed.

Lemma lstrip_word (c : char) (s : str) :
  isspace c = false -> lstrip (c :: s) = c :: s.
Proof. intros H. simpl. now rewrite H. Qed.

Lemma strip_words (c c' : char) (s : str) :
  isspace c = false -> isspace c' = false ->
  strip (c :: s ++ [c']) = c :: s ++ [c'].
Proof.
  intros H H'. unfold strip. rewrite lstrip_word by exact H.
  assert (E : rev (c :: s ++ [c']) = c' :: rev (c :: s)).
  { change (c :: s ++ [c']) with ((c :: s) ++ [c']).
    now rewrite rev_app_distr. }
  rewrite E, lstrip_word by exact H'.
  rewrite <- E. apply rev_involutive.
Qed.

Lemma strip_id (s : str) :
  match s with c :: _ => isspace c | [] => false end = false ->
  match rev s with c :: _ => isspace c | [] => false end = false ->
  strip s = s.
Proof.
  intros H H'. unfold strip.
  assert (E : lstrip s = s) by (destruct s as [|c s]; [|simpl; rewrite H]; reflexivity).
  rewrite E.
  assert (E' : lstrip (rev s) = rev s)
    by (destruct (rev s) as [|c r]; [|simpl; rewrite H']; reflexivity).
  rewrite E'. apply rev_involutive.
Qed.

Lemma isspace_newline (c : char) : isspace c = false -> (c =? 10)%N = false.
Proof.
  intros H. destruct (N.eqb_spec c 10); [subst c; discriminate|reflexivity].
Qed.

Section 調整_properties.
Context {常 : 音韻屬性常量}.

Lemma 調整_tokens_assign (c k : char) (rest : list str)
  (屬性object : dict (option str)) :
  isspace c = false -> str_contains "母口等類韻聲" [k] = true ->
  調整_tokens ([c; k] :: rest) 屬性object
  = (o <- set_attr 屬性object (if str_eqb [k] "口" then "呼" else [k])
                   (Some [c]) ;;
     調整_tokens rest o).
Proof.
  intros Hc Hk. cbn [調整_tokens].
  assert (E1 : str_eqb [c; k] "開合中立" = false)
    by (cbn [str_eqb chars]; now rewrite !andb_false_r).
  assert (E2 : str_eqb [c; k] "不分類" = false)
    by (cbn [str_eqb chars]; now rewrite !andb_false_r).
  rewrite E1, E2. unfold match_value_key.
  rewrite (isspace_newline _ Hc), Hk. reflexivity.
Qed.

Lemma 調整_tokens_開合中立 (rest : list str)
  (屬性object : dict (option str)) :
  調整_tokens (("開合中立" : str) :: rest) 屬性object
  = (o <- set_attr 屬性object "呼" None ;; 調整_tokens rest o).
Proof. reflexivity. Qed.

Lemma 調整_tokens_不分類 (rest : list str)
  (屬性object : dict (option str)) :
  調整_tokens (("不分類" : str) :: rest) 屬性object
  = (o <- set_attr 屬性object "類" None ;; 調整_tokens rest o).
Proof. reflexivity. Qed.

Lemma 調整_tokens_nil (屬性object : dict (option str)) :
  調整_tokens [] 屬性object = Ok 屬性object.
Proof. reflexivity. Qed.

Local Arguments 音韻地位__init__ : simpl never.
Local Arguments 調整_tokens : simpl never.

Ltac 調整_step :=
  first [ rewrite 調整_tokens_assign by (assumption || reflexivity)
        | rewrite 調整_tokens_開合中立
        | rewrite 調整_tokens_不分類
        | rewrite 調整_tokens_nil ];
  cbn.

(** X11.  調整 reads the 表達式 of a position back: for any positions P
    and Q, where the attributes of Q are single characters that are not
    white space (as every entry of the 切韻 tables is), P.調整(Q.表達式)
    is the constructor applied to the six attributes of Q; nothing of P
    is kept.  (The numbers below are the key characters 母 27597, 口 21475,
    等 31561, 類 39006, 韻 38907 and 聲 32882.) *)
Theorem adjust_by_expression (P Q : 音韻地位)
  (邊緣地位種類 : option 邊緣地位種類指定) :
  屬性_chars Q = true ->
  調整 P (調整_str (表達式 Q)) 邊緣地位種類
  = 音韻地位__init__ (母 Q) (呼 Q) (等 Q) (類 Q) (韻 Q) (聲 Q) 邊緣地位種類.
Proof.
  destruct Q as [m h d l y s]. unfold 屬性_chars. cbn [母 呼 等 類 韻 聲].
  rewrite !andb_true_iff. intros [[[[[Hm Hh] Hd] Hl] Hy] Hs].
  destruct m as [|cm [|? ?]]; try discriminate.
  destruct d as [|cd [|? ?]]; try discriminate.
  destruct y as [|cy [|? ?]]; try discriminate.
  destruct s as [|cs [|? ?]]; try discriminate.
  cbn [attr_char] in Hm, Hd, Hy, Hs. apply negb_true_iff in Hm, Hd, Hy, Hs.
  rewrite <- (音韻地位__init___or_empty _ _ _ _ _ _ 邊緣地位種類).
  assert (Hsplit : forall words,
             表達式 (Mk音韻地位 [cm] h [cd] l [cy] [cs]) = join_space words ->
             forallb is_word words = true ->
             str_split (strip (表達式 (Mk音韻地位 [cm] h [cd] l [cy] [cs])))
             = words).
  { intros words E Hw. rewrite strip_id.
    - rewrite E. now apply str_split_join_space.
    - cbn. exact Hm.
    - unfold 表達式. cbn [母 呼 等 類 韻 聲]. rewrite !app_assoc.
      rewrite rev_app_distr. reflexivity. }
  unfold 調整.
  destruct h as [[|ch [|? ?]]|], l as [[|cl [|? ?]]|]; try discriminate;
    cbn [opt_attr_char attr_char] in Hh, Hl;
    try apply negb_true_iff in Hh; try apply negb_true_iff in Hl.
  - rewrite (Hsplit [[cm; 27597%N]; [ch; 21475%N]; [cd; 31561%N];
                     [cl; 39006%N]; [cy; 38907%N]; [cs; 32882%N]]).
    + repeat 調整_step. reflexivity.
    + reflexivity.
    + cbn. rewrite Hm, Hh, Hd, Hl, Hy, Hs. reflexivity.
  - rewrite (Hsplit [[cm; 27597%N]; [ch; 21475%N]; [cd; 31561%N];
                     "不分類" : str; [cy; 38907%N]; [cs; 32882%N]]).
    + repeat 調整_step. reflexivity.
    + reflexivity.
    + cbn. rewrite Hm, Hh, Hd, Hy, Hs. reflexivity.
  - rewrite (Hsplit [[cm; 27597%N]; "開合中立" : str; [cd; 31561%N];
                     [cl; 39006%N]; [cy; 38907%N]; [cs; 32882%N]]).
    + repeat 調整_step. reflexivity.
    + reflexivity.
    + cbn. rewrite Hm, Hd, Hl, Hy, Hs. reflexivity.
  - rewrite (Hsplit [[cm; 27597%N]; "開合中立" : str; [cd; 31561%N];
                     "不分類" : str; [cy; 38907%N]; [cs; 32882%N]]).
    + repeat 調整_step. reflexivity.
    + reflexivity.
    + cbn. rewrite Hm, Hd, Hy, Hs. reflexivity.
Qed.

End 調整_properties.

Lemma adjust_by_expression_witness :
  調整 (Mk音韻地位 "幫" None "三" (Some ("C" : str)) "凡" "入")
       (調整_str (表達式 (Mk音韻地位 "見" (Some ("開" : str)) "一" None
                                      "寒" "平")))
       None
  = 音韻地位__init__ "見" (Some ("開" : str)) "一" None "寒" "平" None.
Proof.
  apply (@adjust_by_expression 切韻常量
           (Mk音韻地位 "幫" None "三" (Some ("C" : str)) "凡" "入")
           (Mk音韻地位 "見" (Some ("開" : str)) "一" None "寒" "平") None).
  reflexivity.
Defined.

(* ===================================================================== *)
(** ** 屬於: 或, juxtaposition, precedence and parentheses *)
(* ===================================================================== *)

Section 屬於_operators.
Context {常 : 音韻屬性常量}.
Variable P : 音韻地位.

(** The tokens 屬於 builds for a predicate token that evaluates. *)
Lemma segment_tokens_operand (X : str) (bx : bool) (rest : list str) :
  _tokenize X = [X] -> 屬於 P [X] [] = Ok bx ->
  segment_tokens P (X :: rest)
  = (ts <- segment_tokens P rest ;; Ok ((BOOL bx, X) :: ts)).
Proof.
  intros HX EX. destruct (single_token_eval P HX EX) as [[rx Cx] Vx].
  cbn [segment_tokens]. rewrite Cx, Vx. reflexivity.
Qed.

Lemma segment_tokens_marker (raw : str) (m : marker) (rest : list str) :
  _classify_token raw = inl m ->
  segment_tokens P (raw :: rest)
  = (ts <- segment_tokens P rest ;; Ok ((MARK m, raw) :: ts)).
Proof. intros H. cbn [segment_tokens]. rewrite H. reflexivity. Qed.

Ltac tokens :=
  rewrite ?_tokenize_space;
  repeat match goal with
         | H : _tokenize ?X = [?X] |- _ => rewrite H
         end;
  change (_tokenize "或") with ["或" : str];
  change (_tokenize "且") with ["且" : str];
  change (_tokenize "非") with ["非" : str];
  change (_tokenize "(") with ["(" : str];
  change (_tokenize ")") with [")" : str];
  cbn [app];
  repeat first
    [ erewrite segment_tokens_operand by eassumption
    | erewrite segment_tokens_marker by reflexivity ];
  cbn.

(** X12.  How 屬於 combines predicates.  For predicate tokens X, Y and Z
    that evaluate against P to bx, by and bz: 或 is disjunction; two
    predicates written side by side are a conjunction; 且 binds tighter
    than 或; parentheses override that; 非 binds tighter than 且. *)
Theorem operator_precedence (X Y Z : str) (bx by_ bz : bool) :
  _tokenize X = [X] -> _tokenize Y = [Y] -> _tokenize Z = [Z] ->
  屬於 P [X] [] = Ok bx -> 屬於 P [Y] [] = Ok by_ -> 屬於 P [Z] [] = Ok bz ->
  屬於 P [X ++ " 或 " ++ Y] [] = Ok (bx || by_)
  /\ 屬於 P [X ++ " " ++ Y] [] = Ok (bx && by_)
  /\ 屬於 P [X ++ " 或 " ++ Y ++ " 且 " ++ Z] [] = Ok (bx || by_ && bz)
  /\ 屬於 P ["( " ++ X ++ " 或 " ++ Y ++ " ) 且 " ++ Z] []
     = Ok ((bx || by_) && bz)
  /\ 屬於 P ["非 " ++ X ++ " 且 " ++ Y] [] = Ok (negb bx && by_).
Proof.
  intros HX HY HZ EX EY EZ.
  repeat split; unfold 屬於, 屬於_body; cbn [build_tokens].
  - change (X ++ " 或 " ++ Y) with (X ++ " " ++ ("或" ++ " " ++ Y)).
    tokens. destruct bx, by_; reflexivity.
  - tokens. destruct bx, by_; reflexivity.
  - change (X ++ " 或 " ++ Y ++ " 且 " ++ Z)
      with (X ++ " " ++ ("或" ++ " " ++ (Y ++ " " ++ ("且" ++ " " ++ Z)))).
    tokens. destruct bx, by_, bz; reflexivity.
  - change ("( " ++ X ++ " 或 " ++ Y ++ " ) 且 " ++ Z)
      with ("(" ++ " " ++ (X ++ " " ++ ("或" ++ " " ++ (Y ++ " " ++
              (")" ++ " " ++ ("且" ++ " " ++ Z)))))).
    tokens. destruct bx, by_, bz; reflexivity.
  - change ("非 " ++ X ++ " 且 " ++ Y)
      with ("非" ++ " " ++ (X ++ " " ++ ("且" ++ " " ++ Y))).
    tokens. destruct bx, by_; reflexivity.
Qed.

End 屬於_operators.

Lemma operator_precedence_witness :
  let P := Mk音韻地位 "幫" None "三" (Some ("C" : str)) "凡" "入" in
  屬於 P ["見母 或 三等" : str] [] = Ok (false || true)
  /\ 屬於 P ["見母 三等" : str] [] = Ok (false && true)
  /\ 屬於 P ["見母 或 三等 且 平聲" : str] [] = Ok (false || true && false)
  /\ 屬於 P ["( 見母 或 三等 ) 且 平聲" : str] [] = Ok ((false || true) && false)
  /\ 屬於 P ["非 見母 且 三等" : str] [] = Ok (negb false && true).
Proof.
  apply (@operator_precedence 切韻常量
           (Mk音韻地位 "幫" None "三" (Some ("C" : str)) "凡" "入")
           "見母" "三等" "平聲" false true false); reflexivity.
Defined.

(* ===================================================================== *)
(** ** 判斷: the first matching row and exhaustion *)
(* ===================================================================== *)


Section 判斷_scan.
Context {常 : 音韻屬性常量}.
Variable self : 音韻地位.

Lemma loop_prefix (fall_through : bool) (before rest : list pyobj) :
  Forall (passed_over self fall_through) before ->
  loop self fall_through (PyList (before ++ rest))
  = loop self fall_through (PyList rest).
Proof.
  induction 1 as [|r before Hr _ IH]; [reflexivity|].
  cbn [app]. rewrite loop_passed_over by assumption. exact IH.
Qed.

(** X13.  The first row whose condition holds decides: when every row
    before it is passed over and its result is not itself a rule list,
    判斷 returns that result, whatever rows follow and whatever [throws]
    and [fall_through] are. *)
Theorem first_matching_row_wins (before after : list pyobj)
  (row 表達式 結果 : pyobj) (throws : throws_arg) (fall_through : bool) :
  Forall (passed_over self fall_through) before ->
  row = PyList [表達式; 結果] \/ row = PyTuple [表達式; 結果] ->
  row_condition self 表達式 = Ok true ->
  is_rule_list 結果 = false ->
  判斷 self (before ++ row :: after) throws fall_through = Ok 結果.
Proof.
  intros Hbefore Hrow Hcond Hlist. unfold 判斷.
  rewrite loop_prefix by assumption.
  destruct Hrow as [-> | ->]; cbn [loop]; rewrite Hcond; cbn [bind];
    rewrite Hlist; reflexivity.
Qed.

(** X14.  When every row is passed over, 判斷 returns None if [throws]
    is False, and raises ValueError with the message 未涵蓋所有條件 or the
    string given as [throws] otherwise.  The same happens, without
    [fall_through], at a row whose condition holds and whose result is an
    empty list: the empty list counts as an exhausted nested rule list and
    is never returned, and the rows after it are not looked at. *)
Theorem exhausted_rules (rows after : list pyobj) (表達式 : pyobj)
  (throws : throws_arg) (fall_through : bool) :
  Forall (passed_over self fall_through) rows ->
  判斷 self rows throws fall_through = 未涵蓋 throws
  /\ (row_condition self 表達式 = Ok true -> fall_through = false ->
      判斷 self (rows ++ PyTuple [表達式; PyList []] :: after) throws
           fall_through
      = 未涵蓋 throws).
Proof.
  intros Hrows. unfold 判斷. split.
  - rewrite <- (app_nil_r rows), loop_prefix by assumption.
    destruct throws as [[]|]; reflexivity.
  - intros Hcond ->. rewrite loop_prefix by assumption.
    cbn [loop]. rewrite Hcond. destruct throws as [[]|]; reflexivity.
Qed.

End 判斷_scan.

Lemma first_matching_row_wins_witness :
  判斷 (Mk音韻地位 "幫" None "三" (Some ("C" : str)) "凡" "入")
       ([PyTuple [PyStr "見母"; PyInt 1]]
        ++ PyTuple [PyStr "幫組"; PyInt 2] :: [PyTuple [PyStr "入聲"; PyInt 3]])
       (throws_bool true) false
  = Ok (PyInt 2).
Proof.
  apply (@first_matching_row_wins 切韻常量
           (Mk音韻地位 "幫" None "三" (Some ("C" : str)) "凡" "入")
           [PyTuple [PyStr "見母"; PyInt 1]] [PyTuple [PyStr "入聲"; PyInt 3]]
           (PyTuple [PyStr "幫組"; PyInt 2])
           (PyStr "幫組") (PyInt 2) (throws_bool true) false).
  - constructor; [|constructor].
    exists (PyStr "見母"), (PyInt 1). split; [now right|now left].
  - now right.
  - reflexivity.
  - reflexivity.
Defined.

Lemma exhausted_rules_witness :
  let P := Mk音韻地位 "幫" None "三" (Some ("C" : str)) "凡" "入" in
  判斷 P [PyTuple [PyStr "見母"; PyInt 1]] (throws_str "無") false
  = 未涵蓋 (throws_str "無")
  /\ (row_condition P (PyStr "幫組") = Ok true -> false = false ->
      判斷 P ([PyTuple [PyStr "見母"; PyInt 1]]
              ++ PyTuple [PyStr "幫組"; PyList []] :: [])
           (throws_str "無") false
      = 未涵蓋 (throws_str "無")).
Proof.
  apply (@exhausted_rules 切韻常量
           (Mk音韻地位 "幫" None "三" (Some ("C" : str)) "凡" "入")
           [PyTuple [PyStr "見母"; PyInt 1]] [] (PyStr "幫組")
           (throws_str "無") false).
  constructor; [|constructor].
  exists (PyStr "見母"), (PyInt 1). split; [now right|now left].
Defined.

(* ===================================================================== *)
(** ** 執行反切: the log, the results and totality *)
(* ===================================================================== *)


Lemma only_appends_ret {A} (a : A) : only_appends (ret a).
Proof.
  intros [en ms]. exists []. simpl. now rewrite app_nil_r.
Qed.

Lemma only_appends_lift {A} (r : result A) : only_appends (lift r).
Proof.
  intros [en ms]. exists []. simpl. now rewrite app_nil_r.
Qed.

Lemma only_appends_logging (message : str) : only_appends (logging message).
Proof.
  intros [[] ms]; unfold logging, log; simpl.
  - exists [message]. split; [reflexivity|discriminate].
  - exists []. now rewrite app_nil_r.
Qed.

Lemma only_appends_bind {A B} (c : logged A) (k : A -> logged B) :
  only_appends c -> (forall a, only_appends (k a)) -> only_appends (bind_logged c k).
Proof.
  intros Hc Hk logger. unfold bind_logged.
  destruct (Hc logger) as (new & E & Hnew).
  destruct (c logger) as [[a|e] logger']; simpl in E; subst logger'.
  - destruct (Hk a {| enable := enable logger;
                      _messages := _messages logger ++ new |})
      as (new' & E' & Hnew').
    exists (new ++ new'). simpl in E', Hnew'. rewrite E', app_assoc.
    split; [reflexivity|]. intros H. now rewrite Hnew, Hnew'.
  - exists new. auto.
Qed.

Lemma only_appends_log_all (messages : list str) : only_appends (log_all messages).
Proof.
  induction messages as [|m rest IH]; [apply only_appends_ret|].
  apply only_appends_bind; [apply only_appends_logging|intros _; exact IH].
Qed.

Ltac only_appends_step :=
  first
    [ apply only_appends_ret
    | apply only_appends_lift
    | apply only_appends_logging
    | apply only_appends_log_all
    | apply only_appends_bind; [|intros ?]
    | match goal with
      | |- only_appends (if ?b then _ else _) => destruct b
      | |- only_appends (match ?x with _ => _ end) => destruct x
      end ].

Section 反切_further.
Context {常 : 音韻屬性常量}.

Lemma only_appends_generate呼 (母 : str) (組 : option str) (韻 : str)
  (上字呼 下字呼 下字組 : option str) :
  only_appends (generate呼 母 組 韻 上字呼 下字呼 下字組).
Proof. unfold generate呼, in_bucket. repeat only_appends_step. Qed.

Lemma only_appends_generate等 (母 韻 上字等 下字等 : str) :
  only_appends (generate等 母 韻 上字等 下字等).
Proof.
  unfold generate等, in_bucket, or_bucket, unreachable_等. repeat only_appends_step.
Qed.

(** X15.  執行反切 only appends to the log: whether it returns or raises,
    the logger keeps its [enable] flag and the messages it had, in their
    order, followed by the new ones; a disabled logger (the default)
    receives none. *)
Theorem fanqie_only_appends_to_log (上字音韻地位 下字音韻地位 : 音韻地位)
  (logger : StringLogger) :
  exists new,
    snd (執行反切 上字音韻地位 下字音韻地位 logger)
    = {| enable := enable logger; _messages := _messages logger ++ new |}
    /\ (enable logger = false -> new = []).
Proof.
  revert logger. change (only_appends (執行反切 上字音韻地位 下字音韻地位)).
  unfold 執行反切.
  apply only_appends_bind; [apply only_appends_lift|intros 組_].
  apply only_appends_bind; [apply only_appends_logging|intros _].
  apply only_appends_bind; [apply only_appends_lift|intros 下字組].
  apply only_appends_bind; [apply only_appends_logging|intros _].
  apply only_appends_bind; [apply only_appends_generate呼|intros 所有呼].
  apply only_appends_bind; [apply only_appends_generate等|intros 所有等].
  apply only_appends_bind; [apply only_appends_lift|intros st].
  repeat only_appends_step.
Qed.

Lemma 音韻地位__init___Ok (m : str) (h : option str) (d : str)
  (l : option str) (y s : str) (kinds : option 邊緣地位種類指定)
  (P : 音韻地位) :
  音韻地位__init__ m h d l y s kinds = Ok P -> P = Mk音韻地位 m h d l y s.
Proof.
  unfold 音韻地位__init__. intros H. now apply bind_Ok in H as ([] & _ & [= <-]).
Qed.

Lemma 反切_類_results (上字 下字 : 音韻地位) (h : option str) (d : str)
  (類列表 : list (option str)) (st st' : 反切狀態) :
  反切_類 (母 上字) h d (韻 下字) (聲 下字) 類列表 st = Ok st' ->
  Forall (被切字 上字 下字) (results st) ->
  Forall (被切字 上字 下字) (results st').
Proof.
  revert st. induction 類列表 as [|l rest IH]; intros st; cbn [反切_類].
  - now intros [= <-].
  - destruct (音韻地位__init__ (母 上字) h d l (韻 下字) (聲 下字) None)
      as [P|[msg| | | |]] eqn:E; try discriminate.
    + intros H Hst. apply IH in H; [exact H|]. cbn [results].
      apply Forall_app. split; [exact Hst|]. constructor; [|constructor].
      pose proof (音韻地位__init___Ok _ _ _ _ _ _ _ E) as ->.
      unfold 被切字. cbn [母 呼 等 類 韻 聲]. auto.
    + intros H Hst. apply IH in H; [exact H|exact Hst].
Qed.

Lemma 反切_等_results (上字 下字 : 音韻地位) (組_ : option str)
  (所有呼 : list (option str)) (所有等 : list str) (h : option str)
  (等s : list str) (st st' : 反切狀態) :
  反切_等 上字 下字 組_ 所有呼 所有等 h 等s st = Ok st' ->
  Forall (被切字 上字 下字) (results st) ->
  Forall (被切字 上字 下字) (results st').
Proof.
  revert st. induction 等s as [|d rest IH]; intros st; cbn [反切_等].
  - now intros [= <-].
  - intros H Hst. apply bind_Ok in H as (決策 & _ & H).
    apply bind_Ok in H as (st2 & H2 & H).
    apply IH in H; [exact H|]. eapply 反切_類_results; [exact H2|exact Hst].
Qed.

Lemma 反切_呼_results (上字 下字 : 音韻地位) (組_ : option str)
  (所有呼 : list (option str)) (所有等 : list str)
  (呼s : list (option str)) (st st' : 反切狀態) :
  反切_呼 上字 下字 組_ 所有呼 所有等 呼s st = Ok st' ->
  Forall (被切字 上字 下字) (results st) ->
  Forall (被切字 上字 下字) (results st').
Proof.
  revert st. induction 呼s as [|h rest IH]; intros st; cbn [反切_呼].
  - now intros [= <-].
  - intros H Hst. apply bind_Ok in H as (st1 & H1 & H).
    apply IH in H; [exact H|]. eapply 反切_等_results; [exact H1|exact Hst].
Qed.

Lemma bind_logged_Ok {A B} (c : logged A) (k : A -> logged B)
  (logger : StringLogger) (b : B) :
  fst (bind_logged c k logger) = Ok b ->
  exists a logger', c logger = (Ok a, logger') /\ fst (k a logger') = Ok b.
Proof.
  unfold bind_logged. destruct (c logger) as [[a|e] logger']; simpl.
  - intros H. now exists a, logger'.
  - discriminate.
Qed.

(** X16.  Every position 執行反切 returns is a candidate of the 反切: it
    has the initial of the upper character and the rime and the tone of
    the lower character, and the constructor accepts it without marginal
    kinds. *)
Theorem fanqie_results_are_candidates (上字音韻地位 下字音韻地位 : 音韻地位)
  (logger : StringLogger) (結果 : list 音韻地位) :
  fst (執行反切 上字音韻地位 下字音韻地位 logger) = Ok 結果 ->
  Forall (被切字 上字音韻地位 下字音韻地位) 結果.
Proof.
  unfold 執行反切. intros H.
  apply bind_logged_Ok in H as (組_ & lg1 & _ & H).
  apply bind_logged_Ok in H as (? & lg2 & _ & H).
  apply bind_logged_Ok in H as (下字組 & lg3 & _ & H).
  apply bind_logged_Ok in H as (? & lg4 & _ & H).
  apply bind_logged_Ok in H as (所有呼 & lg5 & _ & H).
  apply bind_logged_Ok in H as (所有等 & lg6 & _ & H).
  apply bind_logged_Ok in H as (st & lg7 & Hst & H).
  apply bind_logged_Ok in H as (? & lg8 & _ & H).
  apply bind_logged_Ok in H as (? & lg9 & _ & H).
  injection H as <-. unfold lift in Hst. injection Hst as Hst _.
  eapply 反切_呼_results; [exact Hst|]. constructor.
Qed.

End 反切_further.

Lemma fanqie_results_are_candidates_witness :
  Forall (被切字 (Mk音韻地位 "端" (Some ("開" : str)) "一" None "登" "入")
                 (Mk音韻地位 "匣" None "一" None "東" "平"))
         [Mk音韻地位 "端" None "一" None "東" "平"].
Proof.
  apply (@fanqie_results_are_candidates 切韻常量
           (Mk音韻地位 "端" (Some ("開" : str)) "一" None "登" "入")
           (Mk音韻地位 "匣" None "一" None "東" "平")
           {| enable := false; _messages := [] |}).
  reflexivity.
Defined.

Section 反切_totality.

Local Arguments 音 : simpl never.
Local Arguments 攝 : simpl never.
Local Arguments 組 : simpl never.
Local Arguments 清濁 : simpl never.

Lemma 屬於_A類_或_以母_或_精組 (P : 音韻地位) (a b : str) (c : option str) :
  音 P = Ok a -> 攝 P = Ok b -> 組 P = Ok c ->
  exists r, 屬於 P ["A類 或 以母 或 精組" : str] [] = Ok r.
Proof.
  intros Ha Hb Hc. unfold 屬於, 屬於_body. cbn [build_tokens].
  replace (_tokenize "A類 或 以母 或 精組")
    with ["A類" : str; "或" : str; "以母" : str; "或" : str; "精組" : str]
    by (vm_compute; reflexivity).
  cbn [segment_tokens].
  change (_classify_token "A類") with (@inr marker str "A類").
  change (_classify_token "以母") with (@inr marker str "以母").
  change (_classify_token "精組") with (@inr marker str "精組").
  change (_classify_token "或") with (@inl marker str OR).
  unfold _eval_token. cbn. rewrite Ha, Hb, Hc. cbn.
  destruct (類 P) as [l|], c as [g|]; cbn;
    repeat match goal with
           | |- context [if ?b then _ else _] => destruct b
           end; eauto.
Qed.

Lemma 屬於_B類_或_云母 (P : 音韻地位) (a b : str) (c : option str) :
  音 P = Ok a -> 攝 P = Ok b -> 組 P = Ok c ->
  exists r, 屬於 P ["B類 或 云母" : str] [] = Ok r.
Proof.
  intros Ha Hb Hc. unfold 屬於, 屬於_body. cbn [build_tokens].
  replace (_tokenize "B類 或 云母")
    with ["B類" : str; "或" : str; "云母" : str]
    by (vm_compute; reflexivity).
  cbn [segment_tokens].
  change (_classify_token "B類") with (@inr marker str "B類").
  change (_classify_token "云母") with (@inr marker str "云母").
  change (_classify_token "或") with (@inl marker str OR).
  unfold _eval_token. cbn. rewrite Ha, Hb, Hc. cbn.
  destruct (類 P) as [l|]; cbn;
    repeat match goal with
           | |- context [if ?b then _ else _] => destruct b
           end; eauto.
Qed.



Local Arguments str_in : simpl never.

Lemma generate呼_Ok (母 : str) (組_ : option str) (韻 : str)
  (上字呼 下字呼 下字組 : option str) (logger : StringLogger) :
  exists 所有呼 logger',
    generate呼 母 組_ 韻 上字呼 下字呼 下字組 logger = (Ok 所有呼, logger').
Proof.
  unfold generate呼, in_bucket, bind_logged, lift, ret, logging. cbn.
  repeat match goal with
         | |- context [if ?b then _ else _] => destruct b; cbn
         end; eauto.
Qed.

Lemma generate等_Ok (母 韻 上字等 下字等 : str) (logger : StringLogger) :
  等韻_covered 韻 = true ->
  exists 所有等 logger',
    generate等 母 韻 上字等 下字等 logger = (Ok 所有等, logger').
Proof.
  unfold 等韻_covered. cbn. intros H.
  unfold generate等, in_bucket, or_bucket, unreachable_等, bind_logged, lift,
    ret, logging. cbn.
  repeat match goal with
         | |- context [if ?b then _ else _] => destruct b eqn:?; cbn
         end; eauto;
    repeat match goal with
           | E : str_in _ _ = false |- _ => rewrite E in H; clear E
           end; discriminate.
Qed.

Lemma has_key_getitem {V} (d : dict V) (k : str) :
  has_key d k = true -> exists v, dict_getitem d k = Ok v.
Proof.
  unfold has_key, dict_getitem. destruct (dict_get d k); [eauto|discriminate].
Qed.

Lemma rawGenerate類_Ok (下字 : 音韻地位) (m : str) (組_ : option str)
  (y : str) (上字類 h : option str) (d : str) :
  (exists r, 屬於 下字 ["A類 或 以母 或 精組" : str] [] = Ok r) ->
  (exists r, 屬於 下字 ["B類 或 云母" : str] [] = Ok r) ->
  exists 決策, rawGenerate類 下字 m 組_ y 上字類 h d = Ok 決策.
Proof.
  intros [ra Ea] [rb Eb]. unfold rawGenerate類. rewrite Ea, Eb. cbn [bind].
  repeat match goal with
         | |- context [if ?b then _ else _] => destruct b
         end; eauto.
Qed.

Lemma 反切_tables_checked : 反切_tables = true.
Proof. vm_compute. reflexivity. Qed.

Lemma 反切_lookups (P : 音韻地位) (kinds : option 邊緣地位種類指定) :
  音韻地位__init__ (母 P) (呼 P) (等 P) (類 P) (韻 P) (聲 P) kinds = Ok P ->
  (exists a, 音 P = Ok a) /\ (exists b, 攝 P = Ok b)
  /\ (exists c, 組 P = Ok c) /\ 等韻_covered (韻 P) = true.
Proof.
  unfold 音韻地位__init__. intros H. apply bind_Ok in H as ([] & Hv & _).
  apply 驗證_domains in Hv as (Dm & _ & _ & _ & Dy & _).
  pose proof 反切_tables_checked as Ht. unfold 反切_tables in Ht.
  apply andb_prop in Ht as [Hm Hy]. rewrite forallb_forall in Hm, Hy.
  specialize (Hm _ Dm). specialize (Hy _ Dy).
  apply andb_prop in Hm as [Hm1 Hm2]. apply andb_prop in Hy as [Hy1 Hy2].
  unfold 音, 攝, 組. auto using has_key_getitem.
Qed.

(** X17.  On positions built by the constructor 執行反切 always returns:
    the lookups of 組 succeed, generate呼 and generate等 find a bucket for
    every rime of the inventory (the RuntimeError of generate等 is indeed
    unreachable), and the two expressions rawGenerate類 passes to 屬於
    evaluate.  (For the tables of 切韻常量.) *)
Theorem fanqie_never_raises (上字音韻地位 下字音韻地位 : 音韻地位)
  (上字種類 下字種類 : option 邊緣地位種類指定) (logger : StringLogger) :
  音韻地位__init__ (母 上字音韻地位) (呼 上字音韻地位) (等 上字音韻地位)
                   (類 上字音韻地位) (韻 上字音韻地位) (聲 上字音韻地位)
                   上字種類 = Ok 上字音韻地位 ->
  音韻地位__init__ (母 下字音韻地位) (呼 下字音韻地位) (等 下字音韻地位)
                   (類 下字音韻地位) (韻 下字音韻地位) (聲 下字音韻地位)
                   下字種類 = Ok 下字音韻地位 ->
  exists 結果, fst (執行反切 上字音韻地位 下字音韻地位 logger) = Ok 結果.
Proof.
  intros H上 H下.
  apply 反切_lookups in H上 as (_ & _ & [c上 Hc上] & _).
  apply 反切_lookups in H下 as ([a Ha] & [b Hb] & [c下 Hc下] & Hcover).
  destruct (fst (執行反切 上字音韻地位 下字音韻地位 logger)) as [結果|e] eqn:E;
    [now exists 結果|exfalso].
  apply (@執行反切_Raise 切韻常量 eq_refl) in E.
  destruct E as [E|[E|[E|[E|E]]]].
  - rewrite Hc上 in E. discriminate.
  - rewrite Hc下 in E. discriminate.
  - destruct E as (組_ & 下字組 & lg & E).
    destruct (generate呼_Ok (母 上字音韻地位) 組_ (韻 下字音韻地位)
                (呼 上字音韻地位) (呼 下字音韻地位) 下字組 lg)
      as (l & lg' & E').
    rewrite E' in E. discriminate.
  - destruct E as (lg & E).
    destruct (generate等_Ok (母 上字音韻地位) (韻 下字音韻地位)
                (等 上字音韻地位) (等 下字音韻地位) lg Hcover)
      as (l & lg' & E').
    rewrite E' in E. discriminate.
  - destruct E as (組_ & h & d & E).
    destruct (@rawGenerate類_Ok 下字音韻地位 (母 上字音韻地位) 組_
                (韻 下字音韻地位) (類 上字音韻地位) h d
                (屬於_A類_或_以母_或_精組 _ Ha Hb Hc下)
                (屬於_B類_或_云母 _ Ha Hb Hc下)) as (r & E').
    rewrite E' in E. discriminate.
Qed.

End 反切_totality.

Lemma fanqie_never_raises_witness :
  exists 結果,
    fst (執行反切 (Mk音韻地位 "幫" None "三" (Some ("C" : str)) "凡" "入")
                  (Mk音韻地位 "見" (Some ("開" : str)) "三" (Some ("C" : str))
                              "之" "平")
                  {| enable := true; _messages := [] |})
    = Ok 結果.
Proof.
  apply (@fanqie_never_raises
           (Mk音韻地位 "幫" None "三" (Some ("C" : str)) "凡" "入")
           (Mk音韻地位 "見" (Some ("開" : str)) "三" (Some ("C" : str))
                       "之" "平")
           None None); reflexivity.
Defined.

(* ===================================================================== *)
(** ** _tokenize: what the tokens keep *)
(* ===================================================================== *)

Lemma take_run_filter (ch : char) (s : str) :
  isspace ch = false ->
  without_spaces (fst (take_run ch s)) = fst (take_run ch s).
Proof.
  intros H. induction s as [|c r IH]; simpl; [reflexivity|].
  destruct (N.eqb_spec c ch); [|reflexivity]. subst c.
  destruct (take_run ch r) as [run rest]. simpl in *.
  now rewrite H, IH.
Qed.

Lemma take_word_filter (s : str) :
  without_spaces (fst (take_word s)) = fst (take_word s).
Proof.
  induction s as [|c r IH]; simpl; [reflexivity|].
  destruct (is_word_char c) eqn:E; [|reflexivity].
  destruct (take_word r) as [w rest]. simpl in *.
  unfold is_word_char in E. apply andb_prop in E as [E _].
  now rewrite E, IH.
Qed.

Lemma without_spaces_app (a b : str) :
  without_spaces (a ++ b) = without_spaces a ++ without_spaces b.
Proof. apply filter_app. Qed.

Lemma _tokenize_loop_concat (fuel : nat) (s : str) :
  (length s <= fuel)%nat ->
  concat (_tokenize_loop fuel s) = without_spaces s
  /\ Forall (fun token => is_empty token = false) (_tokenize_loop fuel s).
Proof.
  revert s. induction fuel as [|fuel IH]; intros s Hs.
  - destruct s; [|simpl in Hs; lia]. split; [reflexivity|constructor].
  - destruct s as [|ch rest]; [split; [reflexivity|constructor]|].
    simpl in Hs. cbn [_tokenize_loop].
    destruct (isspace ch) eqn:E1.
    { destruct (IH rest ltac:(lia)) as [Hc Hf]. split; [|exact Hf].
      rewrite Hc. unfold without_spaces. simpl. now rewrite E1. }
    destruct (str_contains "()!~" [ch]) eqn:E2.
    { destruct (IH rest ltac:(lia)) as [Hc Hf]. split.
      - cbn [concat]. rewrite Hc. unfold without_spaces. simpl.
        now rewrite E1.
      - constructor; [reflexivity|exact Hf]. }
    destruct (str_contains "&|" [ch]) eqn:E3.
    + pose proof (take_run_rest_length ch rest) as L.
      pose proof (take_run_app ch (ch :: rest)) as Happ.
      pose proof (take_run_filter ch (ch :: rest) E1) as Hfil.
      cbn [take_run] in *. rewrite N.eqb_refl in *.
      destruct (take_run ch rest) as [run rest']. cbn [fst snd] in *.
      destruct (IH rest' ltac:(lia)) as [Hc Hf]. split.
      * cbn [concat]. rewrite Hc, <- Happ.
        change ((ch :: run) ++ rest') with ((ch :: run) ++ rest').
        rewrite (without_spaces_app (ch :: run) rest'), Hfil. reflexivity.
      * constructor; [reflexivity|exact Hf].
    + pose proof (take_word_rest_length rest) as L.
      pose proof (take_word_app (ch :: rest)) as Happ.
      pose proof (take_word_filter (ch :: rest)) as Hfil.
      cbn [take_word] in *. rewrite (@is_word_char_else _ E1 E2 E3) in *.
      destruct (take_word rest) as [w rest']. cbn [fst snd] in *.
      destruct (IH rest' ltac:(lia)) as [Hc Hf]. split.
      * cbn [concat]. rewrite Hc, <- Happ.
        rewrite (without_spaces_app (ch :: w) rest'), Hfil. reflexivity.
      * constructor; [reflexivity|exact Hf].
Qed.

(** X18. The tokenizer loses nothing but white space: the tokens of a
    segment, put end to end, are the segment with the full-width
    parentheses replaced by "(" and ")" and the white space removed; and
    no token is empty. *)
Theorem tokens_keep_all_but_spaces (segment : str) :
  concat (_tokenize segment) = without_spaces (normalize_parens segment)
  /\ Forall (fun token => is_empty token = false) (_tokenize segment).
Proof. unfold _tokenize. apply _tokenize_loop_concat. lia. Qed.

(* ===================================================================== *)
(** ** utils.py: grouping with insert_into *)
(* ===================================================================== *)

Lemma str_eqb_neq (a b : str) : str_eqb a b = false <-> a <> b.
Proof.
  split.
  - intros H E. apply str_eqb_eq in E. congruence.
  - intros H. destruct (str_eqb a b) eqn:E; [|reflexivity].
    apply str_eqb_eq in E. contradiction.
Qed.

Lemma str_eqb_sym (a b : str) : str_eqb a b = str_eqb b a.
Proof.
  destruct (str_eqb b a) eqn:E.
  - apply str_eqb_eq in E. subst. apply str_eqb_refl.
  - apply str_eqb_neq in E. apply str_eqb_neq. congruence.
Qed.

Lemma dict_get_setitem {V} (d : dict V) (k : str) (v : V) (k' : str) :
  dict_get (dict_setitem d k v) k'
  = if str_eqb k k' then Some v else dict_get d k'.
Proof.
  induction d as [|[k0 v0] r IH]; simpl.
  - destruct (str_eqb k k'); reflexivity.
  - destruct (str_eqb k0 k) eqn:E0; simpl.
    + apply str_eqb_eq in E0. subst k0.
      destruct (str_eqb k k'); reflexivity.
    + rewrite IH. destruct (str_eqb k0 k') eqn:E1; [|reflexivity].
      apply str_eqb_eq in E1. subst k'.
      rewrite str_eqb_sym, E0. reflexivity.
Qed.

Lemma has_key_keys {V} (d : dict V) (k : str) :
  has_key d k = str_in k (dict_keys d).
Proof.
  unfold has_key. induction d as [|[k0 v0] r IH]; simpl; [reflexivity|].
  rewrite (str_eqb_sym k k0). destruct (str_eqb k0 k); [reflexivity|exact IH].
Qed.

Lemma dict_keys_setitem {V} (d : dict V) (k : str) (v : V) :
  dict_keys (dict_setitem d k v)
  = dict_keys d ++ (if has_key d k then [] else [k]).
Proof.
  unfold has_key. induction d as [|[k0 v0] r IH]; simpl; [reflexivity|].
  destruct (str_eqb k0 k) eqn:E0; simpl.
  - now rewrite app_nil_r.
  - now rewrite IH.
Qed.

Lemma dict_get_insert_into {V} (m : dict (list V)) (k : str) (v : V)
  (k' : str) :
  dict_get (insert_into m k v) k'
  = if str_eqb k k' then Some (dict_get_default m k [] ++ [v])
    else dict_get m k'.
Proof.
  unfold insert_into, dict_setdefault, dict_get_default.
  destruct (dict_get m k) as [l|] eqn:E;
    rewrite !dict_get_setitem; destruct (str_eqb k k'); reflexivity.
Qed.

Lemma dict_keys_insert_into {V} (m : dict (list V)) (k : str) (v : V) :
  dict_keys (insert_into m k v)
  = dict_keys m ++ (if has_key m k then [] else [k]).
Proof.
  unfold insert_into, dict_setdefault, has_key.
  destruct (dict_get m k) as [l|] eqn:E.
  - rewrite dict_keys_setitem. unfold has_key. now rewrite E.
  - rewrite !dict_keys_setitem. unfold has_key.
    rewrite dict_get_setitem, str_eqb_refl, E. now rewrite app_nil_r.
Qed.

Lemma dict_get_prepend_values_into {V} (m : dict (list V)) (k : str)
  (values : list V) (k' : str) :
  dict_get (prepend_values_into m k values) k'
  = if str_eqb k k' then Some (values ++ dict_get_default m k [])
    else dict_get m k'.
Proof.
  unfold prepend_values_into, dict_get_default.
  destruct (dict_get m k) as [l|] eqn:E;
    rewrite dict_get_setitem; destruct (str_eqb k k');
    rewrite ?app_nil_r; reflexivity.
Qed.

Lemma dict_get_default_insert_into {V} (m : dict (list V)) (k : str) (v : V)
  (k' : str) :
  dict_get_default (insert_into m k v) k' []
  = dict_get_default m k' [] ++ (if str_eqb k k' then [v] else []).
Proof.
  unfold dict_get_default at 1. rewrite dict_get_insert_into.
  destruct (str_eqb k k') eqn:E.
  - apply str_eqb_eq in E. now subst.
  - now rewrite app_nil_r.
Qed.

Lemma fold_insert_into_get {A V} (key : A -> str) (val : A -> V)
  (l : list A) (m : dict (list V)) (k : str) :
  dict_get_default
    (fold_left (fun m a => insert_into m (key a) (val a)) l m) k []
  = dict_get_default m k []
    ++ map val (filter (fun a => str_eqb (key a) k) l).
Proof.
  revert m. induction l as [|a r IH]; intros m; simpl.
  - now rewrite app_nil_r.
  - rewrite IH, dict_get_default_insert_into, <- app_assoc.
    destruct (str_eqb (key a) k); reflexivity.
Qed.

Lemma fold_insert_into_keys {A V} (key : A -> str) (val : A -> V)
  (l : list A) (m : dict (list V)) :
  dict_keys (fold_left (fun m a => insert_into m (key a) (val a)) l m)
  = dict_keys m ++ new_keys (dict_keys m) (map key l).
Proof.
  revert m. induction l as [|a r IH]; intros m; simpl.
  - now rewrite app_nil_r.
  - rewrite IH, dict_keys_insert_into, <- has_key_keys.
    destruct (has_key m (key a)).
    + now rewrite app_nil_r.
    + now rewrite <- app_assoc.
Qed.

Lemma fold_insert_into_has_key {A V} (key : A -> str) (val : A -> V)
  (l : list A) (m : dict (list V)) (k : str) :
  has_key (fold_left (fun m a => insert_into m (key a) (val a)) l m) k
  = has_key m k || existsb (fun a => str_eqb (key a) k) l.
Proof.
  revert m. induction l as [|a r IH]; intros m; simpl.
  - now rewrite orb_false_r.
  - rewrite IH. unfold has_key at 1. rewrite dict_get_insert_into.
    destruct (str_eqb (key a) k); simpl.
    + now rewrite orb_true_r.
    + reflexivity.
Qed.

(** X19.  insert_into groups by key.  After the pairs of a list have been
    inserted one by one into a mapping, the list stored under a key is
    the one that was there followed by the values paired with that key,
    in the order of the list; a key is present exactly when it was or
    when some pair has it; and the keys are the old ones, in their
    order, followed by the new ones in the order of their first
    occurrence. *)
Theorem insert_into_groups_by_key {V} (pairs : list (str * V))
  (map_obj : dict (list V)) :
  let m := fold_left (fun m p => insert_into m (fst p) (snd p)) pairs map_obj in
  (forall k, dict_get_default m k []
             = dict_get_default map_obj k [] ++ values_of k pairs)
  /\ (forall k, has_key m k
                = has_key map_obj k || str_in k (map fst pairs))
  /\ dict_keys m
     = dict_keys map_obj ++ new_keys (dict_keys map_obj) (map fst pairs).
Proof.
  cbv zeta. split; [|split].
  - intros k. apply fold_insert_into_get.
  - intros k. rewrite fold_insert_into_has_key. f_equal.
    unfold str_in. induction pairs as [|p r IH]; simpl; [reflexivity|].
    now rewrite IH, str_eqb_sym.
  - apply fold_insert_into_keys.
Qed.

(* ===================================================================== *)
(** ** 資料.py: what the indices hold and what the queries return *)
(* ===================================================================== *)

Lemma new_keys_not_seen (seen ks : list str) (k : str) :
  In k (new_keys seen ks) -> ~ In k seen.
Proof.
  revert seen. induction ks as [|k0 r IH]; intros seen; simpl; [tauto|].
  destruct (str_in k0 seen) eqn:E; [apply IH|].
  intros [<-|H].
  - intros Hin. apply str_in_In in Hin. congruence.
  - intros Hin. apply (IH _ H). apply in_or_app. now left.
Qed.

Lemma new_keys_NoDup (seen ks : list str) : NoDup (new_keys seen ks).
Proof.
  revert seen. induction ks as [|k0 r IH]; intros seen; simpl;
    [constructor|].
  destruct (str_in k0 seen); [apply IH|]. constructor; [|apply IH].
  intros H. apply new_keys_not_seen in H. apply H, in_or_app.
  right. now left.
Qed.

Lemma fold_insert_into_keys_NoDup {A V} (key : A -> str) (val : A -> V)
  (l : list A) :
  NoDup (dict_keys (fold_left (fun m a => insert_into m (key a) (val a)) l [])).
Proof. rewrite fold_insert_into_keys. apply new_keys_NoDup. Qed.

Lemma dict_get_not_key {V} (d : dict V) (k : str) :
  ~ In k (dict_keys d) -> dict_get d k = None.
Proof.
  induction d as [|[k0 v0] r IH]; simpl; [reflexivity|]. intros H.
  destruct (str_eqb k0 k) eqn:E.
  - apply str_eqb_eq in E. tauto.
  - apply IH. tauto.
Qed.

Lemma fold_prepend_values_into_get {V} (items m : dict (list V)) (k : str) :
  NoDup (dict_keys items) ->
  dict_get_default
    (fold_left (fun m item => prepend_values_into m (fst item) (snd item))
               items m) k []
  = dict_get_default items k [] ++ dict_get_default m k [].
Proof.
  revert m. induction items as [|[k0 l0] r IH]; intros m ND; [reflexivity|].
  cbn [dict_keys map fst] in ND. apply NoDup_cons_iff in ND as [Hn ND].
  cbn [fold_left fst snd]. rewrite (IH _ ND).
  unfold dict_get_default at 2 3. rewrite dict_get_prepend_values_into.
  cbn [dict_get]. destruct (str_eqb k0 k) eqn:E.
  - apply str_eqb_eq in E. subst k0.
    unfold dict_get_default at 1. now rewrite (dict_get_not_key _ _ Hn).
  - reflexivity.
Qed.

Lemma _clone來源_id (來源 : option 來源類型) : _clone來源 來源 = 來源.
Proof. now destruct 來源 as [[]|]. Qed.

Lemma list_comprehension_only_ValueError {A B} (f : A -> result B)
  (l : list A) :
  (forall a, only_ValueError (f a)) ->
  only_ValueError (list_comprehension f l).
Proof.
  intros H. induction l as [|a r IH]; cbn [list_comprehension].
  - apply only_ValueError_Ok.
  - apply only_ValueError_bind; [apply H|]. intros b.
    apply only_ValueError_bind; [apply IH|]. intros bs.
    apply only_ValueError_Ok.
Qed.

Lemma generator_In {A B} (f : A -> result B) (l : list A) (b : B) :
  In b (fst (generator f l)) -> exists a, In a l /\ f a = Ok b.
Proof.
  induction l as [|a r IH]; cbn [generator]; [intros []|].
  destruct (f a) as [b0|e] eqn:E; [|intros []].
  destruct (generator f r) as [bs e]. cbn [fst] in *.
  intros [<-|H].
  - exists a. split; [now left|exact E].
  - destruct (IH H) as (a' & Ha & Ea). exists a'. split; [now right|exact Ea].
Qed.

Lemma generator_NoDup {A B} (f : A -> result B) (l : list A) :
  (forall a a' b, f a = Ok b -> f a' = Ok b -> a = a') ->
  NoDup l -> NoDup (fst (generator f l)).
Proof.
  intros inj. induction l as [|a r IH]; cbn [generator]; intros ND;
    [constructor|].
  apply NoDup_cons_iff in ND as [Hn ND].
  destruct (f a) as [b|e] eqn:E; [|constructor].
  pose proof (generator_In f r b) as HIn. specialize (IH ND).
  destruct (generator f r) as [bs e]. cbn [fst] in *.
  constructor; [|exact IH]. intros H.
  destruct (HIn H) as (a' & Ha & Ea).
  rewrite (inj _ _ _ E Ea) in Hn. contradiction.
Qed.

Lemma generator_exception {A B} (f : A -> result B) (l : list A) (e : exn) :
  snd (generator f l) = Some e -> exists a, In a l /\ f a = Raise e.
Proof.
  induction l as [|a r IH]; cbn [generator]; [discriminate|].
  destruct (f a) as [b|e0] eqn:E.
  - destruct (generator f r) as [bs e']. cbn [snd] in *. intros H.
    destruct (IH H) as (a' & Ha & Ea). exists a'. split; [now right|exact Ea].
  - cbn [snd]. intros [= ->]. exists a. split; [now left|exact E].
Qed.

Section 資料_properties.
Context {常 : 音韻屬性常量}.
Variable by原書小韻 : list (Z * list 內部廣韻條目.t).

Lemma _build_indices_條目_fold (l : list 內部廣韻條目.t) (st : 檢索) :
  fold_left _build_indices_條目 l st
  = {| m字頭檢索 :=
         fold_left (fun m r => insert_into m (內部檢索結果.字頭 r) r)
                   (flat_map 記錄_of_條目 l) (m字頭檢索 st);
       m音韻編碼檢索 :=
         fold_left (fun m r => insert_into m (內部檢索結果.編碼 r) r)
                   (flat_map 記錄_of_條目 l) (m音韻編碼檢索 st) |}.
Proof.
  revert st. induction l as [|條目 r IH]; intros st.
  - now destruct st.
  - cbn [fold_left flat_map]. rewrite IH, !fold_left_app.
    unfold _build_indices_條目, 記錄_of_條目.
    destruct (內部廣韻條目.音韻編碼 條目); reflexivity.
Qed.

Lemma _build_indices_fold (ls : list (list 內部廣韻條目.t)) (st : 檢索) :
  fold_left (fun st 原書小韻 => fold_left _build_indices_條目 原書小韻 st) ls st
  = {| m字頭檢索 :=
         fold_left (fun m r => insert_into m (內部檢索結果.字頭 r) r)
                   (flat_map (flat_map 記錄_of_條目) ls) (m字頭檢索 st);
       m音韻編碼檢索 :=
         fold_left (fun m r => insert_into m (內部檢索結果.編碼 r) r)
                   (flat_map (flat_map 記錄_of_條目) ls) (m音韻編碼檢索 st) |}.
Proof.
  revert st. induction ls as [|l r IH]; intros st.
  - now destruct st.
  - cbn [fold_left flat_map]. rewrite IH, _build_indices_條目_fold.
    cbn [m字頭檢索 m音韻編碼檢索]. now rewrite !fold_left_app.
Qed.

Lemma _augment_loop_Ok (entries : list (str * str * str * str * str * str))
  (by字頭 m by字頭' m' : dict (list 內部檢索結果.t)) :
  _augment_loop entries by字頭 m = Ok (by字頭', m') ->
  exists 王三,
    王三記錄 entries = Ok 王三
    /\ by字頭' = fold_left (fun m r => insert_into m (內部檢索結果.字頭 r) r)
                          王三 by字頭
    /\ m' = fold_left (fun m r => insert_into m (內部檢索結果.編碼 r) r)
                      王三 m.
Proof.
  revert by字頭 m. induction entries as [|[[[[[c d] f] g] n] y] rest IH];
    intros by字頭 m; cbn [_augment_loop 王三記錄].
  - intros [= <- <-]. exists []. now split.
  - intros H. apply bind_Ok in H as (地位 & E1 & H).
    apply bind_Ok in H as (編碼 & E2 & H).
    rewrite E1. cbn [bind]. rewrite E2. cbn [bind].
    destruct (IH _ _ H) as (王三 & -> & -> & ->). cbn [bind].
    eexists. split; [reflexivity|]. now split.
Qed.

Lemma _augment_loop_王三記錄 (entries : list (str * str * str * str * str * str))
  (by字頭 m : dict (list 內部檢索結果.t)) (王三 : list 內部檢索結果.t) :
  王三記錄 entries = Ok 王三 ->
  _augment_loop entries by字頭 m
  = Ok (fold_left (fun m r => insert_into m (內部檢索結果.字頭 r) r)
                  王三 by字頭,
        fold_left (fun m r => insert_into m (內部檢索結果.編碼 r) r)
                  王三 m).
Proof.
  revert by字頭 m 王三. induction entries as [|[[[[[c d] f] g] n] y] rest IH];
    intros by字頭 m 王三; cbn [_augment_loop 王三記錄].
  - now intros [= <-].
  - intros H. apply bind_Ok in H as (地位 & E1 & H).
    apply bind_Ok in H as (編碼 & E2 & H).
    apply bind_Ok in H as (記錄 & E & [= <-]).
    rewrite E1. cbn [bind]. rewrite E2. cbn [bind].
    now rewrite (IH _ _ _ E).
Qed.

(** The lists the two indices hold once the module is loaded. *)
Lemma 資料_loaded_content (st : 檢索) :
  資料_loaded by原書小韻 = Ok st ->
  exists 王三,
    王三記錄 早期廣韻外字 = Ok 王三
    /\ (forall 字頭,
          dict_get_default (m字頭檢索 st) 字頭 []
          = filter (字頭_is 字頭) (王三 ++ 廣韻記錄 by原書小韻))
    /\ (forall 編碼,
          dict_get_default (m音韻編碼檢索 st) 編碼 []
          = filter (編碼_is 編碼) (廣韻記錄 by原書小韻 ++ 王三))
    /\ dict_keys (m音韻編碼檢索 st)
       = new_keys [] (map 內部檢索結果.編碼 (廣韻記錄 by原書小韻 ++ 王三)).
Proof.
  unfold 資料_loaded, _build_indices, _augment_早期廣韻外字.
  rewrite _build_indices_fold. cbn [m字頭檢索 m音韻編碼檢索]. intros H.
  apply bind_Ok in H as ([by字頭 m'] & H & [= <-]).
  apply _augment_loop_Ok in H as (王三 & E & -> & ->).
  exists 王三. split; [exact E|]. cbn [m字頭檢索 m音韻編碼檢索].
  fold (廣韻記錄 by原書小韻). split; [|split].
  - intros 字頭. rewrite fold_prepend_values_into_get
      by apply fold_insert_into_keys_NoDup.
    rewrite !(fold_insert_into_get 內部檢索結果.字頭 (fun r => r)).
    rewrite !map_id, filter_app. reflexivity.
  - intros 編碼. rewrite <- fold_left_app.
    rewrite (fold_insert_into_get 內部檢索結果.編碼 (fun r => r)).
    now rewrite map_id.
  - rewrite <- fold_left_app.
    now rewrite (fold_insert_into_keys 內部檢索結果.編碼 (fun r => r)).
Qed.

End 資料_properties.

Lemma list_comprehension_結果 (地位 : 音韻地位) (編碼 : str)
  (l : list 內部檢索結果.t) :
  decode音韻編碼 編碼 = Ok 地位 ->
  Forall (fun r => 內部檢索結果.編碼 r = 編碼) l ->
  list_comprehension 結果from內部結果 l = Ok (map (結果_of 地位) l).
Proof.
  intros D. induction 1 as [|r l Hr Hl IH]; [reflexivity|].
  cbn [list_comprehension map]. unfold 結果from內部結果 at 1.
  rewrite Hr, D. cbn [bind]. rewrite IH. cbn [bind].
  now rewrite _clone來源_id.
Qed.

Lemma list_comprehension_字頭 (字頭 : str) (l : list 內部檢索結果.t)
  (結果 : list 檢索結果.t) :
  Forall (fun r => 內部檢索結果.字頭 r = 字頭) l ->
  list_comprehension 結果from內部結果 l = Ok 結果 ->
  Forall (fun r => 檢索結果.字頭 r = 字頭) 結果.
Proof.
  intros Hl. revert 結果. induction Hl as [|r l Hr Hl IH]; intros 結果.
  - intros [= <-]. constructor.
  - cbn [list_comprehension]. intros H.
    apply bind_Ok in H as (b & Hb & H).
    apply bind_Ok in H as (bs & Hbs & [= <-]).
    constructor; [|now apply IH].
    unfold 結果from內部結果 in Hb. apply bind_Ok in Hb as (地位 & _ & [= <-]).
    exact Hr.
Qed.

Lemma filter_Forall {A} (f : A -> bool) (l : list A) :
  Forall (fun a => f a = true) (filter f l).
Proof. apply Forall_forall. intros a H. now apply filter_In in H. Qed.

Lemma filter_編碼_is (編碼 : str) (l : list 內部檢索結果.t) :
  Forall (fun r => 內部檢索結果.編碼 r = 編碼) (filter (編碼_is 編碼) l).
Proof.
  eapply Forall_impl; [|apply filter_Forall]. intros r H.
  now apply str_eqb_eq in H.
Qed.

Lemma filter_字頭_is (字頭 : str) (l : list 內部檢索結果.t) :
  Forall (fun r => 內部檢索結果.字頭 r = 字頭) (filter (字頭_is 字頭) l).
Proof.
  eapply Forall_impl; [|apply filter_Forall]. intros r H.
  now apply str_eqb_eq in H.
Qed.

Lemma 結果from內部結果_only_ValueError (記錄 : 內部檢索結果.t) :
  only_ValueError (結果from內部結果 記錄).
Proof.
  unfold 結果from內部結果.
  apply only_ValueError_bind; [apply decode音韻編碼_only_ValueError|].
  intros 地位. apply only_ValueError_Ok.
Qed.

Lemma 王三記錄_切韻 :
  exists 王三, 王三記錄 早期廣韻外字 = Ok 王三
               /\ map 內部檢索結果.字頭 王三 = ["忘" : str; "韻" : str]
               /\ map 內部檢索結果.編碼 王三 = ["DpM" : str; "kVq" : str].
Proof. eexists. split; [vm_compute; reflexivity|]. split; reflexivity. Qed.

Lemma decode_of_encoded (P : 音韻地位)
  (邊緣地位種類 : option 邊緣地位種類指定) :
  音韻地位__init__ (母 P) (呼 P) (等 P) (類 P) (韻 P) (聲 P) 邊緣地位種類 = Ok P ->
  exists 編碼, encode音韻編碼 P = Ok 編碼 /\ decode音韻編碼 編碼 = Ok P.
Proof.
  unfold 音韻地位__init__. intros H. apply bind_Ok in H as ([] & Hv & _).
  pose proof (@for_all_valid_sound _ _ encode_decode_checked _ _ _ _ _ _ _ Hv)
    as Hcheck.
  unfold encode_decode_check in Hcheck. rewrite 音韻地位_eta in Hcheck.
  rewrite (@驗證_UNCHECKED _ _ _ _ _ _ _ _ Hv) in Hcheck. cbn [raises] in Hcheck.
  destruct (encode音韻編碼 P) as [編碼|] eqn:E; [|discriminate].
  apply returns_Ok in Hcheck. now exists 編碼.
Qed.

Lemma generator_complete {A B} (f : A -> result B) (l : list A) (a : A) :
  snd (generator f l) = None -> In a l ->
  exists b, f a = Ok b /\ In b (fst (generator f l)).
Proof.
  induction l as [|a0 r IH]; cbn [generator]; [intros _ []|].
  destruct (f a0) as [b0|e] eqn:E; [|discriminate].
  destruct (generator f r) as [bs e]. cbn [fst snd] in *.
  intros He [<-|H].
  - exists b0. split; [exact E|now left].
  - destruct (IH He H) as (b & Hb & Hin). exists b. split; [exact Hb|now right].
Qed.

Lemma new_keys_In (seen ks : list str) (k : str) :
  In k ks -> ~ In k seen -> In k (new_keys seen ks).
Proof.
  revert seen. induction ks as [|k0 r IH]; intros seen; simpl; [tauto|].
  intros [->|H] Hn.
  - destruct (str_in k seen) eqn:E; [|now left].
    apply str_in_In in E. contradiction.
  - destruct (str_in k0 seen) eqn:E; [now apply IH|].
    destruct (str_eqb k0 k) eqn:E0.
    + apply str_eqb_eq in E0. now left.
    + right. apply IH; [exact H|]. intros Hin.
      apply in_app_or in Hin as [Hin|[->|[]]]; [contradiction|].
      now rewrite str_eqb_refl in E0.
Qed.

Lemma new_keys_incl (seen ks : list str) (k : str) :
  In k (new_keys seen ks) -> In k ks.
Proof.
  revert seen. induction ks as [|k0 r IH]; intros seen; simpl; [tauto|].
  destruct (str_in k0 seen); [right; eauto|].
  intros [->|H]; [now left|right; eauto].
Qed.

Section 資料_切韻.
Variable by原書小韻 : list (Z * list 內部廣韻條目.t).

Lemma 資料_loaded_Ok : exists st, 資料_loaded by原書小韻 = Ok st.
Proof.
  destruct 王三記錄_切韻 as (王三 & E & _).
  unfold 資料_loaded, _build_indices, _augment_早期廣韻外字.
  rewrite (_augment_loop_王三記錄 _ _ _ E). cbn [bind]. eexists. reflexivity.
Qed.

(** X20.  query字頭 on whatever dataset the module was loaded with.  The
    module loads without an exception, and the records query字頭 turns
    into results are those with the requested 字頭: first the ones of the
    supplement (忘 and 韻), then the ones of the book that have a code,
    in the order of the book.  So every result has the 字頭 asked for, a
    character with no record gives the empty list, and the only
    exception is the ValueError of a code of the dataset that does not
    decode. *)
Theorem query_by_character (字頭 : str) :
  exists st 王三,
    資料_loaded by原書小韻 = Ok st
    /\ 王三記錄 早期廣韻外字 = Ok 王三
    /\ query字頭 st 字頭
       = list_comprehension 結果from內部結果
           (filter (字頭_is 字頭) (王三 ++ 廣韻記錄 by原書小韻))
    /\ (forall 結果, query字頭 st 字頭 = Ok 結果 ->
                    Forall (fun r => 檢索結果.字頭 r = 字頭) 結果)
    /\ (forall e, query字頭 st 字頭 = Raise e -> is_ValueError e = true).
Proof.
  destruct 資料_loaded_Ok as (st & L).
  destruct (資料_loaded_content _ L) as (王三 & E & H字頭 & _).
  exists st, 王三. split; [exact L|]. split; [exact E|].
  unfold query字頭. rewrite H字頭. split; [reflexivity|]. split.
  - intros 結果. apply list_comprehension_字頭, filter_字頭_is.
  - apply list_comprehension_only_ValueError.
    apply 結果from內部結果_only_ValueError.
Qed.

(** X21.  query音韻地位 of a position the constructor accepted never
    raises, whatever the dataset.  It returns one result for every
    record whose code is the code of the position, the records of the
    book first, in its order, and those of the supplement after them;
    and the 音韻地位 of every result is the position asked for. *)
Theorem query_by_position (st : 檢索) (P : 音韻地位)
  (邊緣地位種類 : option 邊緣地位種類指定) :
  資料_loaded by原書小韻 = Ok st ->
  音韻地位__init__ (母 P) (呼 P) (等 P) (類 P) (韻 P) (聲 P) 邊緣地位種類 = Ok P ->
  exists 編碼 王三,
    encode音韻編碼 P = Ok 編碼
    /\ 王三記錄 早期廣韻外字 = Ok 王三
    /\ query音韻地位 st P
       = Ok (map (結果_of P)
                 (filter (編碼_is 編碼) (廣韻記錄 by原書小韻 ++ 王三))).
Proof.
  intros L HP.
  destruct (資料_loaded_content _ L) as (王三 & E & _ & H編碼 & _).
  destruct (decode_of_encoded _ HP) as (編碼 & He & Hd).
  exists 編碼, 王三. split; [exact He|]. split; [exact E|].
  unfold query音韻地位. rewrite He. cbn [bind]. rewrite H編碼.
  apply list_comprehension_結果 with (編碼 := 編碼); [exact Hd|].
  apply filter_編碼_is.
Qed.

(** X22.  iter音韻地位 yields each position once.  No position is yielded
    twice; every position yielded has at least one record, which
    query音韻地位 returns; the iteration can only be ended by the
    ValueError of a code that does not decode; and when it runs to its
    end, every position the constructor accepts for which query音韻地位
    returns a result has been yielded. *)
Theorem iter_positions_once (st : 檢索) :
  資料_loaded by原書小韻 = Ok st ->
  NoDup (fst (iter音韻地位 st))
  /\ (forall P, In P (fst (iter音韻地位 st)) ->
        exists 結果 rest, query音韻地位 st P = Ok (結果 :: rest))
  /\ (forall e, snd (iter音韻地位 st) = Some e -> is_ValueError e = true)
  /\ (snd (iter音韻地位 st) = None ->
      forall P 邊緣地位種類 結果 rest,
        音韻地位__init__ (母 P) (呼 P) (等 P) (類 P) (韻 P) (聲 P)
                      邊緣地位種類 = Ok P ->
        query音韻地位 st P = Ok (結果 :: rest) ->
        In P (fst (iter音韻地位 st))).
Proof.
  intros L.
  destruct (資料_loaded_content _ L) as (王三 & E & _ & H編碼 & Hkeys).
  unfold iter音韻地位. rewrite Hkeys.
  set (記錄 := 廣韻記錄 by原書小韻 ++ 王三) in *.
  split; [|split; [|split]].
  - apply generator_NoDup; [|apply new_keys_NoDup].
    intros a a' P Ha Ha'. apply encode_of_decoded in Ha, Ha'.
    rewrite Ha in Ha'. now apply Ok_inj in Ha'.
  - intros P HP. apply generator_In in HP as (編碼 & Hk & Hd).
    apply new_keys_incl in Hk. apply in_map_iff in Hk as (r & Hr & Hin).
    unfold query音韻地位. rewrite (encode_of_decoded _ Hd). cbn [bind].
    rewrite H編碼.
    rewrite (list_comprehension_結果 Hd (filter_編碼_is 編碼 記錄)).
    assert (Hf : In r (filter (編碼_is 編碼) 記錄)).
    { apply filter_In. split; [exact Hin|].
      unfold 編碼_is. rewrite Hr. apply str_eqb_refl. }
    destruct (filter (編碼_is 編碼) 記錄) as [|r0 rs]; [destruct Hf|].
    cbn [map]. eexists _, _. reflexivity.
  - intros e He. apply generator_exception in He as (編碼 & _ & Hd).
    exact (@decode音韻編碼_only_ValueError 編碼 e Hd).
  - intros He P 邊緣地位種類 結果 rest HP HQ.
    destruct (decode_of_encoded _ HP) as (編碼 & Hen & Hd).
    unfold query音韻地位 in HQ. rewrite Hen in HQ. cbn [bind] in HQ.
    rewrite H編碼 in HQ.
    rewrite (list_comprehension_結果 Hd (filter_編碼_is 編碼 記錄)) in HQ.
    apply Ok_inj in HQ.
    assert (Hk : In 編碼 (new_keys [] (map 內部檢索結果.編碼 記錄))).
    { apply new_keys_In; [|intros []].
      destruct (filter (編碼_is 編碼) 記錄) as [|r rs] eqn:Ef; [discriminate|].
      assert (Hr : In r (filter (編碼_is 編碼) 記錄)) by (rewrite Ef; now left).
      apply filter_In in Hr as [Hin Hr]. apply str_eqb_eq in Hr.
      apply in_map_iff. now exists r. }
    destruct (generator_complete decode音韻編碼 _ _ He Hk) as (Q & HdQ & HQin).
    rewrite Hd in HdQ. apply Ok_inj in HdQ. now subst Q.
Qed.

End 資料_切韻.

Lemma query_by_position_witness :
  let 條目 := 內部廣韻條目.Mk "東" (Some ("AAA" : str)) (Some ("德紅" : str))
                "春方也" "1" "東" in
  let 忘 := 內部廣韻條目.Mk "忘" (Some ("DpM" : str)) (Some ("巫放" : str))
              "遺忘" "2" "陽" in
  let by原書小韻 := [(1%Z, [條目]); (2%Z, [忘])] in
  let P := Mk音韻地位 "明" None "三" (Some ("C" : str)) "陽" "平" in
  exists st,
    資料_loaded by原書小韻 = Ok st
    /\ exists 編碼 王三,
         encode音韻編碼 P = Ok 編碼
         /\ 王三記錄 早期廣韻外字 = Ok 王三
         /\ query音韻地位 st P
            = Ok (map (結果_of P)
                      (filter (編碼_is 編碼) (廣韻記錄 by原書小韻 ++ 王三))).
Proof.
  cbv zeta. eexists. split; [vm_compute; reflexivity|].
  apply query_by_position with (邊緣地位種類 := @None 邊緣地位種類指定);
    vm_compute; reflexivity.
Defined.

Lemma iter_positions_once_witness :
  let 條目 := 內部廣韻條目.Mk "東" (Some ("AAA" : str)) (Some ("德紅" : str))
                "春方也" "1" "東" in
  let 忘 := 內部廣韻條目.Mk "忘" (Some ("DpM" : str)) (Some ("巫放" : str))
              "遺忘" "2" "陽" in
  let by原書小韻 := [(1%Z, [條目]); (2%Z, [忘])] in
  exists st,
    資料_loaded by原書小韻 = Ok st
    /\ length (fst (iter音韻地位 st)) = 3%nat
    /\ NoDup (fst (iter音韻地位 st)).
Proof.
  cbv zeta. eexists. split; [vm_compute; reflexivity|].
  split; [vm_compute; reflexivity|].
  match goal with
  | |- NoDup (fst (iter音韻地位 ?st)) =>
    refine (proj1 (@iter_positions_once
                     [(1%Z, [內部廣韻條目.Mk "東" (Some ("AAA" : str))
                                 (Some ("德紅" : str)) "春方也" "1" "東"]);
                      (2%Z, [內部廣韻條目.Mk "忘" (Some ("DpM" : str))
                                 (Some ("巫放" : str)) "遺忘" "2" "陽"])]
                     st _))
  end.
  vm_compute. reflexivity.
Defined.

(* ===================================================================== *)
(** ** StringLogger: log and pop_all *)
(* ===================================================================== *)

Lemma fold_log_messages (messages : list str) (logger : StringLogger) :
  fold_left (fun logger message => log message logger) messages logger
  = {| enable := enable logger;
       _messages := _messages logger
                    ++ (if enable logger then messages else []) |}.
Proof.
  revert logger. induction messages as [|m r IH]; intros [en ms].
  - cbn. destruct en; now rewrite app_nil_r.
  - cbn [fold_left]. rewrite IH. unfold log. cbn [enable _messages].
    destruct en; cbn [enable _messages]; [|reflexivity].
    now rewrite <- app_assoc.
Qed.

(** X23.  pop_all hands over what was logged and empties the buffer.
    After any number of calls of log, pop_all returns the messages the
    logger held before, followed by the new ones in the order of the
    calls when the logger is enabled and by nothing when it is not; it
    keeps the enable flag; and a second pop_all returns the empty
    list. *)
Theorem pop_all_drains_the_log (messages : list str) (logger : StringLogger) :
  let logged :=
    fold_left (fun logger message => log message logger) messages logger in
  fst (pop_all logged)
  = _messages logger ++ (if enable logger then messages else [])
  /\ enable (snd (pop_all logged)) = enable logger
  /\ fst (pop_all (snd (pop_all logged))) = [].
Proof.
  cbv zeta. rewrite fold_log_messages. unfold pop_all.
  cbn [fst snd enable _messages]. now split.
Qed.

(* ===================================================================== *)
(** ** 韻鏡位置: the cells of the chart *)
(* ===================================================================== *)

Lemma 韻鏡位置__init___In (轉號 上位 右位 : Z) (self : 韻鏡位置) :
  韻鏡位置__init__ 轉號 上位 右位 = Ok self -> In self 所有韻鏡位置.
Proof.
  unfold 韻鏡位置__init__.
  destruct (1 <=? 轉號)%Z eqn:A1; [|discriminate].
  destruct (轉號 <=? 43)%Z eqn:A2; [|discriminate].
  destruct (1 <=? 上位)%Z eqn:B1; [|discriminate].
  destruct (上位 <=? 16)%Z eqn:B2; [|discriminate].
  destruct (1 <=? 右位)%Z eqn:C1; [|discriminate].
  destruct (右位 <=? 23)%Z eqn:C2; [|discriminate].
  cbn [negb andb]. intros [= <-].
  apply Z.leb_le in A1, A2, B1, B2, C1, C2.
  unfold 所有韻鏡位置. apply in_flat_map. exists (轉號 - 1)%Z.
  split; [apply In_Zrange; lia|].
  apply in_flat_map. exists (上位 - 1)%Z. split; [apply In_Zrange; lia|].
  apply in_map_iff. exists (右位 - 1)%Z. split; [|apply In_Zrange; lia].
  f_equal; lia.
Qed.

Lemma Ok_or_ValueError_only {A} (r : result A) :
  Ok_or_ValueError r = true -> only_ValueError r.
Proof. intros H e ->. exact H. Qed.

Lemma 韻鏡位置_exceptions_checked :
  forallb 韻鏡位置_exceptions_check 所有韻鏡位置 = true.
Proof. vm_compute. reflexivity. Qed.

Lemma 韻鏡位置_右位_checked :
  forallb 韻鏡位置_右位_check 所有韻鏡位置 = true.
Proof. vm_compute. reflexivity. Qed.

(** X24.  What reading a cell of the chart can raise.  For every
    coordinate the constructor of 韻鏡位置 accepts, the property 聲 always
    has a value, and the properties 母, 呼, 切韻等, 類 and 韻 and the method
    to音韻地位 either return or raise ValueError: no subscript of a table
    or of a string fails with IndexError or KeyError (for the tables of
    切韻常量, by computation over the 43 x 16 x 23 cells). *)
Theorem chart_cell_raises_only_ValueError (轉號 上位 右位 : Z)
  (self : 韻鏡位置) :
  韻鏡位置__init__ 轉號 上位 右位 = Ok self ->
  (exists 聲, 韻鏡位置_聲 self = Ok 聲)
  /\ only_ValueError (韻鏡位置_母 self)
  /\ only_ValueError (韻鏡位置_呼 self)
  /\ only_ValueError (切韻等 self)
  /\ only_ValueError (韻鏡位置_類 self)
  /\ only_ValueError (韻鏡位置_韻 self)
  /\ only_ValueError (to音韻地位 self).
Proof.
  intros H. apply 韻鏡位置__init___In in H.
  pose proof 韻鏡位置_exceptions_checked as Hc.
  rewrite forallb_forall in Hc. specialize (Hc _ H).
  unfold 韻鏡位置_exceptions_check in Hc.
  repeat (apply andb_prop in Hc as [Hc ?]).
  repeat split; try (now apply Ok_or_ValueError_only).
  destruct (韻鏡位置_聲 self) as [聲|e]; [now exists 聲|discriminate].
Qed.

Lemma chart_cell_raises_only_ValueError_witness :
  is_ValueError (ValueError "invalid 轉 15/16 combination") = true.
Proof.
  refine (proj1 (proj2 (proj2 (proj2 (proj2 (proj2
            (@chart_cell_raises_only_ValueError 15 1 1 (Mk韻鏡位置 15 1 1)
               _))))))
            (ValueError "invalid 轉 15/16 combination") _);
    reflexivity.
Defined.

(** X25.  A cell and the position read from it share the column.  If a
    cell of the chart reads as a position (to音韻地位 returns it) and
    音韻地位2韻鏡位置 places that position on the chart, the cell it
    returns has the 右位 of the cell read; the 轉號 and the 上位 need not
    be the same. *)
Theorem chart_cell_keeps_its_column (轉 上 右 : Z)
  (self position : 韻鏡位置) (地位 : 音韻地位) :
  韻鏡位置__init__ 轉 上 右 = Ok self ->
  to音韻地位 self = Ok 地位 ->
  音韻地位2韻鏡位置 地位 = Ok position ->
  右位 position = 右位 self.
Proof.
  intros H HP HQ. apply 韻鏡位置__init___In in H.
  pose proof 韻鏡位置_右位_checked as Hc.
  rewrite forallb_forall in Hc. specialize (Hc _ H).
  unfold 韻鏡位置_右位_check in Hc.
  unfold to音韻地位 in HP.
  apply bind_Ok in HP as (m & Em & HP). rewrite Em in Hc.
  apply bind_Ok in HP as (h & _ & HP).
  apply bind_Ok in HP as (d & _ & HP).
  apply bind_Ok in HP as (l & _ & HP).
  apply bind_Ok in HP as (y & _ & HP).
  apply bind_Ok in HP as (s & _ & HP).
  unfold 音韻地位__init__ in HP. apply bind_Ok in HP as ([] & _ & HP).
  apply Ok_inj in HP. subst 地位.
  unfold 音韻地位2韻鏡位置 in HQ. cbn [母 呼 等 類 韻 聲] in HQ.
  apply bind_Ok in HQ as (韻鏡等 & _ & HQ).
  apply bind_Ok in HQ as (轉' & _ & HQ).
  apply bind_Ok in HQ as (聲idx & _ & HQ).
  apply bind_Ok in HQ as (母idx & Ei & HQ). rewrite Ei in Hc.
  apply bind_Ok in HQ as (右' & Er & HQ). rewrite Er in Hc.
  cbn [returns_Z] in Hc. apply Z.eqb_eq in Hc. subst 右'.
  unfold 韻鏡位置__init__ in HQ.
  repeat match type of HQ with
         | (if ?b then _ else _) = _ => destruct b; [discriminate|]
         end.
  apply Ok_inj in HQ. now subst position.
Qed.

Lemma chart_cell_keeps_its_column_witness :
  右位 (Mk韻鏡位置 4 3 2) = 右位 (Mk韻鏡位置 5 3 2).
Proof.
  apply (@chart_cell_keeps_its_column 5 3 2 (Mk韻鏡位置 5 3 2)
           (Mk韻鏡位置 4 3 2)
           (Mk音韻地位 "滂" None "三" (Some ("B" : str)) "支" "平"));
    vm_compute; reflexivity.
Defined.

(* ===================================================================== *)
(** ** 音韻地位: 等於 and the derived attributes *)
(* ===================================================================== *)

Lemma str_index_contains (s x : str) :
  s <> [] -> str_contains s x = true ->
  exists i, str_index s x = Ok i /\ (0 <= i < Z.of_nat (length s))%Z.
Proof.
  induction s as [|c s IH]; [congruence|]. intros _ H.
  cbn [str_index str_contains] in *.
  destruct (str_prefix x (c :: s)) eqn:E.
  - exists 0%Z. split; [reflexivity|]. cbn [length]. lia.
  - cbn [orb] in H. destruct s as [|c' s'].
    + cbn in H. rewrite orb_false_r in H.
      destruct x; [discriminate E|discriminate H].
    + destruct (IH ltac:(discriminate) H) as (i & -> & Hi).
      exists (i + 1)%Z. split; [reflexivity|].
      cbn [length] in *. lia.
Qed.

Lemma str_getitem_in_range (s : str) (i : Z) :
  (0 <= i < Z.of_nat (length s))%Z -> exists c, str_getitem s i = Ok c.
Proof.
  intros H. unfold str_getitem.
  destruct (@getitem_in_range _ s i H) as [c ->]. now exists [c].
Qed.

Section 音韻地位_attributes.
Context {常 : 音韻屬性常量}.

Lemma has_key_getitem_Ok {V} (d : dict V) (k : str) :
  has_key d k = true -> exists v, dict_getitem d k = Ok v.
Proof.
  unfold has_key, dict_getitem. destruct (dict_get d k) as [v|];
    [now exists v|discriminate].
Qed.

Lemma 字母_Ok (P : 音韻地位) : exists v, 字母 P = Ok v.
Proof.
  unfold 字母.
  destruct (str_eqb (等 P) "三" && opt_str_eqb (類 P) "C"
            && str_contains "幫滂並明" (母 P)) eqn:E1.
  - apply andb_prop in E1 as [_ E1].
    destruct (@str_index_contains "幫滂並明" (母 P) ltac:(discriminate) E1)
      as (i & -> & Hi).
    cbn [bind]. apply str_getitem_in_range. exact Hi.
  - destruct (str_contains "莊初崇生俟章昌船書常" (母 P)) eqn:E2.
    + destruct (@str_index_contains "莊初崇生俟章昌船書常" (母 P)
                  ltac:(discriminate) E2) as (i & -> & Hi).
      cbn [bind]. apply str_getitem_in_range.
      change (Z.of_nat (length (chars "照穿牀審禪"))) with 5%Z.
      apply Z.mod_pos_bound. lia.
    + destruct (str_in (母 P) ["云" : str; "以" : str]); eexists; reflexivity.
Qed.

(** X26.  等於 is equality of the six attributes.  等於 compares the 描述
    of two positions; for positions the constructor accepted (each with
    whatever kinds), over tables whose entries are single characters
    with no 等 that is a 呼 and no 韻 that is a 類, two positions are 等於
    exactly when they have the same 母, 呼, 等, 類, 韻 and 聲. *)
Theorem equal_iff_same_attributes (P Q : 音韻地位)
  (kinds_P kinds_Q : option 邊緣地位種類指定) :
  描述_可解析 = true ->
  音韻地位__init__ (母 P) (呼 P) (等 P) (類 P) (韻 P) (聲 P) kinds_P = Ok P ->
  音韻地位__init__ (母 Q) (呼 Q) (等 Q) (類 Q) (韻 Q) (聲 Q) kinds_Q = Ok Q ->
  等於 P Q = true <-> P = Q.
Proof.
  intros Htab HP HQ. split; [|intros ->; apply str_eqb_refl].
  unfold 等於. intros H. apply str_eqb_eq in H.
  unfold 音韻地位__init__ in HP, HQ.
  apply bind_Ok in HP as ([] & HP & _). apply bind_Ok in HQ as ([] & HQ & _).
  destruct (@match_groups_描述 _ P _ [] Htab HP (or_introl eq_refl))
    as (pattern & Hp & Hm & Hh & Hl & _).
  destruct (@match_groups_描述 _ Q _ [] Htab HQ (or_introl eq_refl))
    as (pattern' & Hp' & Hm' & Hh' & Hl' & _).
  rewrite Hp in Hp'. apply Ok_inj in Hp'. subst pattern'.
  rewrite H, Hm' in Hm. injection Hm as Em Eh Ed El Ey Es.
  rewrite Eh in Hh'. rewrite El in Hl'.
  destruct P as [m h d l y s], Q as [m' h' d' l' y' s'].
  cbn [母 呼 等 類 韻 聲] in *. congruence.
Qed.

(** X27.  The derived attributes of an accepted position are defined.
    When the tables 母到清濁, 母到音 and 母到組 have an entry for every 母
    of 所有 and 韻到攝 one for every 韻, the properties 清濁, 音, 攝 and 組
    of a position the constructor accepted do not raise KeyError; and
    字母 raises for no position at all. *)
Theorem derived_attributes_are_defined (P : 音韻地位)
  (邊緣地位種類 : option 邊緣地位種類指定) :
  屬性表_complete = true ->
  音韻地位__init__ (母 P) (呼 P) (等 P) (類 P) (韻 P) (聲 P) 邊緣地位種類 = Ok P ->
  (exists v, 清濁 P = Ok v) /\ (exists v, 音 P = Ok v)
  /\ (exists v, 攝 P = Ok v) /\ (exists v, 組 P = Ok v)
  /\ (exists v, 字母 P = Ok v).
Proof.
  intros Htab HP. unfold 音韻地位__init__ in HP.
  apply bind_Ok in HP as ([] & HP & _).
  apply 驗證_domains in HP as (Dm & _ & _ & _ & Dy & _).
  unfold 屬性表_complete in Htab. apply andb_prop in Htab as [H母 H韻].
  rewrite forallb_forall in H母, H韻.
  specialize (H母 _ Dm). specialize (H韻 _ Dy).
  apply andb_prop in H母 as [H母 H組]. apply andb_prop in H母 as [H清濁 H音].
  unfold 清濁, 音, 攝, 組.
  repeat split; try (now apply has_key_getitem_Ok). apply 字母_Ok.
Qed.

End 音韻地位_attributes.

Lemma equal_iff_same_attributes_witness :
  等於 (Mk音韻地位 "幫" None "三" (Some ("C" : str)) "凡" "入")
       (Mk音韻地位 "幫" None "三" (Some ("C" : str)) "凡" "入") = true.
Proof.
  apply (@equal_iff_same_attributes 切韻常量
           (Mk音韻地位 "幫" None "三" (Some ("C" : str)) "凡" "入")
           (Mk音韻地位 "幫" None "三" (Some ("C" : str)) "凡" "入")
           None None); reflexivity.
Defined.

Lemma derived_attributes_are_defined_witness :
  exists v, 字母 (Mk音韻地位 "幫" None "三" (Some ("C" : str)) "凡" "入") = Ok v.
Proof.
  refine (proj2 (proj2 (proj2 (proj2
            (@derived_attributes_are_defined 切韻常量
               (Mk音韻地位 "幫" None "三" (Some ("C" : str)) "凡" "入")
               None _ _))))); reflexivity.
Defined.
